(** * Deepgram-modular: transcription routes, file storage and ontology statistics

    A shallow embedding of
      - [src/lib/storage/files.ts]                        (file storage helpers),
      - [src/app/api/rounds/[roundId]/transcribe/route.ts] (round-specific trigger),
      - [src/app/api/transcribe/route.ts]                  (generic upload trigger),
    as programs of a small state-and-exception monad over an explicit world
    (round store, file system, request body, effect trace). *)

From Stdlib Require Import QArith Ascii String.
From stdpp Require Import gmap strings list fin_maps pretty.

Open Scope string_scope.

(** ** Values thrown and caught *)

(** A JavaScript value that travels through [throw] / [catch].  The handlers
    only ask [error instanceof Error] and then read [message] and [stack]. *)
Inductive Thrown :=
| ErrorObj (message stack : string)
| NonError (repr : string).

Inductive Res (A : Type) :=
| Ok (a : A)
| Throw (t : Thrown).
Arguments Ok {A} a.
Arguments Throw {A} t.

(** ** Rounds *)

(** Modelled from the spec: the [RoundStatus] enumeration of types/round.ts,
    with the five states of section 4.3. *)
Inductive RoundStatus := CREATED | RECORDING | PROCESSING | COMPLETED | ERROR.

#[global] Instance RoundStatus_eq_dec : EqDecision RoundStatus.
Proof. solve_decision. Defined.

(** Modelled from the spec: the [Round] record of types/round.ts, with the
    fields the spec lists (name, description, language, status, references to
    the audio artifact and transcript output, derived duration and speaker
    count) under the names the routes write them with. *)
Record Round := mkRound {
  r_name : string;
  r_description : string;
  r_language : option string;
  r_status : RoundStatus;
  r_audio_file : option string;
  r_transcription_file : option string;
  r_duration_seconds : option Q;
  r_speaker_count : option nat
}.

(** The object literal handed to [updateRound]: every key is optional. *)
Record RoundPatch := mkPatch {
  p_status : option RoundStatus;
  p_audio_file : option string;
  p_transcription_file : option string;
  p_duration_seconds : option Q;
  p_speaker_count : option nat
}.

Definition status_patch (s : RoundStatus) : RoundPatch :=
  mkPatch (Some s) None None None None.

Definition keep {A} (new old : option A) : option A :=
  match new with Some _ => new | None => old end.

Definition apply_patch (p : RoundPatch) (r : Round) : Round :=
  {| r_name := r_name r;
     r_description := r_description r;
     r_language := r_language r;
     r_status := default (r_status r) (p_status p);
     r_audio_file := keep (p_audio_file p) (r_audio_file r);
     r_transcription_file := keep (p_transcription_file p) (r_transcription_file r);
     r_duration_seconds := keep (p_duration_seconds p) (r_duration_seconds r);
     r_speaker_count := keep (p_speaker_count p) (r_speaker_count r) |}.

(** ** Transcripts and the deliberation ontology *)

(** Modelled from the spec: the records of types/deliberation.ts, with the
    fields section 3 gives to an utterance, a speaker aggregate, the
    statistics (those whose derivation the spec states) and the ontology. *)
Record Utterance := mkUtt {
  u_speaker : string;
  u_start : Q;
  u_end : Q;
  u_text : string;
  u_confidence : Q
}.

(** The provider's [results] container.  [rs_utterances = None] stands for a
    response without utterance-level data; the paragraph-level segments are
    then the fallback. *)
Record Results := mkResults {
  rs_utterances : option (list Utterance);
  rs_paragraphs : list Utterance
}.

(** The provider response after [JSON.parse(JSON.stringify(result))].
    [raw_results = None] stands for a missing (or otherwise falsy)
    [results] key. *)
Record RawTranscript := mkRaw {
  raw_request_id : string;
  raw_results : option Results
}.

Record SpeakerAgg := mkAgg {
  total_time : Q;
  utterance_indices : list nat
}.

Record Statistics := mkStats {
  total_speakers : nat;
  duration_seconds : Q
}.

Record Metadata := mkMeta {
  md_filename : string;
  md_language : option string
}.

Record DeliberationOntology := mkOntology {
  metadata : Metadata;
  speakers : gmap string SpeakerAgg;
  utterances : list Utterance;
  statistics : Statistics
}.

(** ** The world the handlers run in *)

Definition Buffer := list Byte.byte.

(** What a file holds.  [JSON.stringify] is injective on the values written
    here, so a JSON file is identified with the value serialised into it. *)
Inductive FileData :=
| Bytes (b : Buffer)
| RawJson (raw : RawTranscript)
| OntologyJson (o : DeliberationOntology).

Inductive Level := Debug | Info | Warn | Error_.

Record TranscribeOptions := mkOpts {
  model : string;
  language : string;
  diarize : bool;
  punctuate : bool;
  paragraphs : bool;
  opt_utterances : bool;
  smart_format : bool
}.

(** The trace records every effect a handler attempts, in program order,
    whether the attempt then succeeds or fails. *)
Inductive Event :=
| EvLog (lvl : Level) (msg : string) (fields : list (string * string))
| EvGetRound (roundId : string)
| EvUpdateRound (roundId : string) (p : RoundPatch)
| EvMkdir (path : string)
| EvReadFile (path : string)
| EvWriteFile (path : string) (d : FileData)
| EvTranscribe (buffer : Buffer) (opts : TranscribeOptions).

Record World := mkWorld {
  rounds : gmap string Round;
  files : gmap string FileData;
  body_used : bool;
  clock : nat;
  trace : list Event
}.

Record ProviderError := mkPErr {
  pe_message : option string;
  pe_repr : string
}.

(** The [{ result, error }] pair that [transcribeFile] resolves to. *)
Record ProviderReply := mkReply {
  result : option RawTranscript;
  error : option ProviderError
}.

(** What the process does not control: its working directory and environment,
    the provider's answers, the stack text the runtime attaches to a new
    [Error], the UTF-8 text of a serialised JSON value, and the faults of
    storage and network.  [fault n] is the
    exception, if any, met by the operation that is the [n]-th storage or
    network operation of the run.  When that operation is a file write,
    [torn n] says how far the write got before it failed: [None] when it
    failed before the file was opened, [Some k] when the file had been opened
    (created or truncated) and [k] bytes of the text had been written. *)
Record Env := mkEnv {
  cwd : string;
  api_key : option string;
  provider : Buffer -> TranscribeOptions -> ProviderReply;
  stack_of : string -> string;
  json_text : FileData -> Buffer;
  fault : nat -> option Thrown;
  torn : nat -> option nat
}.

(** ** The monad: environment, world, exceptions *)

Definition IO (A : Type) : Type := Env -> World -> Res A * World.

Definition ret {A} (a : A) : IO A := fun _ w => (Ok a, w).

Definition bind {A B} (m : IO A) (k : A -> IO B) : IO B :=
  fun e w =>
    match m e w with
    | (Ok a, w') => k a e w'
    | (Throw t, w') => (Throw t, w')
    end.

Definition throw {A} (t : Thrown) : IO A := fun _ w => (Throw t, w).

Definition try_catch {A} (m : IO A) (h : Thrown -> IO A) : IO A :=
  fun e w =>
    match m e w with
    | (Ok a, w') => (Ok a, w')
    | (Throw t, w') => h t e w'
    end.

Declare Scope io_scope.
Delimit Scope io_scope with io.
Notation "'let!' x ':=' m 'in' k" := (bind m (fun x => k))
  (at level 10, x name, m at level 100, k at level 200) : io_scope.
Notation "m ';;' k" := (bind m (fun _ => k))
  (at level 100, k at level 200, right associativity) : io_scope.
Open Scope io_scope.

Definition ask : IO Env := fun e w => (Ok e, w).

(** [new Error(msg)]: the runtime supplies the stack. *)
Definition new_Error (msg : string) : IO Thrown :=
  fun e w => (Ok (ErrorObj msg (stack_of e msg)), w).

Definition throw_new_Error {A} (msg : string) : IO A :=
  let! t := new_Error msg in throw t.

Definition emit (ev : Event) (w : World) : World :=
  {| rounds := rounds w; files := files w; body_used := body_used w;
     clock := clock w; trace := trace w ++ [ev] |}.

Definition tick (w : World) : World :=
  {| rounds := rounds w; files := files w; body_used := body_used w;
     clock := S (clock w); trace := trace w |}.

Definition log_with (lvl : Level) (msg : string) (fields : list (string * string))
    : IO unit :=
  fun _ w => (Ok tt, emit (EvLog lvl msg fields) w).

Definition log (lvl : Level) (msg : string) : IO unit := log_with lvl msg [].

(** A storage or network operation: it is recorded, it consumes one position
    of the fault schedule, and it runs only when no fault is scheduled. *)
Definition io {A} (ev : Event) (act : IO A) : IO A :=
  fun e w =>
    let w' := tick (emit ev w) in
    match fault e (clock w) with
    | Some t => (Throw t, w')
    | None => act e w'
    end.

(** ** JavaScript truthiness on strings *)

Definition truthy (o : option string) : bool :=
  match o with
  | Some s => negb (String.eqb s "")
  | None => false
  end.

(** [o || d] for a possibly missing string [o]. *)
Definition js_or (o : option string) (d : string) : string :=
  match o with
  | Some s => if String.eqb s "" then d else s
  | None => d
  end.

(** ** Paths *)

Definition is_slash (c : ascii) : bool := Ascii.eqb c "/"%char.

(** Collapses each run of slashes into one. *)
Fixpoint squeeze (after_slash : bool) (s : string) : string :=
  match s with
  | EmptyString => EmptyString
  | String c r =>
      if is_slash c
      then (if after_slash then squeeze true r else String c (squeeze true r))
      else String c (squeeze false r)
  end.

Fixpoint join_with (sep : string) (parts : list string) : string :=
  match parts with
  | [] => ""
  | [p] => p
  | p :: rest => p ++ sep ++ join_with sep rest
  end.

(** [path.join]: the segments joined by the separator, then normalised.  Of
    the normalisation only the collapsing of repeated separators is modelled
    (dot segments are not resolved). *)
Definition path_join (parts : list string) : string :=
  squeeze false (join_with "/" parts).

Fixpoint after_last (c : ascii) (acc : option string) (s : string) : option string :=
  match s with
  | EmptyString => acc
  | String d r => if Ascii.eqb d c then after_last c (Some r) r else after_last c acc r
  end.

(** [path.basename] *)
Definition basename (p : string) : string := default p (after_last "/"%char None p).

(** [path.extname(p).slice(1)]: what follows the last dot of the base name;
    a dot that starts the base name does not count. *)
Definition extname_slice1 (p : string) : string :=
  match basename p with
  | EmptyString => ""
  | String _ rest => default "" (after_last "."%char None rest)
  end.

(** ** Storage primitives *)

Definition set_files (f : gmap string FileData) (w : World) : World :=
  {| rounds := rounds w; files := f; body_used := body_used w;
     clock := clock w; trace := trace w |}.

Definition set_rounds (r : gmap string Round) (w : World) : World :=
  {| rounds := r; files := files w; body_used := body_used w;
     clock := clock w; trace := trace w |}.

Definition set_body_used (b : bool) (w : World) : World :=
  {| rounds := rounds w; files := files w; body_used := b;
     clock := clock w; trace := trace w |}.

(** [fs.access(path)] with the default mode: resolves exactly when the path
    is visible; it is a query on the file system and changes nothing. *)
Definition fs_access (path : string) : IO unit :=
  fun e w =>
    match files w !! path with
    | Some _ => (Ok tt, w)
    | None =>
        let msg := "ENOENT: no such file or directory, access '" ++ path ++ "'" in
        (Throw (ErrorObj msg (stack_of e msg)), w)
    end.

(** [fs.mkdir(path, { recursive: true })]: directories are not part of the
    modelled file system, so only the attempt and its possible fault remain. *)
Definition fs_mkdir (path : string) : IO unit :=
  io (EvMkdir path) (ret tt).

(** The bytes of a file: those written, or the text of the value serialised
    into it. *)
Definition file_bytes (e : Env) (d : FileData) : Buffer :=
  match d with
  | Bytes b => b
  | _ => json_text e d
  end.

(** [fs.writeFile(path, data)] with the default flag 'w': the file is opened,
    which creates it or truncates it, and the text is then written.  The
    write is not atomic.  A write that fails before the file is opened leaves
    the file untouched; one that fails afterwards leaves in the file the part
    of the text written so far, in place of what the file held. *)
Definition fs_writeFile (path : string) (d : FileData) : IO unit :=
  fun e w =>
    let w' := tick (emit (EvWriteFile path d) w) in
    match fault e (clock w) with
    | Some t =>
        match torn e (clock w) with
        | Some k =>
            (Throw t,
             set_files (<[path := Bytes (take k (file_bytes e d))]> (files w')) w')
        | None => (Throw t, w')
        end
    | None => (Ok tt, set_files (<[path := d]> (files w')) w')
    end.

Definition fs_readFile (path : string) : IO Buffer :=
  io (EvReadFile path)
     (fun e w =>
        match files w !! path with
        | Some d => (Ok (file_bytes e d), w)
        | None =>
            let msg := "ENOENT: no such file or directory, open '" ++ path ++ "'" in
            (Throw (ErrorObj msg (stack_of e msg)), w)
        end).

(** Modelled from the spec: [getRound] of lib/storage/rounds.ts, the
    persistence collaborator's [readRound(id) -> Round | absent]. *)
Definition getRound (roundId : string) : IO (option Round) :=
  io (EvGetRound roundId) (fun _ w => (Ok (rounds w !! roundId), w)).

(** Modelled from the spec: [updateRound] of lib/storage/rounds.ts, the
    persistence collaborator's [writeRound(id, patch) -> Round]: the keys of
    the patch overwrite the stored round, which is returned.  For an id with
    no stored round there is no round to return and the call fails. *)
Definition updateRound (roundId : string) (p : RoundPatch) : IO Round :=
  io (EvUpdateRound roundId p)
     (fun e w =>
        match rounds w !! roundId with
        | Some r =>
            let r' := apply_patch p r in
            (Ok r', set_rounds (<[roundId := r']> (rounds w)) w)
        | None =>
            let msg := "Round not found: " ++ roundId in
            (Throw (ErrorObj msg (stack_of e msg)), w)
        end).

(** ** src/lib/storage/files.ts *)

Definition DATA_DIR (e : Env) : string := path_join [cwd e; "data"].
Definition TRANSCRIPTIONS_DIR (e : Env) : string := path_join [DATA_DIR e; "transcriptions"].
Definition AUDIO_DIR (e : Env) : string := path_join [cwd e; "public"; "audio"].

(** [path.join(AUDIO_DIR, `${roundId}.${ext}`)] *)
Definition audio_file_path (e : Env) (roundId ext : string) : string :=
  path_join [AUDIO_DIR e; roundId ++ "." ++ ext].

Definition ensureDirectories : IO unit :=
  let! e := ask in
  fs_mkdir (DATA_DIR e);;
  fs_mkdir (TRANSCRIPTIONS_DIR e);;
  fs_mkdir (AUDIO_DIR e).

(** [path.join(TRANSCRIPTIONS_DIR, `${roundId}_raw.json`)] *)
Definition raw_path (e : Env) (roundId : string) : string :=
  path_join [TRANSCRIPTIONS_DIR e; roundId ++ "_raw.json"].

(** [path.join(TRANSCRIPTIONS_DIR, `${roundId}_deliberation.json`)] *)
Definition deliberation_path (e : Env) (roundId : string) : string :=
  path_join [TRANSCRIPTIONS_DIR e; roundId ++ "_deliberation.json"].

Definition saveTranscription (roundId : string) (rawResponse : RawTranscript)
    (deliberationData : DeliberationOntology) : IO (string * string) :=
  log Info "Saving transcription files";;
  try_catch
    (ensureDirectories;;
     let! e := ask in
     let rawPath := raw_path e roundId in
     let deliberationPath := deliberation_path e roundId in
     fs_writeFile rawPath (RawJson rawResponse);;
     fs_writeFile deliberationPath (OntologyJson deliberationData);;
     log Info "Transcription files saved successfully";;
     ret (rawPath, deliberationPath))
    (fun error =>
       log Error_ "Failed to save transcription files";;
       throw error).

Definition saveAudioFile (roundId : string) (buffer : Buffer) (extension : string)
    : IO string :=
  log Info "Saving audio file";;
  try_catch
    (ensureDirectories;;
     let! e := ask in
     let filename := roundId ++ "." ++ extension in
     let filePath := audio_file_path e roundId extension in
     fs_writeFile filePath (Bytes buffer);;
     log Info "Audio file saved successfully";;
     ret ("/audio/" ++ filename))
    (fun error =>
       log Error_ "Failed to save audio file";;
       throw error).

Definition extensions : list string := ["webm"; "mp3"; "wav"; "ogg"].

(** The [for (const ext of extensions)] loop of [audioFileExists]: a failed
    [fs.access] is caught and the loop continues with the next extension. *)
Fixpoint audioFileExists_from (roundId : string) (exts : list string)
    : IO (option string) :=
  match exts with
  | [] => ret None
  | ext :: rest =>
      try_catch
        (let! e := ask in
         let filePath := audio_file_path e roundId ext in
         fs_access filePath;;
         ret (Some ("/audio/" ++ roundId ++ "." ++ ext)))
        (fun _ => audioFileExists_from roundId rest)
  end.

Definition audioFileExists (roundId : string) : IO (option string) :=
  audioFileExists_from roundId extensions.

(** ** The ontology builder *)

Definition Qmax (a b : Q) : Q := if Qle_bool a b then b else a.

Definition max_step (acc : Q) (v : Utterance) : Q := Qmax acc (u_end v).

(** [max(utterance.end)], and 0 when there is no utterance. *)
Definition max_end (us : list Utterance) : Q :=
  match us with
  | [] => 0%Q
  | u :: rest => foldl max_step (u_end u) rest
  end.

Fixpoint insert_by_start (u : Utterance) (l : list Utterance) : list Utterance :=
  match l with
  | [] => [u]
  | v :: rest =>
      if Qle_bool (u_start u) (u_start v) then u :: v :: rest
      else v :: insert_by_start u rest
  end.

Definition sort_by_start (l : list Utterance) : list Utterance :=
  foldr insert_by_start [] l.

(** One utterance added to its speaker's aggregate: its own duration is added
    to the speaker's total (overlaps with other speakers are kept) and its
    index is appended. *)
Definition add_utterance (i : nat) (u : Utterance) (m : gmap string SpeakerAgg)
    : gmap string SpeakerAgg :=
  let d := (u_end u - u_start u)%Q in
  match m !! u_speaker u with
  | Some a => <[u_speaker u := mkAgg (total_time a + d)%Q (utterance_indices a ++ [i])]> m
  | None => <[u_speaker u := mkAgg d [i]]> m
  end.

Fixpoint collect_speakers (i : nat) (us : list Utterance) (m : gmap string SpeakerAgg)
    : gmap string SpeakerAgg :=
  match us with
  | [] => m
  | u :: rest => collect_speakers (S i) rest (add_utterance i u m)
  end.

(** Modelled from the spec: the pure [build(rawTranscript, filename, language)]
    of section 4.5, absent from the sources.  It fails ([None], the spec's
    MalformedInputError) when the results container is missing, takes the
    utterance-level segments or else the paragraph-level ones, orders them by
    start time, aggregates per speaker label, and derives the statistics from
    the utterance sequence. *)
Definition build (raw : RawTranscript) (filename : string) (lang : option string)
    : option DeliberationOntology :=
  match raw_results raw with
  | None => None
  | Some rs =>
      let segments := default (rs_paragraphs rs) (rs_utterances rs) in
      let us := sort_by_start segments in
      let sp := collect_speakers 0 us ∅ in
      Some {| metadata := mkMeta filename lang;
              speakers := sp;
              utterances := us;
              statistics := {| total_speakers := size sp;
                               duration_seconds := max_end us |} |}
  end.

(** Modelled from the spec: [createDeliberationOntology] as the routes call
    it, [build] with its failure thrown as an [Error]. *)
Definition createDeliberationOntology (raw : RawTranscript) (filename : string)
    (lang : option string) : IO DeliberationOntology :=
  match build raw filename lang with
  | Some o => ret o
  | None => throw_new_Error "MalformedInputError: transcript has no results container"
  end.

(** ** HTTP responses *)

Inductive Body :=
| ErrorBody (err : string) (details : option string)
| SuccessBody (success : bool) (roundId : string)
    (deliberation : DeliberationOntology) (message : string).

Record Response := mkResponse {
  body : Body;
  http_status : nat
}.

(** [NextResponse.json(body, { status })] *)
Definition json (b : Body) (st : nat) : Response := mkResponse b st.

(** The response object built in both [catch] blocks:
    [error instanceof Error ? error.message : 'Transcription failed'] and
    [error instanceof Error ? error.stack : undefined]. *)
Definition error_response (error : Thrown) : Response :=
  match error with
  | ErrorObj message stack => json (ErrorBody message (Some stack)) 500
  | NonError _ => json (ErrorBody "Transcription failed" None) 500
  end.

(** ** The provider call *)

Definition deepgram_options (lang : string) : TranscribeOptions :=
  {| model := "nova-2"; language := lang; diarize := true; punctuate := true;
     paragraphs := true; opt_utterances := true; smart_format := true |}.

Definition transcribeFile (buffer : Buffer) (opts : TranscribeOptions)
    : IO ProviderReply :=
  io (EvTranscribe buffer opts) (fun e w => (Ok (provider e buffer opts), w)).

(** [maxDuration], the route segment option both route files export. *)
Definition maxDuration : nat := 300.

(** ** src/app/api/rounds/[roundId]/transcribe/route.ts *)

Definition mime_type (extension : string) : string :=
  if String.eqb extension "webm" then "audio/webm" else "audio/" ++ extension.

Definition completed_patch_round (roundId audioPath : string)
    (d : DeliberationOntology) : RoundPatch :=
  {| p_status := Some COMPLETED;
     p_audio_file := Some audioPath;
     p_transcription_file := Some (roundId ++ "_deliberation.json");
     p_duration_seconds := Some (duration_seconds (statistics d));
     p_speaker_count := Some (total_speakers (statistics d)) |}.

Definition success_response (roundId : string) (d : DeliberationOntology) : Response :=
  json (SuccessBody true roundId d "Transcription completed successfully") 200.

(** Lines 100-160: from the provider's answer to the success response. *)
Definition round_finish (roundId language audioPath : string) (reply : ProviderReply)
    : IO Response :=
  match error reply with
  | Some err =>
      log Error_ "Deepgram API error";;
      throw_new_Error ("Deepgram API error: " ++ js_or (pe_message err) (pe_repr err))
  | None =>
      match result reply with
      | None =>
          log Error_ "Deepgram returned null result with no error";;
          throw_new_Error "Deepgram API returned null result"
      | Some responseDict =>
          log Debug "Raw result from Deepgram";;
          log Info "Deepgram transcription completed";;
          match raw_results responseDict with
          | None =>
              log Error_ "Invalid Deepgram response";;
              throw_new_Error "Invalid response from Deepgram API"
          | Some _ =>
              let filename := basename audioPath in
              let! deliberationData :=
                createDeliberationOntology responseDict filename (Some language) in
              saveTranscription roundId responseDict deliberationData;;
              log Info "Transcription files saved successfully";;
              updateRound roundId (completed_patch_round roundId audioPath deliberationData);;
              ret (success_response roundId deliberationData)
          end
      end
  end.

(** Lines 61-160: everything from the PROCESSING write to the success response. *)
Definition round_orchestrate (roundId : string) (round : Round) (audioPath : string)
    : IO Response :=
  updateRound roundId (status_patch PROCESSING);;
  let language := js_or (r_language round) "en" in
  let! e := ask in
  let fullPath := path_join [cwd e; "public"; audioPath] in
  let! buffer := fs_readFile fullPath in
  let extension := extname_slice1 audioPath in
  let mimeType := mime_type extension in
  log_with Info "Starting Deepgram transcription"
    [("mimeType", mimeType); ("extension", extension); ("language", language)];;
  if negb (truthy (api_key e))
  then throw_new_Error "DEEPGRAM_API_KEY not configured in environment variables"
  else
    let! reply := transcribeFile buffer (deepgram_options language) in
    round_finish roundId language audioPath reply.

(** Lines 49-160: the [try] block once the round has been found.  The path
    that [audioFileExists] answers is never the empty string, so [!audioPath]
    holds exactly for null. *)
Definition round_found (roundId : string) (round : Round) : IO Response :=
  let! audioPath := audioFileExists roundId in
  match audioPath with
  | None =>
      log Warn "Audio file not found for round";;
      ret (json (ErrorBody "Audio file not found. Recording may not have completed yet." None) 404)
  | Some audioPath =>
      log_with Info "Found audio file" [("audioPath", audioPath)];;
      round_orchestrate roundId round audioPath
  end.

(** The [try] block. *)
Definition round_try (roundId : string) : IO Response :=
  let! round := getRound roundId in
  match round with
  | None =>
      log Warn "Round not found";;
      ret (json (ErrorBody "Round not found" None) 404)
  | Some round => round_found roundId round
  end.

(** The [catch] block. *)
Definition round_catch (roundId : string) (error : Thrown) : IO Response :=
  log Error_ "Transcription error occurred";;
  try_catch
    (updateRound roundId (status_patch ERROR);;
     log Info "Updated round status to ERROR")
    (fun updateError => log Warn "Failed to update round status");;
  ret (error_response error).

Definition POST_round (roundId : string) : IO Response :=
  try_catch (round_try roundId) (round_catch roundId).

(** ** src/app/api/transcribe/route.ts *)

Record File := mkFile {
  f_name : string;
  f_type : string;
  f_content : Buffer
}.

(** The three form fields the handler reads; [None] is what
    [formData.get] answers for a missing key. *)
Record FormData := mkForm {
  fd_audio : option File;
  fd_roundId : option string;
  fd_filename : option string
}.

(** The incoming request.  [req_form = None] stands for a body that does not
    parse as form data.  Whether the body stream has been read is state and
    lives in the world ([body_used]). *)
Record Request := mkRequest {
  req_form : option FormData
}.

Definition parse_form (request : Request) : IO FormData :=
  match req_form request with
  | Some f => ret f
  | None => throw_new_Error "Failed to parse body as FormData."
  end.

(** [request.formData()]: a body can be read once (Fetch standard, "consume
    body": a disturbed body is unusable and the call rejects with a
    TypeError); reading disturbs it. *)
Definition request_formData (request : Request) : IO FormData :=
  fun e w =>
    if body_used w
    then throw_new_Error "Body is unusable: Body has already been read" e w
    else parse_form request e (set_body_used true w).

(** [request.clone().formData()]: [clone()] throws a TypeError when the body
    of the request has already been read (Fetch standard, Request.clone(),
    step 1); otherwise the clone has a body of its own to read. *)
Definition request_clone_formData (request : Request) : IO FormData :=
  fun e w =>
    if body_used w
    then throw_new_Error "Request.clone: Body has already been consumed." e w
    else parse_form request e w.

Definition completed_patch_generic (roundId : string) (d : DeliberationOntology)
    : RoundPatch :=
  {| p_status := Some COMPLETED;
     p_audio_file := None;
     p_transcription_file := Some (roundId ++ "_deliberation.json");
     p_duration_seconds := Some (duration_seconds (statistics d));
     p_speaker_count := Some (total_speakers (statistics d)) |}.

(** Lines 86-154: from the provider's answer to the success response. *)
Definition generic_finish (roundId filename : string) (reply : ProviderReply)
    : IO Response :=
  match error reply with
  | Some err =>
      log Error_ "Deepgram API error";;
      throw_new_Error ("Deepgram API error: " ++ js_or (pe_message err) (pe_repr err))
  | None =>
      match result reply with
      | None =>
          log Error_ "Deepgram returned null result with no error";;
          throw_new_Error "Deepgram API returned null result"
      | Some responseDict =>
          log Debug "Raw result from Deepgram";;
          log Info "Deepgram transcription completed";;
          log Debug "Deepgram response after serialization";;
          match raw_results responseDict with
          | None =>
              log Error_ "Invalid Deepgram response";;
              throw_new_Error "Invalid response from Deepgram API"
          | Some _ =>
              let! deliberationData :=
                createDeliberationOntology responseDict filename None in
              saveTranscription roundId responseDict deliberationData;;
              log Info "Transcription files saved successfully";;
              updateRound roundId (completed_patch_generic roundId deliberationData);;
              ret (success_response roundId deliberationData)
          end
      end
  end.

(** Lines 50-154: everything from the PROCESSING write to the success response. *)
Definition generic_orchestrate (roundId : string) (audioFile : File) (filename : string)
    : IO Response :=
  updateRound roundId (status_patch PROCESSING);;
  let! e := ask in
  if negb (truthy (api_key e))
  then throw_new_Error "DEEPGRAM_API_KEY not configured in environment variables"
  else
    let buffer := f_content audioFile in
    log_with Info "Starting Deepgram transcription"
      [("filename", filename); ("mimeType", f_type audioFile)];;
    let! reply := transcribeFile buffer (deepgram_options "en") in
    generic_finish roundId filename reply.

(** Lines 27-154: the [try] block once the form has been read. *)
Definition generic_with_form (formData : FormData) : IO Response :=
  let audioFile := fd_audio formData in
  let roundId := fd_roundId formData in
  let filename :=
    js_or (fd_filename formData) (js_or (f_name <$> audioFile) "audio") in
  match audioFile with
  | None =>
      log Warn "No audio file provided in request";;
      ret (json (ErrorBody "No audio file provided" None) 400)
  | Some audioFile =>
      if negb (truthy roundId)
      then
        log Warn "No round ID provided in request";;
        ret (json (ErrorBody "Round ID is required" None) 400)
      else generic_orchestrate (default "" roundId) audioFile filename
  end.

(** The [try] block. *)
Definition generic_try (request : Request) : IO Response :=
  let! formData := request_formData request in
  generic_with_form formData.

(** The round id the form names, as the handler reads it. *)
Definition form_roundId (request : Request) : string :=
  default "" (req_form request ≫= fd_roundId).

(** The [catch] block: the round id is read again from the request. *)
Definition generic_catch (request : Request) (error : Thrown) : IO Response :=
  log Error_ "Transcription error occurred";;
  try_catch
    (let! formData := request_clone_formData request in
     let roundId := fd_roundId formData in
     if truthy roundId
     then
       updateRound (default "" roundId) (status_patch ERROR);;
       log Info "Updated round status to ERROR"
     else ret tt)
    (fun updateError => log Warn "Failed to update round status");;
  ret (error_response error).

Definition POST_generic (request : Request) : IO Response :=
  try_catch (generic_try request) (generic_catch request).

(** The first extension, in the order of [exts], whose file is present. *)
Definition first_present (e : Env) (fs : gmap string FileData) (roundId : string)
    (exts : list string) : option string :=
  match list_find (fun ext => is_Some (fs !! audio_file_path e roundId ext)) exts with
  | Some (_, ext) => Some ("/audio/" ++ roundId ++ "." ++ ext)
  | None => None
  end.

(** ** The rest of src/lib/storage/files.ts *)

(** [fs.unlink(path)]: removes the file, and fails when there is none.  It
    takes its place in the fault schedule like every storage operation; the
    trace, which lists the effects of the two routes, has no event for it. *)
Definition fs_unlink (path : string) : IO unit :=
  fun e w =>
    match fault e (clock w) with
    | Some t => (Throw t, tick w)
    | None =>
        match files w !! path with
        | Some _ => (Ok tt, set_files (delete path (files w)) (tick w))
        | None =>
            let msg := "ENOENT: no such file or directory, unlink '" ++ path ++ "'" in
            (Throw (ErrorObj msg (stack_of e msg)), tick w)
        end
    end.

Definition transcriptionExists (roundId : string) : IO bool :=
  let! e := ask in
  let filePath := deliberation_path e roundId in
  try_catch (fs_access filePath;; ret true) (fun _ => ret false).

Section json_parse.

(** [JSON.parse] on the text of a file: the value it denotes, or [None] when
    the text is not JSON (a SyntaxError). *)
Variable JSON_parse : Buffer -> option FileData.

(** The failure log carries the round id; the caught value it also carries
    is not recorded in the trace. *)
Definition loadDeliberationOntology (roundId : string) : IO FileData :=
  log_with Debug "Loading deliberation ontology" [("roundId", roundId)];;
  try_catch
    (let! e := ask in
     let filePath := deliberation_path e roundId in
     let! content := fs_readFile filePath in
     match JSON_parse content with
     | Some data =>
         log_with Info "Deliberation ontology loaded successfully" [("roundId", roundId)];;
         ret data
     | None => throw_new_Error "SyntaxError: Unexpected token in JSON"
     end)
    (fun error =>
       log_with Error_ "Failed to load deliberation ontology" [("roundId", roundId)];;
       throw error).

End json_parse.

(** The six paths [deleteRoundFiles] collects: the two transcript files, then
    one audio file per extension. *)
Definition filesToDelete (e : Env) (roundId : string) : list string :=
  ([ raw_path e roundId; deliberation_path e roundId ]
   ++ map (audio_file_path e roundId) extensions)%list.

(** The [for (const filePath of filesToDelete)] loop: a failed [unlink] is
    caught and the base name goes to [failedFiles] instead of
    [deletedFiles]. *)
Fixpoint unlink_each (paths deletedFiles failedFiles : list string)
    : IO (list string * list string) :=
  match paths with
  | [] => ret (deletedFiles, failedFiles)
  | filePath :: rest =>
      let! removed := try_catch (fs_unlink filePath;; ret true) (fun _ => ret false) in
      if removed
      then unlink_each rest (deletedFiles ++ [basename filePath]) failedFiles
      else unlink_each rest deletedFiles (failedFiles ++ [basename filePath])
  end.

(** The array [deletedFiles] is logged as its elements joined by commas. *)
Definition deleteRoundFiles (roundId : string) : IO unit :=
  log_with Info "Deleting round files" [("roundId", roundId)];;
  let! e := ask in
  let! lists := unlink_each (filesToDelete e roundId) [] [] in
  log_with Info "Round files deletion completed"
    [ ("roundId", roundId);
      ("deletedCount", pretty (length (fst lists)));
      ("failedCount", pretty (length (snd lists)));
      ("deletedFiles", join_with "," (fst lists)) ].

(** ** src/app/rounds/[roundId]/page.tsx *)

Definition getStatusVariant (status : RoundStatus) : string :=
  match status with
  | COMPLETED => "default"
  | PROCESSING => "secondary"
  | RECORDING => "default"
  | ERROR => "destructive"
  | _ => "secondary"
  end.

Definition getStatusLabel (status : RoundStatus) : string :=
  match status with
  | COMPLETED => "Completed"
  | PROCESSING => "Processing"
  | RECORDING => "Recording"
  | ERROR => "Error"
  | CREATED => "Created"
  end.

(** The condition under which [fetchRoundData] goes on to fetch the
    transcription (line 34). *)
Definition fetches_transcription (round : Round) : bool :=
  bool_decide (r_status round = COMPLETED) && truthy (r_transcription_file round).

Inductive Panel :=
| ProcessingNotice | ErrorNotice | CreatedNotice
| TranscriptionDisplay | TranscriptionMissing.

(** The conditional blocks of lines 191-231, in order; [transcription] says
    whether the page holds a transcription. *)
Definition status_panels (status : RoundStatus) (transcription : bool) : list Panel :=
  ((if bool_decide (status = PROCESSING) then [ProcessingNotice] else [])
   ++ (if bool_decide (status = ERROR) then [ErrorNotice] else [])
   ++ (if bool_decide (status = CREATED) then [CreatedNotice] else [])
   ++ (if bool_decide (status = COMPLETED) && transcription
       then [TranscriptionDisplay] else [])
   ++ (if bool_decide (status = COMPLETED) && negb transcription
       then [TranscriptionMissing] else []))%list.

(** ** The audio recorder component (src/unnamed/part_001) *)

Fixpoint repeat_char (n : nat) (c : ascii) : string :=
  match n with
  | O => EmptyString
  | S n' => String c (repeat_char n' c)
  end.

(** [s.padStart(targetLength, c)] for a one-character pad string. *)
Definition padStart (targetLength : nat) (c : ascii) (s : string) : string :=
  repeat_char (targetLength - String.length s) c ++ s.

(** [formatDuration] on a whole, non-negative number of seconds, which is
    what the timer stores ([Math.floor] of the elapsed time). *)
Definition formatDuration (seconds : N) : string :=
  let hrs := (seconds / 3600)%N in
  let mins := ((seconds mod 3600) / 60)%N in
  let secs := (seconds mod 60)%N in
  if (0 <? hrs)%N
  then padStart 2 "0" (pretty hrs) ++ ":" ++ padStart 2 "0" (pretty mins)
       ++ ":" ++ padStart 2 "0" (pretty secs)
  else padStart 2 "0" (pretty mins) ++ ":" ++ padStart 2 "0" (pretty secs).

(** [mediaRecorder.ondataavailable]: a chunk with data is pushed to
    [chunksRef.current], an empty one is dropped. *)
Definition ondataavailable (data : Buffer) (chunks : list Buffer) : list Buffer :=
  if Nat.ltb 0 (length data) then (chunks ++ [data])%list else chunks.

(** The chunks held when the recorder stops: [startRecording] empties
    [chunksRef.current], then every event goes through [ondataavailable]. *)
Definition recorded_chunks (events : list Buffer) : list Buffer :=
  foldl (fun chunks data => ondataavailable data chunks) [] events.

(** [new Blob(chunksRef.current, { type: mimeType })] in [onstop]: the parts
    one after the other. *)
Definition Blob (parts : list Buffer) : Buffer := concat parts.

(** ** Reading traces *)

Definition is_update_to (s : RoundStatus) (ev : Event) : bool :=
  match ev with
  | EvUpdateRound _ p => bool_decide (p_status p = Some s)
  | _ => false
  end.

Definition is_write (ev : Event) : bool :=
  match ev with
  | EvWriteFile _ _ => true
  | _ => false
  end.

Definition is_transcribe (ev : Event) : bool :=
  match ev with
  | EvTranscribe _ _ => true
  | _ => false
  end.

Definition count_events (P : Event -> bool) (t : list Event) : nat :=
  length (filter (fun ev => P ev = true) t).

Definition status_of (w : World) (roundId : string) : option RoundStatus :=
  r_status <$> rounds w !! roundId.

(** [obeys Ev Q m]: whatever the environment and the world, a run of [m]
    only appends events that satisfy [Ev] to the trace, never makes a read
    request body unread, and a value it returns satisfies [Q]. *)
Definition obeys {A} (Ev : Event -> Prop) (Q : A -> Prop) (m : IO A) : Prop :=
  forall e w r w',
    m e w = (r, w') ->
    (exists evs, trace w' = (trace w ++ evs)%list /\ Forall Ev evs) /\
    (body_used w = true -> body_used w' = true) /\
    (forall a, r = Ok a -> Q a).

(** What a route may do on behalf of round [roundId] before its [catch]
    block: status writes to PROCESSING and COMPLETED only, and provider calls
    with the fixed feature set and the language [lang] only. *)
Definition allowed (roundId lang : string) (ev : Event) : Prop :=
  match ev with
  | EvUpdateRound i p =>
      i = roundId /\ (p_status p = Some PROCESSING \/ p_status p = Some COMPLETED)
  | EvTranscribe _ o => o = deepgram_options lang
  | EvGetRound i => i = roundId
  | _ => True
  end.

(** A response without diagnostic detail: the success body, or an error body
    that carries a message only. *)
Definition plain_response (r : Response) : Prop :=
  match body r with
  | SuccessBody _ _ _ _ => http_status r = 200
  | ErrorBody _ details => details = None /\ (http_status r = 400 \/ http_status r = 404)
  end.

(** The events of [w'] that are not yet in [w]. *)
Definition new_events (w w' : World) : list Event :=
  drop (length (trace w)) (trace w').

(** An event of a run that persists nothing but a status: no file is
    written, and a write to the round store carries the status key only,
    with PROCESSING or ERROR. *)
Definition status_only (ev : Event) : Prop :=
  match ev with
  | EvUpdateRound _ p => p = status_patch PROCESSING \/ p = status_patch ERROR
  | EvWriteFile _ _ => False
  | _ => True
  end.

(** An event that neither writes a file nor writes the status COMPLETED. *)
Definition quiet (ev : Event) : Prop :=
  is_write ev = false /\ is_update_to COMPLETED ev = false.

(** [completes e roundId raw d patch evs]: in the events [evs], the raw
    response and the ontology [d] are written to their files, in this order,
    before the one status write to COMPLETED, which is the last event and
    whose [duration_seconds] and [speaker_count] are the statistics of [d]. *)
Definition completes (e : Env) (roundId : string) (raw : RawTranscript)
    (d : DeliberationOntology) (patch : RoundPatch) (evs : list Event) : Prop :=
  p_status patch = Some COMPLETED /\
  p_duration_seconds patch = Some (duration_seconds (statistics d)) /\
  p_speaker_count patch = Some (total_speakers (statistics d)) /\
  exists pre mid,
    evs = (pre
           ++ [ EvWriteFile (raw_path e roundId)
                  (RawJson raw);
                EvWriteFile (deliberation_path e roundId)
                  (OntologyJson d) ]
           ++ mid ++ [ EvUpdateRound roundId patch ])%list /\
    Forall quiet pre /\ Forall quiet mid.

(** The events of a run of [saveTranscription] in which nothing fails. *)
Definition save_events (e : Env) (roundId : string) (raw : RawTranscript)
    (d : DeliberationOntology) : list Event :=
  [ EvLog Info "Saving transcription files" [];
    EvMkdir (DATA_DIR e); EvMkdir (TRANSCRIPTIONS_DIR e); EvMkdir (AUDIO_DIR e);
    EvWriteFile (raw_path e roundId) (RawJson raw);
    EvWriteFile (deliberation_path e roundId)
      (OntologyJson d);
    EvLog Info "Transcription files saved successfully" [] ].

Arguments path_join : simpl never.
Arguments DATA_DIR : simpl never.
Arguments TRANSCRIPTIONS_DIR : simpl never.
Arguments AUDIO_DIR : simpl never.
Arguments audio_file_path : simpl never.
Arguments raw_path : simpl never.
Arguments deliberation_path : simpl never.
Arguments basename : simpl never.
Arguments extname_slice1 : simpl never.
Arguments mime_type : simpl never.
Arguments save_events : simpl never.

(** ** Sample worlds *)

Definition sample_round (s : RoundStatus) : Round :=
  {| r_name := "Budget debate"; r_description := ""; r_language := Some "it";
     r_status := s; r_audio_file := Some "/audio/r1.webm";
     r_transcription_file := None; r_duration_seconds := None;
     r_speaker_count := None |}.

Definition sample_audio : Buffer := [Byte.x52; Byte.x49; Byte.x46; Byte.x46].

Definition sample_utterances : list Utterance :=
  [ mkUtt "A" 0 5 "good morning" 1; mkUtt "B" 4 9 "hello" 1 ].

Definition sample_raw : RawTranscript :=
  mkRaw "req-1" (Some (mkResults (Some sample_utterances) [])).

Definition no_fault : nat -> option Thrown := fun _ => None.

Definition sample_env (reply : ProviderReply) (f : nat -> option Thrown) : Env :=
  {| cwd := "/app"; api_key := Some "key";
     provider := fun _ _ => reply;
     stack_of := fun msg => "Error: " ++ msg ++ " at POST (route.ts)";
     json_text := fun _ => [];
     fault := f;
     torn := fun _ => None |}.

Definition sample_world (s : RoundStatus) : World :=
  {| rounds := {[ "r1" := sample_round s ]};
     files := {[ "/app/public/audio/r1.webm" := Bytes sample_audio ]};
     body_used := false; clock := 0; trace := [] |}.

(** [runs e R Q m]: in the environment [e], a run of [m] takes a world to a
    world related to it by [R], and a value it returns satisfies [Q]. *)
Definition runs {A} (e : Env) (R : World -> World -> Prop) (Q : A -> Prop)
    (m : IO A) : Prop :=
  forall w r w', m e w = (r, w') -> R w w' /\ (forall a, r = Ok a -> Q a).

Definition not_transcribe (ev : Event) : Prop := is_transcribe ev = false.

(** [calls n w w']: from [w] to [w'] the trace has only grown, by at most
    [n] provider calls. *)
Definition calls (n : nat) (w w' : World) : Prop :=
  exists evs, trace w' = (trace w ++ evs)%list /\ count_events is_transcribe evs <= n.

(** [touches_only e roundId w w']: from [w] to [w'] no round other than
    [roundId] has changed, the round [roundId] has kept its name, description
    and language (and has been neither created nor removed), and no file
    other than the two transcript files of [roundId] has changed. *)
Definition touches_only (e : Env) (roundId : string) (w w' : World) : Prop :=
  (forall j, j ≠ roundId -> rounds w' !! j = rounds w !! j) /\
  r_name <$> rounds w' !! roundId = r_name <$> rounds w !! roundId /\
  r_description <$> rounds w' !! roundId = r_description <$> rounds w !! roundId /\
  r_language <$> rounds w' !! roundId = r_language <$> rounds w !! roundId /\
  (forall p, p ≠ raw_path e roundId -> p ≠ deliberation_path e roundId ->
             files w' !! p = files w !! p).

(** The number of provider calls the configuration allows a run: none
    without an API key. *)
Definition key_calls (e : Env) : nat := if truthy (api_key e) then 1 else 0.

(** Without an API key no run answers 200. *)
Definition needs_key (e : Env) (resp : Response) : Prop :=
  truthy (api_key e) = false -> http_status resp ≠ 200.

(** [same_store w w']: the rounds and the files are the same in both. *)
Definition same_store (w w' : World) : Prop :=
  rounds w' = rounds w /\ files w' = files w.

(** The same round with another status. *)
Definition with_status (s : RoundStatus) (r : Round) : Round :=
  {| r_name := r_name r; r_description := r_description r;
     r_language := r_language r; r_status := s;
     r_audio_file := r_audio_file r;
     r_transcription_file := r_transcription_file r;
     r_duration_seconds := r_duration_seconds r;
     r_speaker_count := r_speaker_count r |}.

(** Two runs agree when they answer the same and leave the same trace. *)
Definition agree {A} (x y : Res A * World) : Prop :=
  fst x = fst y /\ trace (snd x) = trace (snd y).

Definition empty_store_world : World :=
  {| rounds := ∅; files := ∅; body_used := false; clock := 0; trace := [] |}.

Definition no_audio_world : World :=
  {| rounds := {[ "r1" := sample_round RECORDING ]}; files := ∅;
     body_used := false; clock := 0; trace := [] |}.

(** The three events of the [catch] block of the round-specific route. *)
Definition round_catch_events (roundId : string) (lvl : Level) (msg : string)
    : list Event :=
  [ EvLog Error_ "Transcription error occurred" [];
    EvUpdateRound roundId (status_patch ERROR);
    EvLog lvl msg [] ].

(** The two events of the [catch] block of the generic route when the
    request body has been read. *)
Definition generic_catch_events : list Event :=
  [ EvLog Error_ "Transcription error occurred" [];
    EvLog Warn "Failed to update round status" [] ].

Definition sample_file : File :=
  {| f_name := "talk.webm"; f_type := "audio/webm"; f_content := sample_audio |}.

Definition sample_request : Request :=
  {| req_form := Some {| fd_audio := Some sample_file; fd_roundId := Some "r1";
                         fd_filename := None |} |}.

(** The provider refuses the call. *)
Definition refusing_env : Env :=
  sample_env (mkReply None (Some (mkPErr (Some "Unauthorized") "[object Object]")))
    no_fault.

(** The provider refuses the call, and the fifth storage or network operation
    of the run fails: in the round-specific route that is the ERROR write
    (after the read of the round, the PROCESSING write, the read of the
    file and the provider call). *)
Definition refusing_env_store_down : Env :=
  sample_env (mkReply None (Some (mkPErr (Some "Unauthorized") "[object Object]")))
    (fun n => if Nat.eqb n 4 then Some (ErrorObj "EIO: i/o error" "") else None).

(** No character of [s] is a slash. *)
Fixpoint slash_free (s : string) : bool :=
  match s with
  | EmptyString => true
  | String c r => negb (is_slash c) && slash_free r
  end.

(** An environment without an API key. *)
Definition keyless_env : Env :=
  {| cwd := "/app"; api_key := None;
     provider := fun _ _ => mkReply (Some sample_raw) None;
     stack_of := fun msg => "Error: " ++ msg ++ " at POST (route.ts)";
     json_text := fun _ => [];
     fault := no_fault;
     torn := fun _ => None |}.

(** The storage fails at its [k]-th operation and at no other. *)
Definition fault_at (k : nat) : nat -> option Thrown :=
  fun n => if Nat.eqb n k then Some (ErrorObj "ENOSPC: no space left on device" "") else None.

(** The disk fills up during the [n]-th storage operation of the run: when
    that operation is a write, the file has been opened and [k] bytes have
    been written.  Every JSON text is the four bytes of [sample_audio]. *)
Definition torn_env (n k : nat) : Env :=
  {| cwd := "/app"; api_key := Some "key";
     provider := fun _ _ => mkReply (Some sample_raw) None;
     stack_of := fun msg => "Error: " ++ msg ++ " at POST (route.ts)";
     json_text := fun _ => sample_audio;
     fault := fault_at n;
     torn := fun m => if Nat.eqb m n then Some k else None |}.

Definition sample_ontology : DeliberationOntology :=
  default (mkOntology (mkMeta "" None) ∅ [] (mkStats 0 0))
          (build sample_raw "r1.webm" (Some "it")).

(** A parser that reads every text as the sample ontology; it inverts the
    serialisation of [good_env] on that ontology. *)
Definition sample_parse : Buffer -> option FileData :=
  fun _ => Some (OntologyJson sample_ontology).

(** The response of a run, with a placeholder when the run throws. *)
Definition response_of (r : Res Response * World) : Response :=
  match fst r with
  | Ok resp => resp
  | Throw _ => json (ErrorBody "uncaught" None) 0
  end.

Definition no_results_env : Env :=
  sample_env (mkReply (Some (mkRaw "req-2" None)) None) no_fault.

Definition good_env : Env := sample_env (mkReply (Some sample_raw) None) no_fault.

(** * Properties *)

(** ** The model on small inputs *)

Example path_join_public :
  path_join ["/app"; "public"; "/audio/r1.webm"] = "/app/public/audio/r1.webm".
Proof. reflexivity. Qed.

Example audio_file_path_sample :
  audio_file_path good_env "r1" "webm" = "/app/public/audio/r1.webm".
Proof. reflexivity. Qed.

Example basename_sample : basename "/audio/r1.webm" = "r1.webm".
Proof. reflexivity. Qed.

Example extname_sample :
  extname_slice1 "/audio/r1.webm" = "webm" /\ extname_slice1 "/audio/.webm" = "".
Proof. split; reflexivity. Qed.

Example mime_type_sample :
  mime_type "webm" = "audio/webm" /\ mime_type "ogg" = "audio/ogg".
Proof. split; reflexivity. Qed.

(** The two overlapping utterances of speakers A and B: two speakers, nine
    seconds, and five seconds of speech for each (the overlap is kept). *)
Example build_overlap :
  exists o,
    build sample_raw "r1.webm" (Some "en") = Some o /\
    total_speakers (statistics o) = 2 /\
    duration_seconds (statistics o) = 9%Q /\
    total_time <$> speakers o !! "A" = Some 5%Q /\
    total_time <$> speakers o !! "B" = Some 5%Q.
Proof. eexists. split; [reflexivity|]. vm_compute. auto. Qed.

Example audioFileExists_prefers_webm :
  let w := set_files (<["/app/public/audio/r1.ogg" := Bytes []]>
                        (files (sample_world CREATED))) (sample_world CREATED) in
  fst (audioFileExists "r1" good_env w) = Ok (Some "/audio/r1.webm").
Proof. vm_compute. reflexivity. Qed.

(** ** The monad *)

Lemma bind_Ok {A B} (m : IO A) (k : A -> IO B) e w b w' :
  bind m k e w = (Ok b, w') ->
  exists a w1, m e w = (Ok a, w1) /\ k a e w1 = (Ok b, w').
Proof.
  unfold bind. destruct (m e w) as [[a|t] w1]; intros H; [eauto | discriminate].
Qed.

Lemma try_catch_inv {A} (m : IO A) (h : Thrown -> IO A) e w r w' :
  try_catch m h e w = (r, w') ->
  (exists a, m e w = (Ok a, w') /\ r = Ok a) \/
  (exists t w1, m e w = (Throw t, w1) /\ h t e w1 = (r, w')).
Proof.
  unfold try_catch. destruct (m e w) as [[a|t] w1]; intros H.
  - left. exists a. split; congruence.
  - right. eauto.
Qed.

Lemma io_inv {A} (ev : Event) (act : IO A) e w r w' :
  io ev act e w = (r, w') ->
  (exists t, fault e (clock w) = Some t /\ r = Throw t /\ w' = tick (emit ev w)) \/
  (fault e (clock w) = None /\ act e (tick (emit ev w)) = (r, w')).
Proof.
  unfold io. destruct (fault e (clock w)) as [t|]; intros H.
  - left. exists t. split; [done|]. split; congruence.
  - right. done.
Qed.

(** ** Storage helpers: [saveAudioFile] and [audioFileExists] *)

Lemma audioFileExists_from_spec roundId exts e w :
  audioFileExists_from roundId exts e w
  = (Ok (first_present e (files w) roundId exts), w).
Proof.
  induction exts as [|ext rest IH]; [done|].
  unfold first_present in *. cbn [audioFileExists_from list_find].
  unfold try_catch, bind, ask, fs_access, ret.
  destruct (files w !! audio_file_path e roundId ext) as [d|] eqn:Hf.
  - rewrite decide_True by eauto. done.
  - rewrite decide_False by (intros [? ?]; congruence).
    rewrite IH. by destruct (list_find _ rest) as [[? ?]|].
Qed.

Lemma saveAudioFile_Ok roundId buffer ext e w p w1 :
  saveAudioFile roundId buffer ext e w = (Ok p, w1) ->
  p = "/audio/" ++ roundId ++ "." ++ ext /\
  files w1 = <[audio_file_path e roundId ext := Bytes buffer]> (files w) /\
  rounds w1 = rounds w.
Proof.
  intros Hrun.
  unfold saveAudioFile, ensureDirectories, fs_mkdir, fs_writeFile in Hrun.
  unfold bind, try_catch, log, log_with, ask, ret, throw, io in Hrun.
  cbn in Hrun.
  repeat case_match; simplify_eq; done.
Qed.



(** ** The ontology builder: statistics are derived from the utterances *)

Lemma Qmax_cases (a b : Q) : Qmax a b = a \/ Qmax a b = b.
Proof. unfold Qmax. destruct (Qle_bool a b); auto. Qed.

Lemma Qmax_ge_l (a b : Q) : (a <= Qmax a b)%Q.
Proof.
  unfold Qmax. destruct (Qle_bool a b) eqn:Hle.
  - by apply Qle_bool_iff.
  - apply Qle_refl.
Qed.

Lemma Qmax_ge_r (a b : Q) : (b <= Qmax a b)%Q.
Proof.
  unfold Qmax. destruct (Qle_bool a b) eqn:Hle.
  - apply Qle_refl.
  - apply Qlt_le_weak, Qnot_le_lt. intros Hab.
    apply Qle_bool_iff in Hab. congruence.
Qed.

Lemma running_max_ge_init (l : list Utterance) (acc : Q) :
  (acc <= foldl max_step acc l)%Q.
Proof.
  revert acc. induction l as [|v l IH]; intros acc; cbn.
  - apply Qle_refl.
  - eapply Qle_trans; [apply (Qmax_ge_l acc (u_end v)) | apply IH].
Qed.

Lemma running_max_ge_elem (l : list Utterance) (acc : Q) (u : Utterance) :
  u ∈ l -> (u_end u <= foldl max_step acc l)%Q.
Proof.
  revert acc. induction l as [|v l IH]; intros acc Hu.
  - by apply elem_of_nil in Hu.
  - apply elem_of_cons in Hu as [->|Hu]; cbn.
    + eapply Qle_trans; [apply (Qmax_ge_r acc (u_end v)) | apply running_max_ge_init].
    + by apply IH.
Qed.

Lemma running_max_attained (l : list Utterance) (acc : Q) :
  foldl max_step acc l = acc \/ exists u, u ∈ l /\ foldl max_step acc l = u_end u.
Proof.
  revert acc. induction l as [|v l IH]; intros acc; cbn; [by left|].
  destruct (IH (max_step acc v)) as [Heq|(u & Hu & Heq)].
  - rewrite Heq. unfold max_step. destruct (Qmax_cases acc (u_end v)) as [->| ->].
    + by left.
    + right. exists v. split; [apply elem_of_cons; by left | done].
  - right. exists u. split; [apply elem_of_cons; by right | done].
Qed.

Lemma max_end_upper (us : list Utterance) (u : Utterance) :
  u ∈ us -> (u_end u <= max_end us)%Q.
Proof.
  destruct us as [|v rest]; intros Hu; [by apply elem_of_nil in Hu|].
  apply elem_of_cons in Hu as [->|Hu]; cbn.
  - apply running_max_ge_init.
  - by apply running_max_ge_elem.
Qed.

Lemma max_end_attained (us : list Utterance) :
  us ≠ [] -> exists u, u ∈ us /\ max_end us = u_end u.
Proof.
  destruct us as [|v rest]; intros Hne; [done|]. cbn.
  destruct (running_max_attained rest (u_end v)) as [Heq|(u & Hu & Heq)].
  - exists v. split; [apply elem_of_cons; by left | done].
  - exists u. split; [apply elem_of_cons; by right | done].
Qed.

Lemma dom_add_utterance (i : nat) (u : Utterance) (m : gmap string SpeakerAgg) :
  dom (add_utterance i u m) = {[ u_speaker u ]} ∪ dom m.
Proof. unfold add_utterance. destruct (m !! u_speaker u); apply dom_insert_L. Qed.

Lemma dom_collect_speakers (us : list Utterance) (i : nat) (m : gmap string SpeakerAgg) :
  dom (collect_speakers i us m) = dom m ∪ list_to_set (u_speaker <$> us).
Proof.
  revert i m. induction us as [|u us IH]; intros i m; cbn.
  - by rewrite (right_id_L ∅ (∪)).
  - rewrite IH, dom_add_utterance. apply set_eq. intros x.
    rewrite !elem_of_union, elem_of_singleton. tauto.
Qed.

Lemma size_collect_speakers (us : list Utterance) :
  size (collect_speakers 0 us ∅) = length (remove_dups (u_speaker <$> us)).
Proof.
  rewrite <- size_dom, dom_collect_speakers, dom_empty_L, (left_id_L ∅ (∪)).
  rewrite <- (size_list_to_set (C := gset string) (remove_dups (u_speaker <$> us)))
    by apply NoDup_remove_dups.
  f_equal. apply set_eq. intros x.
  by rewrite !elem_of_list_to_set, elem_of_remove_dups.
Qed.

(** C7.  For every raw transcript that [build] accepts, the statistics are
    those of the returned utterance sequence: [duration_seconds] is the
    maximum of the utterance end times (an upper bound of all of them, reached
    by one of them) and [total_speakers] is the number of distinct speaker
    labels; for a transcript whose results container holds an empty utterance
    list, [build] succeeds with [duration_seconds = 0] and
    [total_speakers = 0]. *)
Theorem C7_statistics_derived_from_utterances :
  (forall raw filename lang o,
      build raw filename lang = Some o ->
      (forall u, u ∈ utterances o -> (u_end u <= duration_seconds (statistics o))%Q) /\
      (utterances o ≠ [] ->
       exists u, u ∈ utterances o /\ duration_seconds (statistics o) = u_end u) /\
      (utterances o = [] -> duration_seconds (statistics o) = 0%Q) /\
      total_speakers (statistics o)
      = length (remove_dups (u_speaker <$> utterances o)))
  /\ (forall request_id segments filename lang,
        exists o,
          build (mkRaw request_id (Some (mkResults (Some []) segments))) filename lang
          = Some o /\
          utterances o = [] /\
          duration_seconds (statistics o) = 0%Q /\
          total_speakers (statistics o) = 0).
Proof.
  split.
  - intros raw filename lang o Hbuild. unfold build in Hbuild.
    destruct (raw_results raw) as [rs|]; [|discriminate].
    injection Hbuild as <-. cbn.
    split; [apply max_end_upper|].
    split; [apply max_end_attained|].
    split; [by intros ->|].
    apply size_collect_speakers.
  - intros request_id segments filename lang. eexists. split; [reflexivity|].
    cbn. split; [done|]. split; [done|]. apply map_size_empty.
Qed.

Lemma C7_statistics_derived_from_utterances_witness :
  exists o,
    build sample_raw "r1.webm" (Some "en") = Some o /\
    duration_seconds (statistics o) = 9%Q /\
    total_speakers (statistics o) = 2 /\
    total_speakers (statistics o) = length (remove_dups (u_speaker <$> utterances o)).
Proof.
  eexists. split; [reflexivity|].
  split; [reflexivity|]. split; [vm_compute; reflexivity|].
  eapply (proj1 C7_statistics_derived_from_utterances sample_raw "r1.webm" (Some "en")).
  reflexivity.
Defined.

(** ** A small program logic for traces *)

Lemma obeys_ret {A} (Ev : Event -> Prop) (Q : A -> Prop) (a : A) :
  Q a -> obeys Ev Q (ret a).
Proof.
  intros Ha e w r w' H. unfold ret in H. simplify_eq.
  split; [exists []; by rewrite app_nil_r|]. split; [done|].
  intros ? [= <-]. done.
Qed.

Lemma obeys_throw {A} (Ev : Event -> Prop) (Q : A -> Prop) (t : Thrown) :
  obeys Ev Q (throw t).
Proof.
  intros e w r w' H. unfold throw in H. simplify_eq.
  split; [exists []; by rewrite app_nil_r|]. done.
Qed.

Lemma obeys_bind {A B} (Ev : Event -> Prop) (P : A -> Prop) (Q : B -> Prop)
    (m : IO A) (k : A -> IO B) :
  obeys Ev P m -> (forall a, P a -> obeys Ev Q (k a)) -> obeys Ev Q (bind m k).
Proof.
  intros Hm Hk e w r w' H. unfold bind in H.
  destruct (m e w) as [[a|t] w1] eqn:Hrun.
  - destruct (Hm _ _ _ _ Hrun) as ((evs1 & Ht1 & Hf1) & Hb1 & Hq1).
    destruct (Hk a (Hq1 a eq_refl) _ _ _ _ H) as ((evs2 & Ht2 & Hf2) & Hb2 & Hq2).
    split; [|split; [auto | done]].
    exists (evs1 ++ evs2)%list. rewrite Ht2, Ht1, app_assoc. split; [done|].
    by apply Forall_app.
  - simplify_eq. destruct (Hm _ _ _ _ Hrun) as (Hev & Hb & _).
    split; [done|]. split; [done|]. intros ? [=].
Qed.

Lemma obeys_try_catch {A} (Ev : Event -> Prop) (Q : A -> Prop)
    (m : IO A) (h : Thrown -> IO A) :
  obeys Ev Q m -> (forall t, obeys Ev Q (h t)) -> obeys Ev Q (try_catch m h).
Proof.
  intros Hm Hh e w r w' H. unfold try_catch in H.
  destruct (m e w) as [[a|t] w1] eqn:Hrun.
  - simplify_eq. exact (Hm _ _ _ _ Hrun).
  - destruct (Hm _ _ _ _ Hrun) as ((evs1 & Ht1 & Hf1) & Hb1 & _).
    destruct (Hh t _ _ _ _ H) as ((evs2 & Ht2 & Hf2) & Hb2 & Hq2).
    split; [|split; [auto | done]].
    exists (evs1 ++ evs2)%list. rewrite Ht2, Ht1, app_assoc. split; [done|].
    by apply Forall_app.
Qed.

Lemma obeys_ask (Ev : Event -> Prop) (Q : Env -> Prop) :
  (forall e, Q e) -> obeys Ev Q ask.
Proof.
  intros HQ e w r w' H. unfold ask in H. simplify_eq.
  split; [exists []; by rewrite app_nil_r|]. split; [done|].
  intros ? [= <-]. apply HQ.
Qed.

Lemma obeys_new_Error (Ev : Event -> Prop) (msg : string) :
  obeys Ev (fun _ => True) (new_Error msg).
Proof.
  intros e w r w' H. unfold new_Error in H. simplify_eq.
  split; [exists []; by rewrite app_nil_r|]. done.
Qed.

Lemma obeys_throw_new_Error {A} (Ev : Event -> Prop) (Q : A -> Prop) (msg : string) :
  obeys Ev Q (throw_new_Error msg).
Proof.
  unfold throw_new_Error.
  eapply obeys_bind; [apply obeys_new_Error|]. intros t _. apply obeys_throw.
Qed.

Lemma obeys_log_with (Ev : Event -> Prop) (Q : unit -> Prop) lvl msg fields :
  Ev (EvLog lvl msg fields) -> Q tt -> obeys Ev Q (log_with lvl msg fields).
Proof.
  intros Hev HQ e w r w' H. unfold log_with in H. simplify_eq.
  split; [exists [EvLog lvl msg fields]; split; [done | by constructor]|].
  split; [done|]. intros ? [= <-]. done.
Qed.

Lemma obeys_log (Ev : Event -> Prop) (Q : unit -> Prop) lvl msg :
  Ev (EvLog lvl msg []) -> Q tt -> obeys Ev Q (log lvl msg).
Proof. apply obeys_log_with. Qed.

(** A storage or network operation whose action appends nothing and leaves
    the body flag alone. *)
Lemma obeys_io {A} (Ev : Event -> Prop) (Q : A -> Prop) (ev : Event) (act : IO A) :
  Ev ev ->
  (forall e w r w', act e w = (r, w') ->
     trace w' = trace w /\ body_used w' = body_used w /\ forall a, r = Ok a -> Q a) ->
  obeys Ev Q (io ev act).
Proof.
  intros Hev Hact e w r w' H.
  apply io_inv in H as [(t & _ & -> & ->)|[_ H]].
  - split; [exists [ev]; split; [done | by constructor]|]. split; [done|]. intros ? [=].
  - destruct (Hact _ _ _ _ H) as (Ht & Hb & HQ).
    split; [exists [ev]; split; [by rewrite Ht | by constructor]|].
    split; [by rewrite Hb | done].
Qed.

Lemma obeys_getRound (Ev : Event -> Prop) roundId :
  Ev (EvGetRound roundId) -> obeys Ev (fun _ => True) (getRound roundId).
Proof.
  intros Hev. apply obeys_io; [done|]. intros e w r w' H.
  simplify_eq; cbn; auto.
Qed.

Lemma obeys_updateRound (Ev : Event -> Prop) roundId p :
  Ev (EvUpdateRound roundId p) -> obeys Ev (fun _ => True) (updateRound roundId p).
Proof.
  intros Hev. apply obeys_io; [done|]. intros e w r w' H.
  destruct (rounds w !! roundId); cbn in H; simplify_eq; cbn; auto.
Qed.

Lemma obeys_fs_mkdir (Ev : Event -> Prop) path :
  Ev (EvMkdir path) -> obeys Ev (fun _ => True) (fs_mkdir path).
Proof.
  intros Hev. apply obeys_io; [done|]. intros e w r w' H.
  unfold ret in H. by simplify_eq.
Qed.

Lemma obeys_fs_writeFile (Ev : Event -> Prop) path d :
  Ev (EvWriteFile path d) -> obeys Ev (fun _ => True) (fs_writeFile path d).
Proof.
  intros Hev e w r w' H. unfold fs_writeFile in H.
  destruct (fault e (clock w)) as [t|]; [destruct (torn e (clock w)) as [k|]|];
    injection H as <- <-; cbn;
    (split; [exists [EvWriteFile path d]; split; [done | by constructor]|]);
    (split; [done|]); by intros ? [=].
Qed.

Lemma obeys_fs_readFile (Ev : Event -> Prop) path :
  Ev (EvReadFile path) -> obeys Ev (fun _ => True) (fs_readFile path).
Proof.
  intros Hev. apply obeys_io; [done|]. intros e w r w' H.
  destruct (files w !! path); cbn in H; simplify_eq; cbn; auto.
Qed.

Lemma obeys_transcribeFile (Ev : Event -> Prop) buffer opts :
  Ev (EvTranscribe buffer opts) -> obeys Ev (fun _ => True) (transcribeFile buffer opts).
Proof.
  intros Hev. apply obeys_io; [done|]. intros e w r w' H.
  simplify_eq; cbn; auto.
Qed.

Lemma obeys_audioFileExists (Ev : Event -> Prop) roundId :
  obeys Ev (fun _ => True) (audioFileExists roundId).
Proof.
  intros e w r w' H. unfold audioFileExists in H.
  rewrite audioFileExists_from_spec in H. simplify_eq.
  split; [exists []; by rewrite app_nil_r|]. done.
Qed.

Lemma obeys_createDeliberationOntology (Ev : Event -> Prop) raw filename lang :
  obeys Ev (fun d => build raw filename lang = Some d)
        (createDeliberationOntology raw filename lang).
Proof.
  unfold createDeliberationOntology.
  destruct (build raw filename lang) as [d|].
  - by apply obeys_ret.
  - apply obeys_throw_new_Error.
Qed.

Lemma obeys_log_any (Ev : Event -> Prop) lvl msg :
  Ev (EvLog lvl msg []) -> obeys Ev (fun _ => True) (log lvl msg).
Proof. intros. by apply obeys_log. Qed.

Lemma obeys_log_with_any (Ev : Event -> Prop) lvl msg fields :
  Ev (EvLog lvl msg fields) -> obeys Ev (fun _ => True) (log_with lvl msg fields).
Proof. intros. by apply obeys_log_with. Qed.

Lemma obeys_ask_any (Ev : Event -> Prop) : obeys Ev (fun _ => True) ask.
Proof. by apply obeys_ask. Qed.

Create HintDb obeys_db.
#[local] Hint Resolve obeys_log_any obeys_log_with_any obeys_ask_any
  obeys_getRound obeys_updateRound obeys_fs_mkdir obeys_fs_writeFile
  obeys_fs_readFile obeys_transcribeFile obeys_audioFileExists
  obeys_createDeliberationOntology : obeys_db.

(** One step through a program: the continuation of a bind, a branch, or a
    final return or throw. *)
Ltac obeys_step :=
  lazymatch goal with
  | |- obeys _ _ (bind _ _) =>
      eapply obeys_bind; [solve [eauto with obeys_db] | intros ? ?]
  | |- obeys _ _ (try_catch _ _) => apply obeys_try_catch; [|intros ?]
  | |- obeys _ _ (ret _) => apply obeys_ret
  | |- obeys _ _ (throw _) => apply obeys_throw
  | |- obeys _ _ (throw_new_Error _) => apply obeys_throw_new_Error
  | |- obeys _ _ (match ?x with _ => _ end) => destruct x eqn:?
  | |- obeys _ _ (let _ := _ in _) => cbv zeta
  end.

Lemma obeys_ensureDirectories (Ev : Event -> Prop) :
  (forall path, Ev (EvMkdir path)) ->
  obeys Ev (fun _ => True) ensureDirectories.
Proof.
  intros Hmk. unfold ensureDirectories.
  repeat obeys_step; auto with obeys_db.
Qed.

Lemma obeys_saveTranscription (Ev : Event -> Prop) roundId raw d :
  (forall lvl msg fields, Ev (EvLog lvl msg fields)) ->
  (forall path, Ev (EvMkdir path)) ->
  (forall path x, Ev (EvWriteFile path x)) ->
  obeys Ev (fun _ => True) (saveTranscription roundId raw d).
Proof.
  intros Hlog Hmk Hwr. unfold saveTranscription.
  pose proof (obeys_ensureDirectories Ev Hmk) as Hdirs.
  repeat obeys_step; auto with obeys_db.
Qed.

Lemma allowed_log roundId lang lvl msg fields : allowed roundId lang (EvLog lvl msg fields).
Proof. exact I. Qed.

Lemma allowed_mkdir roundId lang path : allowed roundId lang (EvMkdir path).
Proof. exact I. Qed.

Lemma allowed_write roundId lang path d : allowed roundId lang (EvWriteFile path d).
Proof. exact I. Qed.

Lemma allowed_read roundId lang path : allowed roundId lang (EvReadFile path).
Proof. exact I. Qed.

#[local] Hint Resolve allowed_log allowed_mkdir allowed_write allowed_read : obeys_db.
#[local] Hint Extern 2 (allowed _ _ _) => (cbn; auto) : obeys_db.

Lemma obeys_round_orchestrate roundId round audioPath :
  obeys (allowed roundId (js_or (r_language round) "en")) plain_response
        (round_orchestrate roundId round audioPath).
Proof.
  unfold round_orchestrate, round_finish.
  pose proof (obeys_saveTranscription (allowed roundId (js_or (r_language round) "en"))
                roundId) as Hsave.
  repeat obeys_step; eauto 6 with obeys_db; try (cbn; auto; fail).
Qed.

Lemma obeys_round_found roundId round :
  obeys (allowed roundId (js_or (r_language round) "en")) plain_response
        (round_found roundId round).
Proof.
  unfold round_found.
  pose proof (obeys_round_orchestrate roundId round) as Horch.
  repeat obeys_step; eauto with obeys_db; cbn; auto.
Qed.

(** ** The [catch] block of the round-specific route *)

(** Whatever was thrown, the block attempts the ERROR write exactly once,
    logs the outcome of the attempt, and returns the response made from the
    caught value; it throws nothing itself. *)
Lemma round_catch_spec roundId t e w :
  exists w' lvl msg,
    round_catch roundId t e w = (Ok (error_response t), w') /\
    trace w' = (trace w ++ [ EvLog Error_ "Transcription error occurred" [];
                             EvUpdateRound roundId (status_patch ERROR);
                             EvLog lvl msg [] ])%list /\
    files w' = files w /\
    body_used w' = body_used w /\
    ((fault e (clock w) = None /\
      (exists r, rounds w !! roundId = Some r /\
                 rounds w' = <[roundId := apply_patch (status_patch ERROR) r]> (rounds w)) /\
      lvl = Info /\ msg = "Updated round status to ERROR")
     \/
     ((is_Some (fault e (clock w)) \/ rounds w !! roundId = None) /\
      rounds w' = rounds w /\
      lvl = Warn /\ msg = "Failed to update round status")).
Proof.
  unfold round_catch, updateRound, io, bind, try_catch, log, log_with, ret. cbn.
  destruct (fault e (clock w)) as [t'|] eqn:Hfault.
  - eexists _, Warn, _. split; [reflexivity|]. cbn.
    rewrite <- !app_assoc. split; [reflexivity|]. split; [done|]. split; [done|].
    right. eauto.
  - destruct (rounds w !! roundId) as [r|] eqn:Hr.
    + eexists _, Info, _. split; [reflexivity|]. cbn.
      rewrite <- !app_assoc. split; [reflexivity|]. split; [done|]. split; [done|].
      left. eauto 10.
    + eexists _, Warn, _. split; [reflexivity|]. cbn.
      rewrite <- !app_assoc. split; [reflexivity|]. split; [done|]. split; [done|].
      right. eauto.
Qed.

Lemma error_response_status t : http_status (error_response t) = 500.
Proof. by destruct t. Qed.

Lemma plain_response_status r : plain_response r -> http_status r ≠ 500.
Proof.
  unfold plain_response. destruct (body r); [intros (_ & [-> | ->]) | intros ->]; done.
Qed.

(** ** The generic route *)

Lemma request_formData_spec request e w r w' :
  request_formData request e w = (r, w') ->
  trace w' = trace w /\ rounds w' = rounds w /\ files w' = files w /\
  clock w' = clock w /\ body_used w' = true /\
  (forall f, r = Ok f -> req_form request = Some f /\ body_used w = false).
Proof.
  unfold request_formData, parse_form, throw_new_Error, new_Error, bind, throw, ret.
  destruct (body_used w) eqn:Hused.
  - intros [= <- <-]. repeat split; try done.
  - destruct (req_form request) as [f|]; intros [= <- <-]; cbn;
      repeat split; try done; congruence.
Qed.

Lemma obeys_request_formData (Ev : Event -> Prop) request :
  obeys Ev (fun f => req_form request = Some f) (request_formData request).
Proof.
  intros e w r w' H. apply request_formData_spec in H as (Ht & _ & _ & _ & Hb & Hf).
  split; [exists []; by rewrite app_nil_r|]. split; [done|].
  intros f Hr. by apply Hf.
Qed.

Lemma obeys_generic_orchestrate roundId audioFile filename :
  obeys (allowed roundId "en") plain_response
        (generic_orchestrate roundId audioFile filename).
Proof.
  unfold generic_orchestrate, generic_finish.
  pose proof (obeys_saveTranscription (allowed roundId "en") roundId) as Hsave.
  repeat obeys_step; eauto 6 with obeys_db; try (cbn; auto; fail).
Qed.

Lemma obeys_generic_with_form f :
  obeys (allowed (default "" (fd_roundId f)) "en") plain_response (generic_with_form f).
Proof.
  unfold generic_with_form. cbv zeta.
  pose proof (obeys_generic_orchestrate (default "" (fd_roundId f))) as Horch.
  repeat obeys_step; eauto with obeys_db; cbn; auto.
Qed.

Lemma obeys_generic_try request :
  obeys (allowed (form_roundId request) "en") plain_response (generic_try request).
Proof.
  unfold generic_try.
  eapply obeys_bind; [apply obeys_request_formData|].
  intros f Hf. unfold form_roundId. rewrite Hf. apply obeys_generic_with_form.
Qed.

Lemma generic_try_reads_body request e w r w' :
  generic_try request e w = (r, w') -> body_used w' = true.
Proof.
  unfold generic_try, bind.
  destruct (request_formData request e w) as [[f|t] w0] eqn:Hform;
    apply request_formData_spec in Hform as (_ & _ & _ & _ & Hb & _).
  - intros Hrest.
    destruct (obeys_generic_with_form f _ _ _ _ Hrest) as (_ & Hkeep & _). auto.
  - by intros [= <- <-].
Qed.

(** With the body already read, the [catch] block cannot read the round id
    again: [request.clone()] throws, the inner [catch] logs a warning, and
    no status write is attempted. *)
Lemma generic_catch_body_read request t e w :
  body_used w = true ->
  exists w',
    generic_catch request t e w = (Ok (error_response t), w') /\
    trace w' = (trace w ++ [ EvLog Error_ "Transcription error occurred" [];
                             EvLog Warn "Failed to update round status" [] ])%list /\
    rounds w' = rounds w /\ files w' = files w.
Proof.
  intros Hused.
  unfold generic_catch, request_clone_formData, bind, try_catch, log, log_with, ret.
  cbn. rewrite Hused. cbn.
  eexists. split; [reflexivity|]. cbn. rewrite <- !app_assoc. done.
Qed.

(** ** Runs that succeed *)

Ltac bad_branch H :=
  exfalso; unfold bind, log, log_with, throw_new_Error, new_Error, throw, ret in H;
  cbn in H; discriminate H.

Lemma log_run lvl msg fields e w r w' :
  log_with lvl msg fields e w = (r, w') ->
  r = Ok tt /\ w' = emit (EvLog lvl msg fields) w.
Proof. unfold log_with. by intros [= <- <-]. Qed.

Lemma updateRound_Ok roundId p e w r' w' :
  updateRound roundId p e w = (Ok r', w') ->
  exists r, rounds w !! roundId = Some r /\ r' = apply_patch p r /\
    fault e (clock w) = None /\
    w' = set_rounds (<[roundId := apply_patch p r]> (rounds w))
           (tick (emit (EvUpdateRound roundId p) w)).
Proof.
  unfold updateRound. intros H.
  apply io_inv in H as [(t & _ & [=] & _)|[Hf H]]. cbn in H.
  destruct (rounds w !! roundId) as [r|]; [|discriminate].
  exists r. by simplify_eq.
Qed.

(** ** Paths: the two transcript files are different files *)

Lemma append_cons (c : ascii) (a b : string) : String c a ++ b = String c (a ++ b).
Proof. reflexivity. Qed.

Lemma append_nil (b : string) : "" ++ b = b.
Proof. reflexivity. Qed.

Lemma string_app_assoc (a b c : string) : (a ++ b) ++ c = a ++ b ++ c.
Proof.
  induction a as [|ch a IH]; [done|].
  by rewrite !append_cons, IH.
Qed.

Lemma squeeze_slash_free (b : bool) (y : string) :
  slash_free y = true -> squeeze b y = y.
Proof.
  revert b. induction y as [|c y IH]; intros b Hy; [done|].
  cbn in Hy. apply andb_true_iff in Hy as [Hc Hy].
  apply negb_true_iff in Hc. cbn [squeeze]. rewrite Hc. by rewrite IH.
Qed.

Lemma squeeze_app_slash_free (x y : string) (b : bool) :
  slash_free y = true -> squeeze b (x ++ y) = squeeze b x ++ y.
Proof.
  intros Hy. revert b. induction x as [|c x IH]; intros b.
  - rewrite append_nil. cbn [squeeze]. rewrite append_nil.
    by apply squeeze_slash_free.
  - rewrite append_cons. cbn [squeeze].
    destruct (is_slash c); [destruct b|]; rewrite IH; by rewrite ?append_cons.
Qed.

(** The two transcript files of a round are different files. *)
Lemma raw_path_ne_deliberation_path e roundId :
  raw_path e roundId ≠ deliberation_path e roundId.
Proof.
  unfold raw_path, deliberation_path, path_join. cbn [join_with].
  rewrite <- !(string_app_assoc (TRANSCRIPTIONS_DIR e) "/").
  rewrite <- !(string_app_assoc _ roundId).
  rewrite (squeeze_app_slash_free _ "_raw.json") by reflexivity.
  rewrite (squeeze_app_slash_free _ "_deliberation.json") by reflexivity.
  intros Heq. apply String.app_inj in Heq. discriminate Heq.
Qed.

Lemma saveTranscription_Ok roundId raw d e w p w1 :
  saveTranscription roundId raw d e w = (Ok p, w1) ->
  trace w1 = (trace w ++ save_events e roundId raw d)%list /\
  files w1 = <[deliberation_path e roundId
                 := OntologyJson d]>
               (<[raw_path e roundId
                    := RawJson raw]> (files w)) /\
  rounds w1 = rounds w.
Proof.
  intros Hrun.
  unfold saveTranscription, ensureDirectories, fs_mkdir, fs_writeFile in Hrun.
  unfold bind, try_catch, log, log_with, ask, ret, throw, io in Hrun.
  cbn in Hrun.
  repeat (case_match; simplify_eq).
  cbn. unfold save_events. rewrite <- !app_assoc. done.
Qed.

Lemma round_finish_Ok roundId lang audioPath reply e w resp w' :
  round_finish roundId lang audioPath reply e w = (Ok resp, w') ->
  exists raw d r0,
    reply = mkReply (Some raw) None /\
    build raw (basename audioPath) (Some lang) = Some d /\
    resp = success_response roundId d /\
    rounds w !! roundId = Some r0 /\
    rounds w' = <[roundId := apply_patch (completed_patch_round roundId audioPath d) r0]>
                  (rounds w) /\
    files w' !! deliberation_path e roundId
    = Some (OntologyJson d) /\
    files w' !! raw_path e roundId = Some (RawJson raw) /\
    trace w' = (trace w
                ++ [ EvLog Debug "Raw result from Deepgram" [];
                     EvLog Info "Deepgram transcription completed" [] ]
                ++ save_events e roundId raw d
                ++ [ EvLog Info "Transcription files saved successfully" [];
                     EvUpdateRound roundId (completed_patch_round roundId audioPath d) ])%list.
Proof.
  intros H. unfold round_finish, log in H.
  destruct reply as [res err]. cbn [error result] in H.
  destruct err as [err|]; [bad_branch H|].
  destruct res as [raw|]; [|bad_branch H].
  apply bind_Ok in H as (? & w1 & H1 & H). apply log_run in H1 as [_ ->].
  apply bind_Ok in H as (? & w2 & H2 & H). apply log_run in H2 as [_ ->].
  destruct (raw_results raw) as [rs|] eqn:Hrs; [|bad_branch H].
  cbv zeta in H.
  apply bind_Ok in H as (d & w3 & H3 & H).
  unfold createDeliberationOntology in H3.
  destruct (build raw (basename audioPath) (Some lang)) as [d'|] eqn:Hbuild;
    [|bad_branch H3].
  unfold ret in H3. injection H3 as <- <-.
  apply bind_Ok in H as (? & w4 & H4 & H).
  apply saveTranscription_Ok in H4 as (Htr4 & Hf4 & Hr4).
  apply bind_Ok in H as (? & w5 & H5 & H). apply log_run in H5 as [_ ->].
  apply bind_Ok in H as (? & w6 & H6 & H).
  apply updateRound_Ok in H6 as (r0 & Hr0 & _ & _ & ->).
  unfold ret in H. injection H as <- <-.
  eexists raw, _, r0. cbn in Hr0 |- *. rewrite Hr4 in Hr0 |- *. cbn in Hr0.
  split; [done|]. split; [eassumption|]. split; [done|]. split; [done|].
  split; [done|]. split; [by rewrite Hf4, lookup_insert_eq|].
  split.
  { rewrite Hf4, lookup_insert_ne, lookup_insert_eq; [done|].
    intros Heq. by apply (raw_path_ne_deliberation_path e roundId). }
  rewrite Htr4. cbn. rewrite <- !app_assoc. reflexivity.
Qed.

Lemma generic_finish_Ok roundId filename reply e w resp w' :
  generic_finish roundId filename reply e w = (Ok resp, w') ->
  exists raw d r0,
    reply = mkReply (Some raw) None /\
    build raw filename None = Some d /\
    resp = success_response roundId d /\
    rounds w !! roundId = Some r0 /\
    rounds w' = <[roundId := apply_patch (completed_patch_generic roundId d) r0]>
                  (rounds w) /\
    files w' !! deliberation_path e roundId
    = Some (OntologyJson d) /\
    files w' !! raw_path e roundId = Some (RawJson raw) /\
    trace w' = (trace w
                ++ [ EvLog Debug "Raw result from Deepgram" [];
                     EvLog Info "Deepgram transcription completed" [];
                     EvLog Debug "Deepgram response after serialization" [] ]
                ++ save_events e roundId raw d
                ++ [ EvLog Info "Transcription files saved successfully" [];
                     EvUpdateRound roundId (completed_patch_generic roundId d) ])%list.
Proof.
  intros H. unfold generic_finish, log in H.
  destruct reply as [res err]. cbn [error result] in H.
  destruct err as [err|]; [bad_branch H|].
  destruct res as [raw|]; [|bad_branch H].
  apply bind_Ok in H as (? & w1 & H1 & H). apply log_run in H1 as [_ ->].
  apply bind_Ok in H as (? & w2 & H2 & H). apply log_run in H2 as [_ ->].
  apply bind_Ok in H as (? & w2' & H2' & H). apply log_run in H2' as [_ ->].
  destruct (raw_results raw) as [rs|] eqn:Hrs; [|bad_branch H].
  apply bind_Ok in H as (d & w3 & H3 & H).
  unfold createDeliberationOntology in H3.
  destruct (build raw filename None) as [d'|] eqn:Hbuild; [|bad_branch H3].
  unfold ret in H3. injection H3 as <- <-.
  apply bind_Ok in H as (? & w4 & H4 & H).
  apply saveTranscription_Ok in H4 as (Htr4 & Hf4 & Hr4).
  apply bind_Ok in H as (? & w5 & H5 & H). apply log_run in H5 as [_ ->].
  apply bind_Ok in H as (? & w6 & H6 & H).
  apply updateRound_Ok in H6 as (r0 & Hr0 & _ & _ & ->).
  unfold ret in H. injection H as <- <-.
  eexists raw, _, r0. cbn in Hr0 |- *. rewrite Hr4 in Hr0 |- *. cbn in Hr0.
  split; [done|]. split; [eassumption|]. split; [done|]. split; [done|].
  split; [done|]. split; [by rewrite Hf4, lookup_insert_eq|].
  split.
  { rewrite Hf4, lookup_insert_ne, lookup_insert_eq; [done|].
    intros Heq. by apply (raw_path_ne_deliberation_path e roundId). }
  rewrite Htr4. cbn. rewrite <- !app_assoc. reflexivity.
Qed.

Lemma ask_run e w r w' : ask e w = (r, w') -> r = Ok e /\ w' = w.
Proof. unfold ask. by intros [= <- <-]. Qed.

Lemma fs_readFile_Ok path e w b w' :
  fs_readFile path e w = (Ok b, w') ->
  exists d, files w !! path = Some d /\ b = file_bytes e d /\
            w' = tick (emit (EvReadFile path) w).
Proof.
  unfold fs_readFile. intros H.
  apply io_inv in H as [(t & _ & [=] & _)|[Hf H]]. cbn in H.
  destruct (files w !! path) as [d|]; [|discriminate].
  exists d. by simplify_eq.
Qed.

Lemma transcribeFile_Ok buffer opts e w reply w' :
  transcribeFile buffer opts e w = (Ok reply, w') ->
  reply = provider e buffer opts /\ w' = tick (emit (EvTranscribe buffer opts) w).
Proof.
  unfold transcribeFile. intros H.
  apply io_inv in H as [(t & _ & [=] & _)|[Hf H]]. by simplify_eq.
Qed.

Lemma round_orchestrate_Ok roundId round audioPath e w resp w' :
  round_orchestrate roundId round audioPath e w = (Ok resp, w') ->
  let lang := js_or (r_language round) "en" in
  exists r0 buffer raw d fields,
    rounds w !! roundId = Some r0 /\
    provider e buffer (deepgram_options lang) = mkReply (Some raw) None /\
    build raw (basename audioPath) (Some lang) = Some d /\
    resp = success_response roundId d /\
    rounds w' !! roundId
    = Some (apply_patch (completed_patch_round roundId audioPath d)
              (apply_patch (status_patch PROCESSING) r0)) /\
    files w' !! deliberation_path e roundId
    = Some (OntologyJson d) /\
    files w' !! raw_path e roundId = Some (RawJson raw) /\
    trace w' = (trace w
                ++ [ EvUpdateRound roundId (status_patch PROCESSING);
                     EvReadFile (path_join [cwd e; "public"; audioPath]);
                     EvLog Info "Starting Deepgram transcription" fields;
                     EvTranscribe buffer (deepgram_options lang);
                     EvLog Debug "Raw result from Deepgram" [];
                     EvLog Info "Deepgram transcription completed" [] ]
                ++ save_events e roundId raw d
                ++ [ EvLog Info "Transcription files saved successfully" [];
                     EvUpdateRound roundId (completed_patch_round roundId audioPath d) ])%list.
Proof.
  intros H lang. unfold round_orchestrate in H. cbv zeta in H. fold lang in H.
  apply bind_Ok in H as (? & w1 & H1 & H).
  apply updateRound_Ok in H1 as (r0 & Hr0 & _ & _ & ->).
  apply bind_Ok in H as (e' & ? & H2 & H). apply ask_run in H2 as [[= ->] ->].
  apply bind_Ok in H as (buffer & w3 & H3 & H).
  apply fs_readFile_Ok in H3 as (d0 & _ & _ & ->).
  apply bind_Ok in H as (? & w4 & H4 & H). apply log_run in H4 as [_ ->].
  destruct (negb (truthy (api_key e))); [bad_branch H|].
  apply bind_Ok in H as (reply & w5 & H5 & H).
  apply transcribeFile_Ok in H5 as [-> ->].
  apply round_finish_Ok in H
    as (raw & d & r1 & Hreply & Hbuild & -> & Hr1 & Hrounds & Hfile & Hraw & Htrace).
  cbn in Hr1. rewrite lookup_insert_eq in Hr1. injection Hr1 as <-.
  eexists r0, buffer, raw, d, _.
  split; [done|]. split; [done|]. split; [done|]. split; [done|].
  split; [by rewrite Hrounds, lookup_insert_eq|]. split; [done|]. split; [done|].
  rewrite Htrace. cbn. rewrite <- !app_assoc. reflexivity.
Qed.

Lemma generic_orchestrate_Ok roundId audioFile filename e w resp w' :
  generic_orchestrate roundId audioFile filename e w = (Ok resp, w') ->
  exists r0 raw d fields,
    rounds w !! roundId = Some r0 /\
    provider e (f_content audioFile) (deepgram_options "en") = mkReply (Some raw) None /\
    build raw filename None = Some d /\
    resp = success_response roundId d /\
    rounds w' !! roundId
    = Some (apply_patch (completed_patch_generic roundId d)
              (apply_patch (status_patch PROCESSING) r0)) /\
    files w' !! deliberation_path e roundId
    = Some (OntologyJson d) /\
    files w' !! raw_path e roundId = Some (RawJson raw) /\
    trace w' = (trace w
                ++ [ EvUpdateRound roundId (status_patch PROCESSING);
                     EvLog Info "Starting Deepgram transcription" fields;
                     EvTranscribe (f_content audioFile) (deepgram_options "en");
                     EvLog Debug "Raw result from Deepgram" [];
                     EvLog Info "Deepgram transcription completed" [];
                     EvLog Debug "Deepgram response after serialization" [] ]
                ++ save_events e roundId raw d
                ++ [ EvLog Info "Transcription files saved successfully" [];
                     EvUpdateRound roundId (completed_patch_generic roundId d) ])%list.
Proof.
  intros H. unfold generic_orchestrate in H. cbv zeta in H.
  apply bind_Ok in H as (? & w1 & H1 & H).
  apply updateRound_Ok in H1 as (r0 & Hr0 & _ & _ & ->).
  apply bind_Ok in H as (e' & ? & H2 & H). apply ask_run in H2 as [[= ->] ->].
  destruct (negb (truthy (api_key e))); [bad_branch H|].
  apply bind_Ok in H as (? & w4 & H4 & H). apply log_run in H4 as [_ ->].
  apply bind_Ok in H as (reply & w5 & H5 & H).
  apply transcribeFile_Ok in H5 as [-> ->].
  apply generic_finish_Ok in H
    as (raw & d & r1 & Hreply & Hbuild & -> & Hr1 & Hrounds & Hfile & Hraw & Htrace).
  cbn in Hr1. rewrite lookup_insert_eq in Hr1. injection Hr1 as <-.
  eexists r0, raw, d, _.
  split; [done|]. split; [done|]. split; [done|]. split; [done|].
  split; [by rewrite Hrounds, lookup_insert_eq|]. split; [done|]. split; [done|].
  rewrite Htrace. cbn. rewrite <- !app_assoc. reflexivity.
Qed.

Lemma new_events_app w w' evs :
  trace w' = (trace w ++ evs)%list -> new_events w w' = evs.
Proof. intros H. unfold new_events. rewrite H. apply drop_app_length. Qed.

Lemma getRound_run roundId e w r w' :
  getRound roundId e w = (r, w') ->
  w' = tick (emit (EvGetRound roundId) w) /\
  ((exists t, fault e (clock w) = Some t /\ r = Throw t) \/
   (fault e (clock w) = None /\ r = Ok (rounds w !! roundId))).
Proof.
  unfold getRound. intros H.
  apply io_inv in H as [(t & Hf & -> & ->)|[Hf H]].
  - eauto.
  - injection H as <- <-. eauto.
Qed.

(** A 200 response of the round-specific route comes out of the [try] block,
    through [round_orchestrate]. *)
Lemma POST_round_200 roundId e w resp w' :
  POST_round roundId e w = (Ok resp, w') ->
  http_status resp = 200 ->
  exists round audioPath w0,
    rounds w !! roundId = Some round /\
    first_present e (files w) roundId extensions = Some audioPath /\
    trace w0 = (trace w ++ [ EvGetRound roundId;
                             EvLog Info "Found audio file" [("audioPath", audioPath)] ])%list /\
    rounds w0 = rounds w /\ files w0 = files w /\
    round_orchestrate roundId round audioPath e w0 = (Ok resp, w').
Proof.
  intros H Hstatus. unfold POST_round in H.
  apply try_catch_inv in H as [(resp' & H & [= <-])|(t & w1 & _ & H)].
  - unfold round_try in H.
    apply bind_Ok in H as (round & w1 & H1 & H).
    apply getRound_run in H1 as [-> [(t & _ & [=])|[_ [= ->]]]].
    destruct (rounds w !! roundId) as [round|] eqn:Hround.
    + unfold round_found in H.
      apply bind_Ok in H as (audioPath & w2 & H2 & H).
      unfold audioFileExists in H2. rewrite audioFileExists_from_spec in H2.
      injection H2 as <- <-. cbn [files tick emit] in H.
      destruct (first_present e (files w) roundId extensions) as [audioPath|] eqn:Hp.
      * apply bind_Ok in H as (? & w3 & H3 & H). apply log_run in H3 as [_ ->].
        eexists round, audioPath, _. split; [done|]. split; [done|].
        split; [|split; [|split; [|exact H]]]; [|done|done].
        cbn. by rewrite <- !app_assoc.
      * unfold bind, log, log_with, ret in H. cbn in H. injection H as <- <-.
        discriminate Hstatus.
    + unfold bind, log, log_with, ret in H. cbn in H. injection H as <- <-.
      discriminate Hstatus.
  - destruct (round_catch_spec roundId t e w1) as (w2 & lvl & msg & Hc & _).
    rewrite Hc in H. injection H as <- <-.
    rewrite error_response_status in Hstatus. discriminate.
Qed.

(** A 200 response of the generic route comes out of the [try] block,
    through [generic_orchestrate]. *)
Lemma POST_generic_200 request e w resp w' :
  POST_generic request e w = (Ok resp, w') ->
  http_status resp = 200 ->
  exists f audioFile w0,
    req_form request = Some f /\ fd_audio f = Some audioFile /\
    trace w0 = trace w /\ rounds w0 = rounds w /\ files w0 = files w /\
    generic_orchestrate (form_roundId request) audioFile
      (js_or (fd_filename f) (js_or (Some (f_name audioFile)) "audio")) e w0
    = (Ok resp, w').
Proof.
  intros H Hstatus. unfold POST_generic in H.
  apply try_catch_inv in H as [(resp' & H & [= <-])|(t & w1 & Htry & H)].
  - unfold generic_try in H.
    apply bind_Ok in H as (f & w1 & H1 & H).
    apply request_formData_spec in H1 as (Ht & Hr & Hf & _ & _ & Hform).
    destruct (Hform f eq_refl) as [Hreq _].
    unfold generic_with_form in H. cbv zeta in H.
    destruct (fd_audio f) as [audioFile|] eqn:Haudio.
    + destruct (negb (truthy (fd_roundId f))).
      * unfold bind, log, log_with, ret in H. cbn in H. injection H as <- <-.
        discriminate Hstatus.
      * exists f, audioFile, w1. unfold form_roundId. rewrite Hreq. cbn. done.
    + unfold bind, log, log_with, ret in H. cbn in H. injection H as <- <-.
      discriminate Hstatus.
  - apply generic_try_reads_body in Htry.
    destruct (generic_catch_body_read request t e w1 Htry) as (w2 & Hc & _).
    rewrite Hc in H. injection H as <- <-.
    rewrite error_response_status in Hstatus. discriminate.
Qed.

(** C2.  Every run of either route that answers 200 has called the
    provider, has first written the raw response the provider gave to that
    call and the ontology built from it to their files, and only then, as
    its last effect, written the status COMPLETED together with
    [duration_seconds] and [speaker_count] taken from the statistics of that
    same ontology; both files then hold what was written and the stored
    round carries these values.  The round-specific route makes the call for
    the stored round, in its language, and builds from the base name of the
    audio file it found; the generic route makes it with the uploaded file,
    and builds from the file name of the form. *)
Theorem C2_persist_then_complete :
  (forall roundId e w resp w',
      POST_round roundId e w = (Ok resp, w') ->
      http_status resp = 200 ->
      exists round audioPath buffer raw d r,
        rounds w !! roundId = Some round /\
        first_present e (files w) roundId extensions = Some audioPath /\
        EvTranscribe buffer (deepgram_options (js_or (r_language round) "en"))
          ∈ new_events w w' /\
        provider e buffer (deepgram_options (js_or (r_language round) "en"))
        = mkReply (Some raw) None /\
        build raw (basename audioPath) (Some (js_or (r_language round) "en")) = Some d /\
        resp = success_response roundId d /\
        completes e roundId raw d (completed_patch_round roundId audioPath d)
          (new_events w w') /\
        files w' !! raw_path e roundId = Some (RawJson raw) /\
        files w' !! deliberation_path e roundId = Some (OntologyJson d) /\
        rounds w' !! roundId = Some r /\
        r_status r = COMPLETED /\
        r_duration_seconds r = Some (duration_seconds (statistics d)) /\
        r_speaker_count r = Some (total_speakers (statistics d)))
  /\
  (forall request e w resp w',
      POST_generic request e w = (Ok resp, w') ->
      http_status resp = 200 ->
      let roundId := form_roundId request in
      exists f audioFile raw d r,
        req_form request = Some f /\
        fd_audio f = Some audioFile /\
        EvTranscribe (f_content audioFile) (deepgram_options "en") ∈ new_events w w' /\
        provider e (f_content audioFile) (deepgram_options "en")
        = mkReply (Some raw) None /\
        build raw (js_or (fd_filename f) (js_or (Some (f_name audioFile)) "audio")) None
        = Some d /\
        resp = success_response roundId d /\
        completes e roundId raw d (completed_patch_generic roundId d)
          (new_events w w') /\
        files w' !! raw_path e roundId = Some (RawJson raw) /\
        files w' !! deliberation_path e roundId = Some (OntologyJson d) /\
        rounds w' !! roundId = Some r /\
        r_status r = COMPLETED /\
        r_duration_seconds r = Some (duration_seconds (statistics d)) /\
        r_speaker_count r = Some (total_speakers (statistics d))).
Proof.
  split.
  - intros roundId e w resp w' Hrun Hstatus.
    apply POST_round_200 in Hrun
      as (round & audioPath & w0 & Hstored & Hpresent & Ht0 & Hr0 & _ & Hrun); [|done].
    apply round_orchestrate_Ok in Hrun
      as (r0 & buffer & raw & d & fields & _ & Hreply & Hbuild & -> & Hround
          & Hfile & Hraw & Ht).
    rewrite Ht0 in Ht. unfold save_events in Ht. rewrite <- ?app_assoc in Ht.
    pose proof (new_events_app _ _ _ Ht) as Hnew.
    eexists round, audioPath, buffer, raw, d, _.
    split; [done|]. split; [done|].
    split; [rewrite Hnew; apply list_elem_of_lookup; by exists 5|].
    split; [exact Hreply|]. split; [exact Hbuild|]. split; [done|].
    split; [|split; [done|]; split; [done|]; split; [exact Hround|]; done].
    split; [done|]. split; [done|]. split; [done|].
    eexists (_ :: _ :: _ :: _ :: _ :: _ :: _ :: _ :: _ :: _ :: _ :: _ :: []), [_; _].
    split; [exact Hnew|]. split; repeat constructor.
  - intros request e w resp w' Hrun Hstatus roundId.
    apply POST_generic_200 in Hrun
      as (f & audioFile & w0 & Hform & Haudio & Ht0 & Hr0 & _ & Hrun); [|done].
    apply generic_orchestrate_Ok in Hrun
      as (r0 & raw & d & fields & _ & Hreply & Hbuild & -> & Hround & Hfile & Hraw & Ht).
    rewrite Ht0 in Ht. unfold save_events in Ht. rewrite <- ?app_assoc in Ht.
    pose proof (new_events_app _ _ _ Ht) as Hnew.
    eexists f, audioFile, raw, d, _.
    split; [done|]. split; [done|].
    split; [rewrite Hnew; apply list_elem_of_lookup; by exists 2|].
    split; [exact Hreply|]. split; [exact Hbuild|]. split; [done|].
    split; [|split; [done|]; split; [done|]; split; [exact Hround|]; done].
    split; [done|]. split; [done|]. split; [done|].
    eexists (_ :: _ :: _ :: _ :: _ :: _ :: _ :: _ :: _ :: _ :: []), [_; _].
    split; [exact Hnew|]. split; repeat constructor.
Qed.

Lemma C2_persist_then_complete_witness :
  let specific := POST_round "r1" good_env (sample_world RECORDING) in
  let generic := POST_generic sample_request good_env (sample_world RECORDING) in
  (exists buffer raw d r,
      provider good_env buffer (deepgram_options "it") = mkReply (Some raw) None /\
      response_of specific = success_response "r1" d /\
      files (snd specific) !! raw_path good_env "r1" = Some (RawJson raw) /\
      files (snd specific) !! deliberation_path good_env "r1" = Some (OntologyJson d) /\
      rounds (snd specific) !! "r1" = Some r /\
      r_status r = COMPLETED /\
      r_duration_seconds r = Some (duration_seconds (statistics d)) /\
      r_speaker_count r = Some (total_speakers (statistics d)))
  /\
  (exists raw d r,
      provider good_env sample_audio (deepgram_options "en") = mkReply (Some raw) None /\
      response_of generic = success_response "r1" d /\
      files (snd generic) !! raw_path good_env "r1" = Some (RawJson raw) /\
      files (snd generic) !! deliberation_path good_env "r1" = Some (OntologyJson d) /\
      rounds (snd generic) !! "r1" = Some r /\
      r_status r = COMPLETED /\
      r_duration_seconds r = Some (duration_seconds (statistics d)) /\
      r_speaker_count r = Some (total_speakers (statistics d))).
Proof.
  intros specific generic. split.
  - destruct (proj1 C2_persist_then_complete "r1" good_env (sample_world RECORDING)
                (response_of specific) (snd specific))
      as (round & audioPath & buffer & raw & d & r & Hround & _ & _ & Hreply & _
          & Hresp & _ & Hraw & Hfile & Hr & Hs & Hd & Hc).
    + vm_compute. reflexivity.
    + vm_compute. reflexivity.
    + injection Hround as <-. exists buffer, raw, d, r. done.
  - destruct (proj2 C2_persist_then_complete sample_request good_env
                (sample_world RECORDING) (response_of generic) (snd generic))
      as (f & audioFile & raw & d & r & Hform & Haudio & _ & Hreply & _
          & Hresp & _ & Hraw & Hfile & Hr & Hs & Hd & Hc).
    + vm_compute. reflexivity.
    + vm_compute. reflexivity.
    + injection Hform as <-. injection Haudio as <-. exists raw, d, r. done.
Defined.

(** ** Paths: the file that [audioFileExists] finds is the file that is read *)

Lemma squeeze_app_squeezed (x y : string) (b : bool) :
  squeeze b (squeeze b x ++ y) = squeeze b (x ++ y).
Proof.
  revert b. induction x as [|c x IH]; intros b; [done|].
  rewrite append_cons. cbn [squeeze].
  destruct (is_slash c) eqn:Hc.
  - destruct b; [apply IH|]. rewrite append_cons. cbn [squeeze]. by rewrite Hc, IH.
  - rewrite append_cons. cbn [squeeze]. by rewrite Hc, IH.
Qed.

Lemma squeeze_double_slash (x y : string) (b : bool) :
  squeeze b (x ++ String "/" (String "/" y)) = squeeze b (x ++ String "/" y).
Proof.
  revert b. induction x as [|c x IH]; intros b.
  - rewrite !append_nil. by destruct b.
  - rewrite !append_cons. cbn [squeeze].
    destruct (is_slash c); [destruct b|]; by rewrite IH.
Qed.

Lemma public_path_of_audio e roundId ext :
  path_join [cwd e; "public"; "/audio/" ++ roundId ++ "." ++ ext]
  = audio_file_path e roundId ext.
Proof.
  unfold audio_file_path, AUDIO_DIR, path_join. cbn [join_with].
  rewrite squeeze_app_squeezed.
  change (cwd e ++ "/" ++ "public" ++ "/" ++ "/audio/" ++ roundId ++ "." ++ ext)
    with (cwd e ++ "/public" ++ String "/" (String "/" ("audio/" ++ roundId ++ "." ++ ext))).
  rewrite <- (string_app_assoc (cwd e) "/public"), squeeze_double_slash.
  rewrite !string_app_assoc. reflexivity.
Qed.

(** ** Runs in which storage and network do not fail *)

Lemma apply_patch_status_twice s1 s2 r :
  apply_patch (status_patch s2) (apply_patch (status_patch s1) r)
  = apply_patch (status_patch s2) r.
Proof. reflexivity. Qed.

Lemma bind_run {A B} (m : IO A) (k : A -> IO B) e w a w1 :
  m e w = (Ok a, w1) -> bind m k e w = k a e w1.
Proof. unfold bind. by intros ->. Qed.

Lemma bind_throws {A B} (m : IO A) (k : A -> IO B) e w t w1 :
  m e w = (Throw t, w1) -> bind m k e w = (Throw t, w1).
Proof. unfold bind. by intros ->. Qed.

Lemma try_catch_caught {A} (m : IO A) (h : Thrown -> IO A) e w t w1 :
  m e w = (Throw t, w1) -> try_catch m h e w = h t e w1.
Proof. unfold try_catch. by intros ->. Qed.

Lemma try_catch_passed {A} (m : IO A) (h : Thrown -> IO A) e w a w1 :
  m e w = (Ok a, w1) -> try_catch m h e w = (Ok a, w1).
Proof. unfold try_catch. by intros ->. Qed.

Lemma log_with_ok lvl msg fields e w :
  log_with lvl msg fields e w = (Ok tt, emit (EvLog lvl msg fields) w).
Proof. reflexivity. Qed.

Lemma getRound_ok roundId e w :
  fault e (clock w) = None ->
  getRound roundId e w = (Ok (rounds w !! roundId), tick (emit (EvGetRound roundId) w)).
Proof. intros Hf. unfold getRound, io. by rewrite Hf. Qed.

Lemma updateRound_ok roundId p e w r :
  fault e (clock w) = None ->
  rounds w !! roundId = Some r ->
  updateRound roundId p e w
  = (Ok (apply_patch p r),
     set_rounds (<[roundId := apply_patch p r]> (rounds w))
       (tick (emit (EvUpdateRound roundId p) w))).
Proof. intros Hf Hr. unfold updateRound, io. rewrite Hf. cbn. by rewrite Hr. Qed.

Lemma fs_readFile_ok path e w d :
  fault e (clock w) = None ->
  files w !! path = Some d ->
  fs_readFile path e w = (Ok (file_bytes e d), tick (emit (EvReadFile path) w)).
Proof. intros Hf Hd. unfold fs_readFile, io. rewrite Hf. cbn. by rewrite Hd. Qed.

Lemma transcribeFile_ok buffer opts e w :
  fault e (clock w) = None ->
  transcribeFile buffer opts e w
  = (Ok (provider e buffer opts), tick (emit (EvTranscribe buffer opts) w)).
Proof. intros Hf. unfold transcribeFile, io. by rewrite Hf. Qed.

(** With no fault scheduled, a configured key, a stored round and a present
    audio file, the [try] block gets as far as the provider's answer: the
    status has been written to PROCESSING, the file has been read and sent
    with the round's language, and what remains is [round_finish]. *)
Lemma round_try_reaches_provider roundId e w r i ext d :
  (forall n, fault e n = None) ->
  truthy (api_key e) = true ->
  rounds w !! roundId = Some r ->
  list_find (fun x => is_Some (files w !! audio_file_path e roundId x)) extensions
  = Some (i, ext) ->
  files w !! audio_file_path e roundId ext = Some d ->
  let lang := js_or (r_language r) "en" in
  let audioPath := "/audio/" ++ roundId ++ "." ++ ext in
  exists w3 fields,
    round_try roundId e w
    = round_finish roundId lang audioPath
        (provider e (file_bytes e d) (deepgram_options lang)) e w3 /\
    rounds w3 = <[roundId := apply_patch (status_patch PROCESSING) r]> (rounds w) /\
    files w3 = files w /\
    trace w3 = (trace w
                ++ [ EvGetRound roundId;
                     EvLog Info "Found audio file" [("audioPath", audioPath)];
                     EvUpdateRound roundId (status_patch PROCESSING);
                     EvReadFile (audio_file_path e roundId ext);
                     EvLog Info "Starting Deepgram transcription" fields;
                     EvTranscribe (file_bytes e d) (deepgram_options lang) ])%list.
Proof.
  intros Hfault Hkey Hround Hfind Hfile lang audioPath.
  unfold round_try.
  erewrite bind_run by (apply getRound_ok, Hfault).
  rewrite Hround. unfold round_found, audioFileExists.
  erewrite bind_run by apply audioFileExists_from_spec.
  unfold first_present. cbn [files tick emit]. rewrite Hfind. fold audioPath.
  erewrite bind_run by apply log_with_ok.
  unfold round_orchestrate.
  erewrite bind_run by (apply updateRound_ok; [apply Hfault | exact Hround]).
  erewrite bind_run by reflexivity. cbv zeta.
  unfold audioPath at 1. rewrite public_path_of_audio.
  erewrite bind_run by (apply fs_readFile_ok; [apply Hfault | exact Hfile]).
  erewrite bind_run by apply log_with_ok.
  rewrite Hkey. cbn [negb].
  erewrite bind_run by (apply transcribeFile_ok, Hfault).
  fold lang. fold audioPath.
  eexists _, _. split; [reflexivity|].
  cbn. rewrite <- !app_assoc. done.
Qed.

(** An answer without error and without results container makes
    [round_finish] throw before anything is built or written. *)
Lemma round_finish_rejects roundId lang audioPath reply e w :
  error reply = None ->
  (result reply = None \/ exists raw, result reply = Some raw /\ raw_results raw = None) ->
  exists msg w' logs,
    round_finish roundId lang audioPath reply e w
    = (Throw (ErrorObj msg (stack_of e msg)), w') /\
    (msg = "Deepgram API returned null result" \/
     msg = "Invalid response from Deepgram API") /\
    rounds w' = rounds w /\ files w' = files w /\ clock w' = clock w /\
    trace w' = (trace w ++ logs)%list /\
    Forall (fun ev => exists lvl m, ev = EvLog lvl m []) logs.
Proof.
  intros Herr Hres. unfold round_finish. rewrite Herr.
  destruct Hres as [-> | (raw & -> & ->)].
  - eexists _, _, [_]. split; [reflexivity|]. split; [by left|].
    cbn. repeat split; try done. repeat constructor; eauto.
  - eexists _, _, [_; _; _]. split; [reflexivity|]. split; [by right|].
    cbn. rewrite <- !app_assoc. repeat split; try done. repeat constructor; eauto.
Qed.

Lemma present_audio_found e w roundId ext0 :
  ext0 ∈ extensions ->
  is_Some (files w !! audio_file_path e roundId ext0) ->
  exists i ext d,
    list_find (fun x => is_Some (files w !! audio_file_path e roundId x)) extensions
    = Some (i, ext) /\
    files w !! audio_file_path e roundId ext = Some d.
Proof.
  intros Hin Hsome.
  destruct (list_find (fun x => is_Some (files w !! audio_file_path e roundId x))
              extensions) as [[i ext]|] eqn:Hfind.
  - pose proof Hfind as Hfind'.
    apply list_find_Some in Hfind' as (_ & [d Hd] & _). eauto.
  - apply list_find_None in Hfind. rewrite Forall_forall in Hfind.
    destruct (Hfind ext0 Hin Hsome).
Qed.

(** C4.  When storage does not fail and the provider answers without an
    error but without the results container (no result at all, or a result
    whose [results] key is missing), the round-specific route rejects the
    answer before building or writing anything: it responds 500, nothing is
    written to a file, every write to the round store carries a status only,
    and the stored round ends as it began except that its status is ERROR;
    in particular its audio reference is unchanged. *)
Theorem C4_response_without_results_marks_error
    (e : Env) (w : World) (roundId : string) (r : Round) (reply : ProviderReply) :
  (forall n, fault e n = None) ->
  truthy (api_key e) = true ->
  rounds w !! roundId = Some r ->
  (exists ext, ext ∈ extensions /\ is_Some (files w !! audio_file_path e roundId ext)) ->
  (forall buffer opts, provider e buffer opts = reply) ->
  error reply = None ->
  (result reply = None \/ exists raw, result reply = Some raw /\ raw_results raw = None) ->
  exists msg w' r',
    POST_round roundId e w = (Ok (error_response (ErrorObj msg (stack_of e msg))), w') /\
    (msg = "Deepgram API returned null result" \/
     msg = "Invalid response from Deepgram API") /\
    files w' = files w /\
    Forall status_only (new_events w w') /\
    rounds w' = <[roundId := apply_patch (status_patch ERROR) r]> (rounds w) /\
    rounds w' !! roundId = Some r' /\
    r_status r' = ERROR /\
    r_audio_file r' = r_audio_file r /\
    r_transcription_file r' = r_transcription_file r.
Proof.
  intros Hfault Hkey Hround (ext0 & Hin & Hsome) Hprov Herr Hres.
  destruct (present_audio_found e w roundId ext0 Hin Hsome) as (i & ext & d & Hfind & Hfile).
  destruct (round_try_reaches_provider roundId e w r i ext d
              Hfault Hkey Hround Hfind Hfile) as (w3 & fields & Htry & Hr3 & Hf3 & Ht3).
  rewrite Hprov in Htry.
  destruct (round_finish_rejects roundId (js_or (r_language r) "en")
              ("/audio/" ++ roundId ++ "." ++ ext) reply e w3 Herr Hres)
    as (msg & w4 & logs & Hfin & Hmsg & Hr4 & Hf4 & _ & Ht4 & Hlogs).
  rewrite Hfin in Htry.
  destruct (round_catch_spec roundId (ErrorObj msg (stack_of e msg)) e w4)
    as (w5 & lvl & m & Hcatch & Ht5 & Hf5 & _ & Hcase).
  assert (Hr4' : rounds w4 !! roundId = Some (apply_patch (status_patch PROCESSING) r))
    by (by rewrite Hr4, Hr3, lookup_insert_eq).
  destruct Hcase as [(_ & (r1 & Hr1 & Hr5) & _ & _) | ([[t Ht] | Hnone] & _)];
    [| by rewrite Hfault in Ht | by rewrite Hr4' in Hnone].
  rewrite Hr4' in Hr1. injection Hr1 as <-.
  rewrite Hr4, Hr3, insert_insert_eq, apply_patch_status_twice in Hr5.
  exists msg, w5, (apply_patch (status_patch ERROR) r).
  split; [unfold POST_round; by erewrite try_catch_caught by exact Htry|].
  split; [done|]. split; [by rewrite Hf5, Hf4, Hf3|].
  split; [|split; [done|]; split; [by rewrite Hr5, lookup_insert_eq | done]].
  erewrite new_events_app
    by (rewrite Ht5, Ht4, Ht3, <- !app_assoc; reflexivity).
  repeat (apply Forall_cons; split; [by (cbn; auto)|]).
  apply Forall_app. split.
  - eapply Forall_impl; [exact Hlogs|]. by intros ev (? & ? & ->).
  - repeat (apply Forall_cons; split; [by (cbn; auto)|]). by apply Forall_nil.
Qed.

Lemma C4_response_without_results_marks_error_witness :
  exists msg w' r',
    POST_round "r1" no_results_env (sample_world RECORDING)
    = (Ok (error_response (ErrorObj msg (stack_of no_results_env msg))), w') /\
    (msg = "Deepgram API returned null result" \/
     msg = "Invalid response from Deepgram API") /\
    files w' = files (sample_world RECORDING) /\
    Forall status_only (new_events (sample_world RECORDING) w') /\
    rounds w' = <["r1" := apply_patch (status_patch ERROR) (sample_round RECORDING)]>
                  (rounds (sample_world RECORDING)) /\
    rounds w' !! "r1" = Some r' /\
    r_status r' = ERROR /\
    r_audio_file r' = r_audio_file (sample_round RECORDING) /\
    r_transcription_file r' = r_transcription_file (sample_round RECORDING).
Proof.
  apply (C4_response_without_results_marks_error no_results_env
           (sample_world RECORDING) "r1" (sample_round RECORDING)
           (mkReply (Some (mkRaw "req-2" None)) None)).
  - reflexivity.
  - reflexivity.
  - vm_compute. reflexivity.
  - exists "webm". split; [unfold extensions; repeat constructor|].
    vm_compute. eauto.
  - reflexivity.
  - reflexivity.
  - right. eexists. split; reflexivity.
Defined.

(** ** Rejections before orchestration begins *)

Lemma round_not_found_run roundId e w :
  fault e (clock w) = None ->
  rounds w !! roundId = None ->
  POST_round roundId e w
  = (Ok (json (ErrorBody "Round not found" None) 404),
     emit (EvLog Warn "Round not found" []) (tick (emit (EvGetRound roundId) w))).
Proof.
  intros Hfault Hround. unfold POST_round.
  erewrite try_catch_passed; [reflexivity|].
  unfold round_try.
  erewrite bind_run by (apply getRound_ok, Hfault).
  rewrite Hround. reflexivity.
Qed.

Lemma audio_not_found_run roundId e w r :
  fault e (clock w) = None ->
  rounds w !! roundId = Some r ->
  (forall ext, ext ∈ extensions -> files w !! audio_file_path e roundId ext = None) ->
  POST_round roundId e w
  = (Ok (json (ErrorBody "Audio file not found. Recording may not have completed yet."
                 None) 404),
     emit (EvLog Warn "Audio file not found for round" [])
       (tick (emit (EvGetRound roundId) w))).
Proof.
  intros Hfault Hround Habsent. unfold POST_round.
  erewrite try_catch_passed; [reflexivity|].
  unfold round_try.
  erewrite bind_run by (apply getRound_ok, Hfault).
  rewrite Hround. unfold round_found, audioFileExists.
  erewrite bind_run by apply audioFileExists_from_spec.
  unfold first_present. cbn [files tick emit].
  destruct (list_find _ extensions) as [[i ext]|] eqn:Hfind; [|reflexivity].
  apply list_find_Some in Hfind as (Hi & [d Hd] & _).
  apply list_elem_of_lookup_2 in Hi. rewrite (Habsent _ Hi) in Hd. discriminate.
Qed.

(** C6 (amended).  When the round store answers, a trigger for an id with no
    stored round is answered 404 "Round not found", and a trigger for a
    stored round with no audio file under any of the four extensions is
    answered 404 as well, with the message "Audio file not found. Recording
    may not have completed yet."; in both cases the provider has not been
    called and nothing has been written: the round store and the files are
    as before, and the only effects are the read of the round and a
    warning in the log. *)
Theorem C6_rejected_before_orchestration (e : Env) (w : World) (roundId : string) :
  fault e (clock w) = None ->
  (rounds w !! roundId = None ->
   exists w',
     POST_round roundId e w = (Ok (json (ErrorBody "Round not found" None) 404), w') /\
     rounds w' = rounds w /\ files w' = files w /\
     new_events w w' = [ EvGetRound roundId; EvLog Warn "Round not found" [] ])
  /\
  (forall r,
     rounds w !! roundId = Some r ->
     (forall ext, ext ∈ extensions -> files w !! audio_file_path e roundId ext = None) ->
     exists w',
       POST_round roundId e w
       = (Ok (json (ErrorBody "Audio file not found. Recording may not have completed yet."
                      None) 404), w') /\
       rounds w' = rounds w /\ files w' = files w /\
       new_events w w' = [ EvGetRound roundId; EvLog Warn "Audio file not found for round" [] ]).
Proof.
  intros Hfault. split.
  - intros Hround. eexists. split; [by apply round_not_found_run|].
    split; [done|]. split; [done|].
    apply new_events_app. cbn. by rewrite <- app_assoc.
  - intros r Hround Habsent. eexists. split; [by eapply audio_not_found_run|].
    split; [done|]. split; [done|].
    apply new_events_app. cbn. by rewrite <- app_assoc.
Qed.

Lemma C6_rejected_before_orchestration_witness :
  (exists w',
      POST_round "r1" good_env empty_store_world
      = (Ok (json (ErrorBody "Round not found" None) 404), w') /\
      rounds w' = rounds empty_store_world /\ files w' = files empty_store_world /\
      new_events empty_store_world w' = [ EvGetRound "r1"; EvLog Warn "Round not found" [] ])
  /\
  (exists w',
      POST_round "r1" good_env no_audio_world
      = (Ok (json (ErrorBody "Audio file not found. Recording may not have completed yet."
                     None) 404), w') /\
      rounds w' = rounds no_audio_world /\ files w' = files no_audio_world /\
      new_events no_audio_world w'
      = [ EvGetRound "r1"; EvLog Warn "Audio file not found for round" [] ]).
Proof.
  split.
  - apply (C6_rejected_before_orchestration good_env empty_store_world "r1");
      reflexivity.
  - apply (proj2 (C6_rejected_before_orchestration good_env no_audio_world "r1" eq_refl)
             (sample_round RECORDING)).
    + vm_compute. reflexivity.
    + intros ext _. apply lookup_empty.
Defined.

(** C6, as the claim states it, fails: the round exists and has no audio
    file, and the answer is the same 404 that an unknown round gets, not a
    failure of another kind. *)
Lemma C6_counterexample :
  status_of no_audio_world "r1" = Some RECORDING /\
  body (response_of (POST_round "r1" good_env no_audio_world))
  = ErrorBody "Audio file not found. Recording may not have completed yet." None /\
  http_status (response_of (POST_round "r1" good_env no_audio_world)) = 404 /\
  http_status (response_of (POST_round "r1" good_env no_audio_world))
  = http_status (response_of (POST_round "r1" good_env empty_store_world)).
Proof. vm_compute. auto. Qed.

(** ** The trigger does not read the status *)

Lemma io_fault {A} (ev : Event) (act : IO A) e w t :
  fault e (clock w) = Some t -> io ev act e w = (Throw t, tick (emit ev w)).
Proof. intros Hf. unfold io. by rewrite Hf. Qed.

Lemma try_catch_bind_run {A B} (m : IO A) (k : A -> IO B) (h : Thrown -> IO B)
    e w a w1 :
  m e w = (Ok a, w1) -> try_catch (bind m k) h e w = try_catch (k a) h e w1.
Proof. intros Hm. unfold try_catch, bind. by rewrite Hm. Qed.

Lemma round_catch_agree roundId t e w1 w2 :
  clock w1 = clock w2 ->
  trace w1 = trace w2 ->
  is_Some (rounds w1 !! roundId) ->
  is_Some (rounds w2 !! roundId) ->
  agree (round_catch roundId t e w1) (round_catch roundId t e w2).
Proof.
  intros Hclock Htrace [r1 Hr1] [r2 Hr2].
  destruct (round_catch_spec roundId t e w1) as (w1' & lvl1 & m1 & -> & Ht1 & _ & _ & H1).
  destruct (round_catch_spec roundId t e w2) as (w2' & lvl2 & m2 & -> & Ht2 & _ & _ & H2).
  split; [done|]. cbn. rewrite Ht1, Ht2, Htrace. do 4 f_equal.
  destruct H1 as [(Hf1 & _ & -> & ->) | ([Hf1 | Hn1] & _ & -> & ->)];
    destruct H2 as [(Hf2 & _ & -> & ->) | ([Hf2 | Hn2] & _ & -> & ->)];
    try done; try congruence.
  - rewrite <- Hclock, Hf1 in Hf2. by destruct Hf2.
  - rewrite Hclock, Hf2 in Hf1. by destruct Hf1.
Qed.

(** The handler never reads the status: its response and the sequence of
    its effects are those it produces for the same round stored with any
    other status [s]. *)
Lemma POST_round_status_blind
    (e : Env) (w : World) (roundId : string) (r : Round) (s : RoundStatus) :
  rounds w !! roundId = Some r ->
  agree (POST_round roundId e w)
        (POST_round roundId e (set_rounds (<[roundId := with_status s r]> (rounds w)) w)).
Proof.
  intros Hround.
  set (w' := set_rounds (<[roundId := with_status s r]> (rounds w)) w).
  assert (Hround' : rounds w' !! roundId = Some (with_status s r))
    by apply lookup_insert_eq.
  unfold POST_round, round_try.
  destruct (fault e (clock w)) as [t|] eqn:Hfault.
  - (* the read of the round fails in both runs *)
    rewrite (try_catch_caught _ _ e w t (tick (emit (EvGetRound roundId) w)))
      by (apply bind_throws, io_fault, Hfault).
    rewrite (try_catch_caught _ _ e w' t (tick (emit (EvGetRound roundId) w')))
      by (apply bind_throws, io_fault, Hfault).
    apply round_catch_agree; cbn; eauto.
  - erewrite (try_catch_bind_run (getRound roundId) _ _ e w)
      by (apply getRound_ok, Hfault).
    erewrite (try_catch_bind_run (getRound roundId) _ _ e w')
      by (apply getRound_ok, Hfault).
    rewrite Hround, Hround'. unfold round_found, audioFileExists.
    erewrite !try_catch_bind_run by apply audioFileExists_from_spec.
    cbn [files tick emit set_rounds w'].
    destruct (first_present e (files w) roundId extensions) as [audioPath|];
      [|by split].
    erewrite !try_catch_bind_run by apply log_with_ok.
    change (round_orchestrate roundId (with_status s r) audioPath)
      with (round_orchestrate roundId r audioPath).
    unfold round_orchestrate.
    set (w1 := emit _ (tick (emit _ w))). set (w1' := emit _ (tick (emit _ w'))).
    destruct (fault e (clock w1)) as [t|] eqn:Hfault1.
    + (* the PROCESSING write fails in both runs *)
      rewrite (try_catch_caught _ _ e w1 t
                 (tick (emit (EvUpdateRound roundId (status_patch PROCESSING)) w1)))
        by (apply bind_throws, io_fault, Hfault1).
      rewrite (try_catch_caught _ _ e w1' t
                 (tick (emit (EvUpdateRound roundId (status_patch PROCESSING)) w1')))
        by (apply bind_throws, io_fault, Hfault1).
      apply round_catch_agree; cbn; eauto.
    + (* the PROCESSING write succeeds: from here on the worlds coincide *)
      erewrite (try_catch_bind_run (updateRound _ _) _ _ e w1)
        by (apply updateRound_ok; [exact Hfault1 | exact Hround]).
      erewrite (try_catch_bind_run (updateRound _ _) _ _ e w1')
        by (apply updateRound_ok; [exact Hfault1 | exact Hround']).
      cbn [rounds files body_used clock trace tick emit set_rounds w1 w1' w'].
      rewrite insert_insert_eq.
      change (apply_patch (status_patch PROCESSING) (with_status s r))
        with (apply_patch (status_patch PROCESSING) r).
      by split.
Qed.

(** ** The shape of every run *)

Lemma obeys_events_weaken {A} (Ev Ev' : Event -> Prop) (Q : A -> Prop) (m : IO A) :
  obeys Ev Q m -> (forall ev, Ev ev -> Ev' ev) -> obeys Ev' Q m.
Proof.
  intros Hm Himpl e w r w' H.
  destruct (Hm _ _ _ _ H) as ((evs & Ht & Hall) & Hb & Hq).
  split; [|done]. exists evs. split; [done|].
  eapply Forall_impl; [exact Hall | exact Himpl].
Qed.

(** The [try] block of the round-specific route: it reads the round, and
    then does on its behalf only what [allowed] lets it do, with the language
    of the round as it is stored when the run starts. *)
Lemma round_try_events (Ev : Event -> Prop) roundId e w r w1 :
  Ev (EvGetRound roundId) ->
  (forall lvl msg fields, Ev (EvLog lvl msg fields)) ->
  (forall round, rounds w !! roundId = Some round ->
     forall ev, allowed roundId (js_or (r_language round) "en") ev -> Ev ev) ->
  round_try roundId e w = (r, w1) ->
  (exists evs, trace w1 = (trace w ++ evs)%list /\ Forall Ev evs) /\
  (forall resp, r = Ok resp -> plain_response resp).
Proof.
  intros Hget Hlog Hallowed Hrun. unfold round_try, bind in Hrun.
  destruct (getRound roundId e w) as [[round|t] w0] eqn:Hread.
  - apply getRound_run in Hread as [-> [(t & _ & [=])|[_ [= ->]]]].
    destruct (rounds w !! roundId) as [round|] eqn:Hround.
    + pose proof (obeys_events_weaken _ Ev _ _ (obeys_round_found roundId round)
                    (Hallowed round eq_refl)) as Hobeys.
      destruct (Hobeys _ _ _ _ Hrun) as ((evs & Ht & Hall) & _ & Hq).
      split; [|done]. exists (EvGetRound roundId :: evs). split.
      * rewrite Ht. cbn. by rewrite <- app_assoc.
      * by apply Forall_cons.
    + unfold bind, log, log_with, ret in Hrun. cbn in Hrun. injection Hrun as <- <-.
      split.
      * eexists [_; _]. split; [cbn; by rewrite <- app_assoc|].
        repeat (apply Forall_cons; split; [done|]). by apply Forall_nil.
      * intros resp [= <-]. cbn. auto.
  - injection Hrun as <- <-.
    apply getRound_run in Hread as [-> _].
    split; [|intros ? [=]].
    exists [EvGetRound roundId]. split; [done|].
    apply Forall_cons. split; [done|]. by apply Forall_nil.
Qed.

(** Every run of the round-specific route ends in a response.  Either the
    [try] block returned it, and it carries no diagnostic detail; or the
    [try] block threw, the [catch] block attempted the ERROR write once,
    logged how the attempt went, and answered with the caught value. *)
Lemma POST_round_shape (Ev : Event -> Prop) roundId e w :
  Ev (EvGetRound roundId) ->
  (forall lvl msg fields, Ev (EvLog lvl msg fields)) ->
  (forall round, rounds w !! roundId = Some round ->
     forall ev, allowed roundId (js_or (r_language round) "en") ev -> Ev ev) ->
  exists resp w' evs,
    POST_round roundId e w = (Ok resp, w') /\
    Forall Ev evs /\
    ((plain_response resp /\ trace w' = (trace w ++ evs)%list)
     \/
     (exists t lvl msg,
        resp = error_response t /\
        trace w' = (trace w ++ evs ++ round_catch_events roundId lvl msg)%list /\
        ((lvl = Info /\ msg = "Updated round status to ERROR" /\
          status_of w' roundId = Some ERROR)
         \/ (lvl = Warn /\ msg = "Failed to update round status")))).
Proof.
  intros Hget Hlog Hallowed. unfold POST_round.
  destruct (round_try roundId e w) as [[resp|t] w1] eqn:Htry.
  - destruct (round_try_events Ev _ _ _ _ _ Hget Hlog Hallowed Htry)
      as ((evs & Ht & Hall) & Hplain).
    exists resp, w1, evs. split; [by apply try_catch_passed|]. split; [done|].
    left. split; [by apply Hplain | done].
  - destruct (round_try_events Ev _ _ _ _ _ Hget Hlog Hallowed Htry)
      as ((evs & Ht & Hall) & _).
    destruct (round_catch_spec roundId t e w1) as (w2 & lvl & msg & Hc & Ht2 & _ & _ & Hcase).
    exists (error_response t), w2, evs.
    split; [by erewrite try_catch_caught by exact Htry|]. split; [done|].
    right. exists t, lvl, msg. split; [done|].
    split; [by rewrite Ht2, Ht, <- app_assoc|].
    destruct Hcase as [(_ & (r1 & _ & Hr2) & -> & ->) | (_ & _ & -> & ->)].
    + left. split; [done|]. split; [done|].
      unfold status_of. by rewrite Hr2, lookup_insert_eq.
    + by right.
Qed.

(** Every run of the generic route ends in a response.  Either the [try]
    block returned it, and it carries no diagnostic detail; or the [try]
    block threw, and the [catch] block, unable to read the request a second
    time, logged a warning and answered with the caught value, attempting no
    write at all. *)
Lemma POST_generic_shape request e w :
  exists resp w' evs,
    POST_generic request e w = (Ok resp, w') /\
    Forall (allowed (form_roundId request) "en") evs /\
    ((plain_response resp /\ trace w' = (trace w ++ evs)%list)
     \/
     (exists t,
        resp = error_response t /\
        trace w' = (trace w ++ evs ++ generic_catch_events)%list)).
Proof.
  unfold POST_generic.
  destruct (generic_try request e w) as [[resp|t] w1] eqn:Htry.
  - destruct (obeys_generic_try request _ _ _ _ Htry) as ((evs & Ht & Hall) & _ & Hplain).
    exists resp, w1, evs. split; [by apply try_catch_passed|]. split; [done|].
    left. split; [by apply Hplain | done].
  - destruct (obeys_generic_try request _ _ _ _ Htry) as ((evs & Ht & Hall) & _ & _).
    pose proof (generic_try_reads_body _ _ _ _ _ Htry) as Hused.
    destruct (generic_catch_body_read request t e w1 Hused) as (w2 & Hc & Ht2 & _).
    exists (error_response t), w2, evs.
    split; [by erewrite try_catch_caught by exact Htry|]. split; [done|].
    right. exists t. split; [done|]. by rewrite Ht2, Ht, <- app_assoc.
Qed.

(** ** Counting status writes *)

Lemma count_events_app (P : Event -> bool) (l1 l2 : list Event) :
  count_events P (l1 ++ l2) = count_events P l1 + count_events P l2.
Proof. unfold count_events. by rewrite filter_app, length_app. Qed.

Lemma count_events_none (P : Event -> bool) (l : list Event) :
  Forall (fun ev => P ev = false) l -> count_events P l = 0.
Proof.
  unfold count_events. induction 1 as [|ev l Hev _ IH]; [done|].
  rewrite filter_cons_False by congruence. exact IH.
Qed.

Lemma allowed_not_error roundId lang ev :
  allowed roundId lang ev -> is_update_to ERROR ev = false.
Proof.
  destruct ev; try done. cbn. intros (_ & [Hp | Hp]); rewrite Hp; done.
Qed.

(** The round-specific route does what C3 asks: whenever it answers 500, it
    has attempted the ERROR write exactly once, after everything else, and
    the answer is made from the caught value whether or not the write
    succeeded. *)
Lemma round_route_marks_error_once roundId e w :
  exists resp w',
    POST_round roundId e w = (Ok resp, w') /\
    (http_status resp = 500 ->
     count_events (is_update_to ERROR) (new_events w w') = 1 /\
     exists t, resp = error_response t).
Proof.
  destruct (POST_round_shape (fun ev => is_update_to ERROR ev = false) roundId e w)
    as (resp & w' & evs & Hrun & Hall & Hshape); [done | done | |].
  { intros round _ ev. apply allowed_not_error. }
  exists resp, w'. split; [done|]. intros Hstatus.
  destruct Hshape as [[Hplain _] | (t & lvl & msg & -> & Ht & _)].
  - by apply plain_response_status in Hplain.
  - split; [|eauto]. rewrite (new_events_app _ _ _ Ht), count_events_app.
    by rewrite (count_events_none _ _ Hall).
Qed.

(** The generic route does not: no run of it ever attempts an ERROR write. *)
Lemma generic_route_never_writes_error request e w :
  exists resp w',
    POST_generic request e w = (Ok resp, w') /\
    count_events (is_update_to ERROR) (new_events w w') = 0.
Proof.
  destruct (POST_generic_shape request e w) as (resp & w' & evs & Hrun & Hall & Hshape).
  exists resp, w'. split; [done|].
  assert (Hnone : count_events (is_update_to ERROR) evs = 0).
  { apply count_events_none. eapply Forall_impl; [exact Hall|].
    intros ev. apply allowed_not_error. }
  destruct Hshape as [[_ Ht] | (t & _ & Ht)].
  - by rewrite (new_events_app _ _ _ Ht).
  - by rewrite (new_events_app _ _ _ Ht), count_events_app, Hnone.
Qed.

(** C3, at the failing input.  The provider refuses a call made through the
    generic route for the stored round "r1": the route answers 500 with the
    provider's message, but its [catch] block cannot read the round id again
    from the consumed request, so it attempts no ERROR write, logs the
    warning, and leaves the round in PROCESSING.  The same failure through
    the round-specific route is followed by exactly one ERROR write, also
    when that write fails. *)
Theorem C3_generic_route_skips_error_write :
  let generic := POST_generic sample_request refusing_env (sample_world RECORDING) in
  let specific := POST_round "r1" refusing_env (sample_world RECORDING) in
  let specific_down := POST_round "r1" refusing_env_store_down (sample_world RECORDING) in
  (body (response_of generic)
   = ErrorBody "Deepgram API error: Unauthorized"
       (Some "Error: Deepgram API error: Unauthorized at POST (route.ts)") /\
   http_status (response_of generic) = 500 /\
   count_events (is_update_to PROCESSING) (trace (snd generic)) = 1 /\
   count_events (is_update_to ERROR) (trace (snd generic)) = 0 /\
   last (trace (snd generic)) = Some (EvLog Warn "Failed to update round status" []) /\
   status_of (snd generic) "r1" = Some PROCESSING)
  /\
  (http_status (response_of specific) = 500 /\
   count_events (is_update_to ERROR) (trace (snd specific)) = 1 /\
   status_of (snd specific) "r1" = Some ERROR)
  /\
  (response_of specific_down = response_of specific /\
   count_events (is_update_to ERROR) (trace (snd specific_down)) = 1 /\
   last (trace (snd specific_down)) = Some (EvLog Warn "Failed to update round status" []) /\
   status_of (snd specific_down) "r1" = Some PROCESSING).
Proof. vm_compute. repeat split; reflexivity. Qed.

(** ** What a failure response carries *)

(** C8 (amended).  Every run of either route ends in a response.  When the
    [try] block returns, the response is the one it returned (200, 400 or
    404) and carries no diagnostic detail: a failure among them is an error
    message and nothing else.  When the [try] block throws, the response is
    the 500 response made in the [catch] block from the very value thrown:
    when that value is an Error object, the body carries its message and,
    under [details], its stack trace; only for a value that is not an Error
    object is the body the message "Transcription failed" alone. *)
Theorem C8_only_500_carries_stack :
  (forall roundId e w,
      exists resp w',
        POST_round roundId e w = (Ok resp, w') /\
        match fst (round_try roundId e w) with
        | Ok returned => resp = returned /\ plain_response resp
        | Throw (ErrorObj message stack) =>
            resp = json (ErrorBody message (Some stack)) 500
        | Throw (NonError _) =>
            resp = json (ErrorBody "Transcription failed" None) 500
        end)
  /\
  (forall request e w,
      exists resp w',
        POST_generic request e w = (Ok resp, w') /\
        match fst (generic_try request e w) with
        | Ok returned => resp = returned /\ plain_response resp
        | Throw (ErrorObj message stack) =>
            resp = json (ErrorBody message (Some stack)) 500
        | Throw (NonError _) =>
            resp = json (ErrorBody "Transcription failed" None) 500
        end).
Proof.
  split.
  - intros roundId e w. unfold POST_round.
    destruct (round_try roundId e w) as [[returned|t] w1] eqn:Htry; cbn [fst].
    + exists returned, w1. split; [by apply try_catch_passed|]. split; [done|].
      destruct (round_try_events (fun _ => True) _ _ _ _ _ I (fun _ _ _ => I)
                  (fun _ _ _ _ => I) Htry) as (_ & Hplain).
      by apply Hplain.
    + destruct (round_catch_spec roundId t e w1) as (w2 & lvl & msg & Hc & _).
      exists (error_response t), w2.
      split; [by erewrite try_catch_caught by exact Htry|]. by destruct t.
  - intros request e w. unfold POST_generic.
    destruct (generic_try request e w) as [[returned|t] w1] eqn:Htry; cbn [fst].
    + exists returned, w1. split; [by apply try_catch_passed|]. split; [done|].
      destruct (obeys_generic_try request _ _ _ _ Htry) as (_ & _ & Hplain).
      by apply Hplain.
    + pose proof (generic_try_reads_body _ _ _ _ _ Htry) as Hused.
      destruct (generic_catch_body_read request t e w1 Hused) as (w2 & Hc & _).
      exists (error_response t), w2.
      split; [by erewrite try_catch_caught by exact Htry|]. by destruct t.
Qed.

(** C8, as the claim states it, fails: the provider refuses the call, and
    the 500 response of either route carries the stack trace of the error in
    its body. *)
Lemma C8_counterexample :
  body (response_of (POST_round "r1" refusing_env (sample_world RECORDING)))
  = ErrorBody "Deepgram API error: Unauthorized"
      (Some "Error: Deepgram API error: Unauthorized at POST (route.ts)")
  /\
  body (response_of (POST_generic sample_request refusing_env (sample_world RECORDING)))
  = ErrorBody "Deepgram API error: Unauthorized"
      (Some "Error: Deepgram API error: Unauthorized at POST (route.ts)").
Proof. vm_compute. split; reflexivity. Qed.

(** ** The language sent to the provider *)

Lemma js_or_set (l d : string) : l ≠ "" -> js_or (Some l) d = l.
Proof.
  intros Hl. unfold js_or. destruct (String.eqb l "") eqn:Heq; [|done].
  by apply String.eqb_eq in Heq.
Qed.

Lemma allowed_transcribe roundId lang buffer o :
  allowed roundId lang (EvTranscribe buffer o) -> o = deepgram_options lang.
Proof. done. Qed.

(** ** A provider failure that reaches the handler *)

(** When the provider call comes back with an error (a refusal, or a
    time-out that the client library reports) and storage does not fail, the
    round-specific route answers 500 with the provider's message and the
    round ends in ERROR.  The route itself sets no deadline on the call:
    [maxDuration] is a limit the hosting platform applies to the whole
    handler. *)
Lemma provider_error_marks_error
    (e : Env) (w : World) (roundId : string) (r : Round) (reply : ProviderReply)
    (err : ProviderError) :
  (forall n, fault e n = None) ->
  truthy (api_key e) = true ->
  rounds w !! roundId = Some r ->
  (exists ext, ext ∈ extensions /\ is_Some (files w !! audio_file_path e roundId ext)) ->
  (forall buffer opts, provider e buffer opts = reply) ->
  error reply = Some err ->
  exists msg w',
    msg = "Deepgram API error: " ++ js_or (pe_message err) (pe_repr err) /\
    POST_round roundId e w = (Ok (error_response (ErrorObj msg (stack_of e msg))), w') /\
    status_of w' roundId = Some ERROR /\
    maxDuration = 5 * 60.
Proof.
  intros Hfault Hkey Hround (ext0 & Hin & Hsome) Hprov Herr.
  destruct (present_audio_found e w roundId ext0 Hin Hsome) as (i & ext & d & Hfind & Hfile).
  destruct (round_try_reaches_provider roundId e w r i ext d
              Hfault Hkey Hround Hfind Hfile) as (w3 & fields & Htry & Hr3 & _ & _).
  rewrite Hprov in Htry. unfold round_finish in Htry. rewrite Herr in Htry.
  unfold bind, log, log_with, throw_new_Error, new_Error, throw in Htry. cbn in Htry.
  set (w4 := emit _ w3) in Htry.
  destruct (round_catch_spec roundId
              (ErrorObj ("Deepgram API error: " ++ js_or (pe_message err) (pe_repr err))
                 (stack_of e ("Deepgram API error: " ++ js_or (pe_message err) (pe_repr err))))
              e w4)
    as (w5 & lvl & m & Hcatch & _ & _ & _ & Hcase).
  assert (Hr4 : rounds w4 !! roundId = Some (apply_patch (status_patch PROCESSING) r))
    by (cbn; by rewrite Hr3, lookup_insert_eq).
  destruct Hcase as [(_ & (r1 & _ & Hr5) & _ & _) | ([[t Ht] | Hnone] & _)];
    [| by rewrite Hfault in Ht | by rewrite Hr4 in Hnone].
  eexists _, w5. split; [reflexivity|].
  split; [unfold POST_round; by erewrite try_catch_caught by exact Htry|].
  split; [|done]. unfold status_of. by rewrite Hr5, lookup_insert_eq.
Qed.

(** * Further properties of the code *)

(** ** A logic of runs in one environment *)

Lemma runs_ret {A} e (R : World -> World -> Prop) (Q : A -> Prop) (a : A) :
  (forall w, R w w) -> Q a -> runs e R Q (ret a).
Proof. intros Hrefl Ha w r w' [= <- <-]. split; [done|]. by intros ? [= <-]. Qed.

Lemma runs_throw {A} e (R : World -> World -> Prop) (Q : A -> Prop) (t : Thrown) :
  (forall w, R w w) -> runs e R Q (throw t).
Proof. intros Hrefl w r w' [= <- <-]. split; [done|]. intros ? [=]. Qed.

Lemma runs_throw_new_Error {A} e (R : World -> World -> Prop) (Q : A -> Prop) msg :
  (forall w, R w w) -> runs e R Q (throw_new_Error msg).
Proof. intros Hrefl w r w' [= <- <-]. split; [done|]. intros ? [=]. Qed.

Lemma runs_ask e (R : World -> World -> Prop) :
  (forall w, R w w) -> runs e R (fun e' => e' = e) ask.
Proof. intros Hrefl w r w' [= <- <-]. split; [done|]. by intros ? [= <-]. Qed.

Lemma runs_bind_gen {A B} e (R1 R2 R : World -> World -> Prop)
    (P : A -> Prop) (Q : B -> Prop) (m : IO A) (k : A -> IO B) :
  (forall w1 w2 w3, R1 w1 w2 -> R2 w2 w3 -> R w1 w3) ->
  (forall w1 w2, R1 w1 w2 -> R w1 w2) ->
  runs e R1 P m -> (forall a, P a -> runs e R2 Q (k a)) -> runs e R Q (bind m k).
Proof.
  intros Hcomp Hleft Hm Hk w r w' H. unfold bind in H.
  destruct (m e w) as [[a|t] w1] eqn:Hrun; destruct (Hm _ _ _ Hrun) as [HR1 HP].
  - destruct (Hk a (HP a eq_refl) _ _ _ H) as [HR2 HQ]. split; [eauto | done].
  - injection H as <- <-. split; [auto|]. intros ? [=].
Qed.

Lemma runs_bind {A B} e (R : World -> World -> Prop)
    (P : A -> Prop) (Q : B -> Prop) (m : IO A) (k : A -> IO B) :
  (forall w1 w2 w3, R w1 w2 -> R w2 w3 -> R w1 w3) ->
  runs e R P m -> (forall a, P a -> runs e R Q (k a)) -> runs e R Q (bind m k).
Proof. intros Htrans. by apply runs_bind_gen. Qed.

Lemma runs_try_catch_gen {A} e (R1 R2 R : World -> World -> Prop) (Q : A -> Prop)
    (m : IO A) (h : Thrown -> IO A) :
  (forall w1 w2 w3, R1 w1 w2 -> R2 w2 w3 -> R w1 w3) ->
  (forall w1 w2, R1 w1 w2 -> R w1 w2) ->
  runs e R1 Q m -> (forall t, runs e R2 Q (h t)) -> runs e R Q (try_catch m h).
Proof.
  intros Hcomp Hleft Hm Hh w r w' H. unfold try_catch in H.
  destruct (m e w) as [[a|t] w1] eqn:Hrun; destruct (Hm _ _ _ Hrun) as [HR1 HQ].
  - injection H as <- <-. split; [auto | done].
  - destruct (Hh t _ _ _ H) as [HR2 HQ2]. split; [eauto | done].
Qed.

Lemma runs_try_catch {A} e (R : World -> World -> Prop) (Q : A -> Prop)
    (m : IO A) (h : Thrown -> IO A) :
  (forall w1 w2 w3, R w1 w2 -> R w2 w3 -> R w1 w3) ->
  runs e R Q m -> (forall t, runs e R Q (h t)) -> runs e R Q (try_catch m h).
Proof. intros Htrans. by apply runs_try_catch_gen. Qed.

Lemma runs_weaken {A} e (R R' : World -> World -> Prop) (P Q : A -> Prop) (m : IO A) :
  runs e R P m -> (forall w w', R w w' -> R' w w') -> (forall a, P a -> Q a) ->
  runs e R' Q m.
Proof.
  intros Hm HR HQ w r w' H. destruct (Hm _ _ _ H) as [H1 H2].
  split; [auto|]. intros a Ha. apply HQ, H2, Ha.
Qed.

(** ** The provider is called at most once, and not at all without a key *)

Lemma calls_refl n w : calls n w w.
Proof. exists []. rewrite app_nil_r. split; [done|]. cbn. lia. Qed.

Lemma calls_compose n1 n2 w1 w2 w3 :
  calls n1 w1 w2 -> calls n2 w2 w3 -> calls (n1 + n2) w1 w3.
Proof.
  intros (evs1 & Ht1 & Hc1) (evs2 & Ht2 & Hc2).
  exists (evs1 ++ evs2)%list. rewrite Ht2, Ht1, app_assoc. split; [done|].
  rewrite count_events_app. lia.
Qed.

Lemma calls_mono n n' w w' : n <= n' -> calls n w w' -> calls n' w w'.
Proof. intros Hle (evs & Ht & Hc). exists evs. split; [done | lia]. Qed.

(** What only performs events other than provider calls makes no call. *)
Lemma runs_quiet_of_obeys {A} e (Q : A -> Prop) (m : IO A) :
  obeys not_transcribe Q m -> runs e (calls 0) Q m.
Proof.
  intros Hm w r w' H. destruct (Hm _ _ _ _ H) as ((evs & Ht & Hall) & _ & HQ).
  split; [|done]. exists evs. split; [done|].
  by rewrite (count_events_none is_transcribe evs Hall).
Qed.

Lemma runs_bind_quiet_first {A B} e n (P : A -> Prop) (Q : B -> Prop)
    (m : IO A) (k : A -> IO B) :
  runs e (calls 0) P m -> (forall a, P a -> runs e (calls n) Q (k a)) ->
  runs e (calls n) Q (bind m k).
Proof.
  apply runs_bind_gen.
  - intros w1 w2 w3 H1 H2. exact (calls_compose 0 n _ _ _ H1 H2).
  - intros w1 w2. apply calls_mono. lia.
Qed.

Lemma runs_transcribeFile e buffer opts :
  runs e (calls 1) (fun _ => True) (transcribeFile buffer opts).
Proof.
  intros w r w' H.
  destruct (obeys_transcribeFile (fun _ => True) buffer opts I _ _ _ _ H)
    as ((evs & Ht & _) & _ & _).
  split; [|done]. exists evs. split; [done|].
  unfold transcribeFile in H.
  apply io_inv in H as [(t & _ & _ & ->) | [_ [= _ <-]]];
    cbn in Ht; apply app_inv_head in Ht as <-; compute; lia.
Qed.

#[local] Hint Extern 1 (not_transcribe _) => reflexivity : obeys_db.

Lemma obeys_quiet_saveTranscription roundId raw d :
  obeys not_transcribe (fun _ => True) (saveTranscription roundId raw d).
Proof. apply obeys_saveTranscription; intros; reflexivity. Qed.

Lemma obeys_quiet_round_finish roundId lang audioPath reply :
  obeys not_transcribe (fun _ => True) (round_finish roundId lang audioPath reply).
Proof.
  unfold round_finish.
  pose proof (obeys_quiet_saveTranscription roundId) as Hsave.
  repeat obeys_step; eauto with obeys_db.
Qed.

Lemma obeys_quiet_generic_finish roundId filename reply :
  obeys not_transcribe (fun _ => True) (generic_finish roundId filename reply).
Proof.
  unfold generic_finish.
  pose proof (obeys_quiet_saveTranscription roundId) as Hsave.
  repeat obeys_step; eauto with obeys_db.
Qed.

(** A bind whose first part makes no provider call. *)
Tactic Notation "quiet_bind" "as" ident(x) :=
  eapply runs_bind_quiet_first;
  [ first [ apply runs_ask; apply calls_refl
          | apply runs_quiet_of_obeys; solve [eauto with obeys_db] ]
  | intros x ?; cbv beta in * ].

Ltac quiet_bind := let x := fresh "x" in quiet_bind as x.

Lemma round_orchestrate_calls e roundId round audioPath :
  runs e (calls (key_calls e)) (needs_key e) (round_orchestrate roundId round audioPath).
Proof.
  unfold round_orchestrate. cbv zeta.
  quiet_bind. quiet_bind as e'. subst e'. quiet_bind. quiet_bind.
  unfold key_calls, needs_key. destruct (truthy (api_key e)) eqn:Hkey; cbn [negb].
  - eapply (runs_bind_gen e (calls 1) (calls 0) (calls 1)).
    + intros w1 w2 w3 Hc1 Hc2. exact (calls_compose 1 0 _ _ _ Hc1 Hc2).
    + done.
    + apply runs_transcribeFile.
    + intros reply _. eapply runs_weaken.
      * apply runs_quiet_of_obeys, obeys_quiet_round_finish.
      * done.
      * intros resp _ [=].
  - apply runs_throw_new_Error, calls_refl.
Qed.

Lemma generic_orchestrate_calls e roundId audioFile filename :
  runs e (calls (key_calls e)) (needs_key e)
       (generic_orchestrate roundId audioFile filename).
Proof.
  unfold generic_orchestrate. cbv zeta.
  quiet_bind. quiet_bind as e'. subst e'.
  unfold key_calls, needs_key. destruct (truthy (api_key e)) eqn:Hkey; cbn [negb].
  - quiet_bind.
    eapply (runs_bind_gen e (calls 1) (calls 0) (calls 1)).
    + intros w1 w2 w3 Hc1 Hc2. exact (calls_compose 1 0 _ _ _ Hc1 Hc2).
    + done.
    + apply runs_transcribeFile.
    + intros reply _. eapply runs_weaken.
      * apply runs_quiet_of_obeys, obeys_quiet_generic_finish.
      * done.
      * intros resp _ [=].
  - apply runs_throw_new_Error, calls_refl.
Qed.

Lemma runs_quiet_ret_response e n (resp : Response) :
  http_status resp ≠ 200 -> runs e (calls n) (needs_key e) (ret resp).
Proof. intros Hs. apply runs_ret; [apply calls_refl | by intros _]. Qed.

Lemma round_try_calls e roundId :
  runs e (calls (key_calls e)) (needs_key e) (round_try roundId).
Proof.
  unfold round_try. quiet_bind as found.
  destruct found as [round|].
  - unfold round_found. quiet_bind as path. destruct path as [audioPath|].
    + quiet_bind. apply round_orchestrate_calls.
    + quiet_bind. by apply runs_quiet_ret_response.
  - quiet_bind. by apply runs_quiet_ret_response.
Qed.

Lemma round_catch_calls e n roundId t :
  runs e (calls n) (needs_key e) (round_catch roundId t).
Proof.
  intros w r w' H.
  destruct (round_catch_spec roundId t e w) as (w2 & lvl & msg & Hc & Ht & _).
  rewrite Hc in H. injection H as <- <-. split.
  - eexists. split; [exact Ht|]. compute. lia.
  - intros resp [= <-] _. by rewrite error_response_status.
Qed.

Lemma generic_try_calls e request :
  runs e (calls (key_calls e)) (needs_key e) (generic_try request).
Proof.
  unfold generic_try.
  apply runs_bind_quiet_first with (P := fun _ => True).
  { apply runs_quiet_of_obeys.
    eapply obeys_events_weaken with (Ev := fun _ => False).
    - intros e0 w r w' H.
      destruct (obeys_request_formData (fun _ => False) request _ _ _ _ H)
        as (Hev & Hb & _). done.
    - done. }
  intros f _. unfold generic_with_form. cbv zeta.
  destruct (fd_audio f) as [audioFile|].
  - destruct (negb (truthy (fd_roundId f))).
    + quiet_bind. by apply runs_quiet_ret_response.
    + apply generic_orchestrate_calls.
  - quiet_bind. by apply runs_quiet_ret_response.
Qed.

Lemma obeys_request_clone_formData (Ev : Event -> Prop) request :
  obeys Ev (fun f => req_form request = Some f) (request_clone_formData request).
Proof.
  intros e w r w' H.
  unfold request_clone_formData, parse_form, throw_new_Error, new_Error, bind,
    throw, ret in H.
  destruct (body_used w) eqn:Hused; [|destruct (req_form request) as [f|]];
    injection H as <- <-;
    (split; [exists []; by rewrite app_nil_r|]); (split; [done|]);
    intros ? [=]; congruence.
Qed.

Lemma obeys_quiet_generic_catch request t :
  obeys not_transcribe (fun resp => resp = error_response t) (generic_catch request t).
Proof.
  unfold generic_catch.
  eapply obeys_bind; [solve [eauto with obeys_db]|]. intros _ _.
  eapply obeys_bind with (P := fun _ => True); [|intros; by apply obeys_ret].
  apply obeys_try_catch; [|intros; eauto with obeys_db].
  eapply obeys_bind; [apply obeys_request_clone_formData|].
  intros f _. cbv zeta. destruct (truthy (fd_roundId f)).
  - repeat obeys_step; eauto with obeys_db.
  - by apply obeys_ret.
Qed.

Lemma generic_catch_calls e n request t :
  runs e (calls n) (needs_key e) (generic_catch request t).
Proof.
  eapply runs_weaken.
  - apply runs_quiet_of_obeys, obeys_quiet_generic_catch.
  - intros w w'. apply calls_mono. lia.
  - intros resp -> _. by rewrite error_response_status.
Qed.

Lemma calls_key_compose e w1 w2 w3 :
  calls (key_calls e) w1 w2 -> calls 0 w2 w3 -> calls (key_calls e) w1 w3.
Proof.
  intros H1 H2. pose proof (calls_compose _ _ _ _ _ H1 H2) as H.
  by rewrite Nat.add_0_r in H.
Qed.

(** The provider is called at most once in a run of either route: no failure
    makes a route call it again.  Without a configured API key it is not
    called at all, and the run does not answer 200. *)
Theorem provider_called_at_most_once :
  (forall roundId e w r w',
      POST_round roundId e w = (r, w') ->
      count_events is_transcribe (new_events w w') <= 1 /\
      (truthy (api_key e) = false ->
       count_events is_transcribe (new_events w w') = 0 /\
       forall resp, r = Ok resp -> http_status resp ≠ 200))
  /\
  (forall request e w r w',
      POST_generic request e w = (r, w') ->
      count_events is_transcribe (new_events w w') <= 1 /\
      (truthy (api_key e) = false ->
       count_events is_transcribe (new_events w w') = 0 /\
       forall resp, r = Ok resp -> http_status resp ≠ 200)).
Proof.
  assert (Hsum : forall e w r w' (m : IO Response),
             runs e (calls (key_calls e)) (needs_key e) m ->
             m e w = (r, w') ->
             count_events is_transcribe (new_events w w') <= 1 /\
             (truthy (api_key e) = false ->
              count_events is_transcribe (new_events w w') = 0 /\
              forall resp, r = Ok resp -> http_status resp ≠ 200)).
  { intros e w r w' m Hm Hrun.
    destruct (Hm _ _ _ Hrun) as ((evs & Ht & Hc) & HQ).
    rewrite (new_events_app _ _ _ Ht). unfold key_calls in Hc.
    destruct (truthy (api_key e)) eqn:Hkey.
    - split; [done | intros [=]].
    - split; [lia|]. intros _. split; [lia|]. intros resp Hr. by apply HQ. }
  split.
  - intros roundId e w r w'. apply Hsum. unfold POST_round.
    apply (runs_try_catch_gen e (calls (key_calls e)) (calls 0) (calls (key_calls e))).
    + apply calls_key_compose.
    + done.
    + apply round_try_calls.
    + intros t. apply round_catch_calls.
  - intros request e w r w'. apply Hsum. unfold POST_generic.
    apply (runs_try_catch_gen e (calls (key_calls e)) (calls 0) (calls (key_calls e))).
    + apply calls_key_compose.
    + done.
    + apply generic_try_calls.
    + intros t. apply generic_catch_calls.
Qed.

(** ** A run touches only its own round and that round's transcript files *)

Lemma touches_only_refl e roundId w : touches_only e roundId w w.
Proof. by repeat split. Qed.

Lemma touches_only_trans e roundId w1 w2 w3 :
  touches_only e roundId w1 w2 -> touches_only e roundId w2 w3 ->
  touches_only e roundId w1 w3.
Proof.
  intros (Ho1 & Hn1 & Hd1 & Hl1 & Hf1) (Ho2 & Hn2 & Hd2 & Hl2 & Hf2).
  split; [intros j Hj; by rewrite Ho2, Ho1|].
  split; [congruence|]. split; [congruence|]. split; [congruence|].
  intros p Hp1 Hp2. by rewrite Hf2, Hf1.
Qed.

Lemma touches_only_same_store e roundId w w' :
  rounds w' = rounds w -> files w' = files w -> touches_only e roundId w w'.
Proof. intros Hr Hf. unfold touches_only. rewrite Hr, Hf. by repeat split. Qed.

Lemma runs_same_store_of_obeys {A} e roundId (Ev : Event -> Prop) (Q : A -> Prop)
    (m : IO A) :
  (forall e w r w', m e w = (r, w') -> rounds w' = rounds w /\ files w' = files w) ->
  obeys Ev Q m -> runs e (touches_only e roundId) Q m.
Proof.
  intros Hsame Hm w r w' H. destruct (Hsame _ _ _ _ H) as [Hr Hf].
  destruct (Hm _ _ _ _ H) as (_ & _ & HQ).
  split; [by apply touches_only_same_store | done].
Qed.

Lemma runs_frame_log e roundId lvl msg fields :
  runs e (touches_only e roundId) (fun _ => True) (log_with lvl msg fields).
Proof. intros w r w' [= <- <-]. split; [by apply touches_only_same_store | done]. Qed.

Lemma runs_frame_getRound e roundId j :
  runs e (touches_only e roundId) (fun _ => True) (getRound j).
Proof.
  intros w r w' H. apply getRound_run in H as [-> _].
  split; [by apply touches_only_same_store | done].
Qed.

Lemma runs_frame_fs_mkdir e roundId path :
  runs e (touches_only e roundId) (fun _ => True) (fs_mkdir path).
Proof.
  intros w r w' H. unfold fs_mkdir in H.
  apply io_inv in H as [(t & _ & _ & ->) | [_ [= _ <-]]];
    (split; [by apply touches_only_same_store | done]).
Qed.

Lemma runs_frame_fs_readFile e roundId path :
  runs e (touches_only e roundId) (fun _ => True) (fs_readFile path).
Proof.
  intros w r w' H. unfold fs_readFile in H.
  apply io_inv in H as [(t & _ & _ & ->) | [_ H]].
  - split; [by apply touches_only_same_store | done].
  - destruct (files _ !! path); injection H as <- <-;
      (split; [by apply touches_only_same_store | done]).
Qed.

Lemma runs_frame_transcribeFile e roundId buffer opts :
  runs e (touches_only e roundId) (fun _ => True) (transcribeFile buffer opts).
Proof.
  intros w r w' H. unfold transcribeFile in H.
  apply io_inv in H as [(t & _ & _ & ->) | [_ [= _ <-]]];
    (split; [by apply touches_only_same_store | done]).
Qed.

Lemma runs_frame_audioFileExists e roundId j :
  runs e (touches_only e roundId) (fun _ => True) (audioFileExists j).
Proof.
  intros w r w' H. unfold audioFileExists in H.
  rewrite audioFileExists_from_spec in H. injection H as <- <-.
  split; [apply touches_only_refl | done].
Qed.

Lemma runs_frame_createDeliberationOntology e roundId raw filename lang :
  runs e (touches_only e roundId) (fun _ => True)
       (createDeliberationOntology raw filename lang).
Proof.
  intros w r w' H. unfold createDeliberationOntology in H.
  destruct (build raw filename lang); injection H as <- <-;
    (split; [apply touches_only_refl | done]).
Qed.

(** A write to the round store changes the status, the file references and
    the derived numbers of the one round it names. *)
Lemma runs_frame_updateRound e roundId p :
  runs e (touches_only e roundId) (fun _ => True) (updateRound roundId p).
Proof.
  intros w r w' H. unfold updateRound in H.
  apply io_inv in H as [(t & _ & _ & ->) | [_ H]].
  - split; [by apply touches_only_same_store | done].
  - cbn in H. destruct (rounds w !! roundId) as [r0|] eqn:Hr0; injection H as <- <-.
    + split; [|done]. unfold touches_only. cbn.
      rewrite lookup_insert_eq, Hr0. cbn.
      split; [intros j Hj; by rewrite lookup_insert_ne|]. done.
    + split; [by apply touches_only_same_store | done].
Qed.

Lemma runs_frame_fs_writeFile e roundId path d :
  path = raw_path e roundId \/ path = deliberation_path e roundId ->
  runs e (touches_only e roundId) (fun _ => True) (fs_writeFile path d).
Proof.
  intros Hpath w r w' H. unfold fs_writeFile in H.
  destruct (fault e (clock w)) as [t|]; [destruct (torn e (clock w)) as [k|]|];
    injection H as <- <-.
  - split; [|done]. unfold touches_only. cbn.
    do 4 (split; [done|]). intros p Hp1 Hp2.
    apply lookup_insert_ne. destruct Hpath; congruence.
  - split; [by apply touches_only_same_store | done].
  - split; [|done]. unfold touches_only. cbn.
    do 4 (split; [done|]). intros p Hp1 Hp2.
    apply lookup_insert_ne. destruct Hpath; congruence.
Qed.

Create HintDb frame_db.
#[local] Hint Resolve runs_frame_log runs_frame_getRound runs_frame_fs_mkdir
  runs_frame_fs_readFile runs_frame_transcribeFile runs_frame_audioFileExists
  runs_frame_createDeliberationOntology runs_frame_updateRound
  touches_only_refl : frame_db.

(** One step through a program, for [touches_only]. *)
Ltac frame_step :=
  lazymatch goal with
  | |- runs _ _ _ (bind ask _) =>
      eapply runs_bind;
      [ apply touches_only_trans | apply runs_ask, touches_only_refl
      | let e' := fresh "e'" in intros e' ?; cbv beta in *; subst e' ]
  | |- runs _ _ _ (bind (try_catch _ _) _) =>
      eapply runs_bind with (P := fun _ => True);
      [ apply touches_only_trans | | intros ? _ ]
  | |- runs _ _ _ (bind _ _) =>
      eapply runs_bind;
      [ apply touches_only_trans | solve [eauto with frame_db] | intros ? _ ]
  | |- runs _ _ _ (try_catch _ _) =>
      apply runs_try_catch; [apply touches_only_trans | | intros ?]
  | |- runs _ _ _ (ret _) => apply runs_ret; [apply touches_only_refl | done]
  | |- runs _ _ _ (throw _) => apply runs_throw, touches_only_refl
  | |- runs _ _ _ (throw_new_Error _) => apply runs_throw_new_Error, touches_only_refl
  | |- runs _ _ _ (log _ _) => apply runs_frame_log
  | |- runs _ _ _ (log_with _ _ _) => apply runs_frame_log
  | |- runs _ _ _ (match ?x with _ => _ end) => destruct x
  | |- runs _ _ _ (let _ := _ in _) => cbv zeta
  end.

Lemma runs_frame_ensureDirectories e roundId :
  runs e (touches_only e roundId) (fun _ => True) ensureDirectories.
Proof. unfold ensureDirectories. repeat frame_step. eauto with frame_db. Qed.

#[local] Hint Resolve runs_frame_ensureDirectories : frame_db.
#[local] Hint Extern 1 (runs _ _ _ (fs_writeFile (raw_path _ _) _)) =>
  (apply runs_frame_fs_writeFile; by left) : frame_db.
#[local] Hint Extern 1 (runs _ _ _ (fs_writeFile (deliberation_path _ _) _)) =>
  (apply runs_frame_fs_writeFile; by right) : frame_db.

Lemma runs_frame_saveTranscription e roundId raw d :
  runs e (touches_only e roundId) (fun _ => True) (saveTranscription roundId raw d).
Proof. unfold saveTranscription, log. repeat frame_step. Qed.

#[local] Hint Resolve runs_frame_saveTranscription : frame_db.

Lemma runs_frame_round_finish e roundId lang audioPath reply :
  runs e (touches_only e roundId) (fun _ => True)
       (round_finish roundId lang audioPath reply).
Proof. unfold round_finish, log. repeat frame_step. Qed.

Lemma runs_frame_generic_finish e roundId filename reply :
  runs e (touches_only e roundId) (fun _ => True)
       (generic_finish roundId filename reply).
Proof. unfold generic_finish, log. repeat frame_step. Qed.

#[local] Hint Resolve runs_frame_round_finish runs_frame_generic_finish : frame_db.

Lemma runs_frame_round_try e roundId :
  runs e (touches_only e roundId) (fun _ => True) (round_try roundId).
Proof.
  unfold round_try, round_found, round_orchestrate, log.
  repeat frame_step; eauto with frame_db.
Qed.

Lemma runs_frame_round_catch e roundId t :
  runs e (touches_only e roundId) (fun _ => True) (round_catch roundId t).
Proof. unfold round_catch, log. repeat frame_step. Qed.

Lemma runs_frame_request_formData e roundId request :
  runs e (touches_only e roundId) (fun f => req_form request = Some f)
       (request_formData request).
Proof.
  intros w r w' H.
  apply request_formData_spec in H as (_ & Hr & Hf & _ & _ & Hform).
  split; [by apply touches_only_same_store|].
  intros f Hok. by apply Hform.
Qed.

Lemma runs_frame_request_clone_formData e roundId request :
  runs e (touches_only e roundId) (fun f => req_form request = Some f)
       (request_clone_formData request).
Proof.
  intros w r w' H.
  destruct (obeys_request_clone_formData (fun _ => True) request _ _ _ _ H)
    as (_ & _ & HQ).
  split; [|done]. apply touches_only_same_store.
  - unfold request_clone_formData, parse_form, throw_new_Error, new_Error, bind,
      throw, ret in H.
    destruct (body_used w); [|destruct (req_form request)]; by injection H as <- <-.
  - unfold request_clone_formData, parse_form, throw_new_Error, new_Error, bind,
      throw, ret in H.
    destruct (body_used w); [|destruct (req_form request)]; by injection H as <- <-.
Qed.

Lemma runs_frame_generic_try e request :
  runs e (touches_only e (form_roundId request)) (fun _ => True) (generic_try request).
Proof.
  unfold generic_try.
  eapply runs_bind;
    [apply touches_only_trans | apply runs_frame_request_formData |].
  intros f Hf. unfold form_roundId. rewrite Hf. cbn.
  unfold generic_with_form, generic_orchestrate, log.
  repeat frame_step; eauto with frame_db.
Qed.

Lemma runs_frame_generic_catch e request t :
  runs e (touches_only e (form_roundId request)) (fun _ => True)
       (generic_catch request t).
Proof.
  unfold generic_catch, log. frame_step. frame_step; [|repeat frame_step].
  frame_step; [|repeat frame_step].
  eapply runs_bind;
    [apply touches_only_trans | apply runs_frame_request_clone_formData |].
  intros f Hf. unfold form_roundId. rewrite Hf. cbn.
  repeat frame_step.
Qed.

Lemma POST_round_touches_only roundId e w r w' :
  POST_round roundId e w = (r, w') -> touches_only e roundId w w'.
Proof.
  intros H.
  assert (Hruns : runs e (touches_only e roundId) (fun _ => True) (POST_round roundId)).
  { apply runs_try_catch; [apply touches_only_trans | apply runs_frame_round_try|].
    intros t. apply runs_frame_round_catch. }
  by destruct (Hruns _ _ _ H).
Qed.

Lemma POST_generic_touches_only request e w r w' :
  POST_generic request e w = (r, w') -> touches_only e (form_roundId request) w w'.
Proof.
  intros H.
  assert (Hruns : runs e (touches_only e (form_roundId request)) (fun _ => True)
                    (POST_generic request)).
  { apply runs_try_catch; [apply touches_only_trans | apply runs_frame_generic_try|].
    intros t. apply runs_frame_generic_catch. }
  by destruct (Hruns _ _ _ H).
Qed.

Lemma provider_called_at_most_once_witness :
  count_events is_transcribe
    (new_events (sample_world CREATED)
       (snd (POST_round "r1" good_env (sample_world CREATED)))) <= 1 /\
  count_events is_transcribe
    (new_events (sample_world CREATED)
       (snd (POST_generic sample_request keyless_env (sample_world CREATED)))) = 0.
Proof.
  split.
  - apply (proj1 provider_called_at_most_once "r1" good_env (sample_world CREATED)
             (fst (POST_round "r1" good_env (sample_world CREATED)))).
    apply surjective_pairing.
  - apply (proj2 provider_called_at_most_once sample_request keyless_env
             (sample_world CREATED)
             (fst (POST_generic sample_request keyless_env (sample_world CREATED))));
      [apply surjective_pairing | reflexivity].
Defined.

(** Rounds are independent: whatever happens in a run of either route, every
    round other than the one the run is for is stored afterwards exactly as
    before, and that one round keeps its name, its description and its
    language and is neither created nor removed. *)
Theorem trigger_leaves_other_rounds :
  (forall roundId e w r w',
      POST_round roundId e w = (r, w') ->
      (forall j, j ≠ roundId -> rounds w' !! j = rounds w !! j) /\
      r_name <$> rounds w' !! roundId = r_name <$> rounds w !! roundId /\
      r_description <$> rounds w' !! roundId = r_description <$> rounds w !! roundId /\
      r_language <$> rounds w' !! roundId = r_language <$> rounds w !! roundId)
  /\
  (forall request e w r w',
      POST_generic request e w = (r, w') ->
      let roundId := form_roundId request in
      (forall j, j ≠ roundId -> rounds w' !! j = rounds w !! j) /\
      r_name <$> rounds w' !! roundId = r_name <$> rounds w !! roundId /\
      r_description <$> rounds w' !! roundId = r_description <$> rounds w !! roundId /\
      r_language <$> rounds w' !! roundId = r_language <$> rounds w !! roundId).
Proof.
  split.
  - intros roundId e w r w' H.
    by destruct (POST_round_touches_only _ _ _ _ _ H) as (? & ? & ? & ? & _).
  - intros request e w r w' H roundId.
    by destruct (POST_generic_touches_only _ _ _ _ _ H) as (? & ? & ? & ? & _).
Qed.

Lemma trigger_leaves_other_rounds_witness :
  rounds (snd (POST_round "r1" good_env (sample_world CREATED))) !! "r2"
  = rounds (sample_world CREATED) !! "r2" /\
  r_language <$> rounds (snd (POST_generic sample_request good_env
                                (sample_world CREATED))) !! "r1"
  = r_language <$> rounds (sample_world CREATED) !! "r1".
Proof.
  split.
  - apply (proj1 trigger_leaves_other_rounds "r1" good_env (sample_world CREATED)
             (fst (POST_round "r1" good_env (sample_world CREATED))));
      [apply surjective_pairing | discriminate].
  - apply (proj2 trigger_leaves_other_rounds sample_request good_env
             (sample_world CREATED)
             (fst (POST_generic sample_request good_env (sample_world CREATED)))).
    apply surjective_pairing.
Defined.

(** Whatever happens in a run of either route, the only files that can have
    changed are the two transcript files of the run's round: the audio file
    that was read, and every other file, holds afterwards what it held
    before. *)
Theorem trigger_leaves_other_files :
  (forall roundId e w r w' p,
      POST_round roundId e w = (r, w') ->
      p ≠ raw_path e roundId -> p ≠ deliberation_path e roundId ->
      files w' !! p = files w !! p)
  /\
  (forall request e w r w' p,
      POST_generic request e w = (r, w') ->
      p ≠ raw_path e (form_roundId request) ->
      p ≠ deliberation_path e (form_roundId request) ->
      files w' !! p = files w !! p).
Proof.
  split.
  - intros roundId e w r w' p H.
    destruct (POST_round_touches_only _ _ _ _ _ H) as (_ & _ & _ & _ & Hf). apply Hf.
  - intros request e w r w' p H.
    destruct (POST_generic_touches_only _ _ _ _ _ H) as (_ & _ & _ & _ & Hf). apply Hf.
Qed.

Lemma trigger_leaves_other_files_witness :
  files (snd (POST_round "r1" good_env (sample_world CREATED)))
    !! "/app/public/audio/r1.webm"
  = Some (Bytes sample_audio) /\
  files (snd (POST_generic sample_request good_env (sample_world CREATED)))
    !! "/app/public/audio/r1.webm"
  = Some (Bytes sample_audio).
Proof.
  split.
  - apply (proj1 trigger_leaves_other_files "r1" good_env (sample_world CREATED)
             (fst (POST_round "r1" good_env (sample_world CREATED))));
      [apply surjective_pairing | vm_compute; discriminate | vm_compute; discriminate].
  - apply (proj2 trigger_leaves_other_files sample_request good_env
             (sample_world CREATED)
             (fst (POST_generic sample_request good_env (sample_world CREATED))));
      [apply surjective_pairing | vm_compute; discriminate | vm_compute; discriminate].
Defined.

(** ** src/lib/storage/files.ts: transcripts *)

Lemma saveTranscription_Ok_paths roundId raw d e w p w1 :
  saveTranscription roundId raw d e w = (Ok p, w1) ->
  p = (raw_path e roundId, deliberation_path e roundId).
Proof.
  intros Hrun.
  unfold saveTranscription, ensureDirectories, fs_mkdir, fs_writeFile in Hrun.
  unfold bind, try_catch, log, log_with, ask, ret, throw, io in Hrun.
  cbn in Hrun.
  repeat (case_match; simplify_eq). done.
Qed.

Ltac lookup_paths :=
  repeat (rewrite lookup_insert_eq || rewrite lookup_insert_ne by congruence).

(** A save that fails rethrows the fault it met and logs the failure last.
    It changes no round and no file other than the two transcript files; of
    these, each holds what it held or what the failed write left of it, and
    the ontology file is touched only after the raw response is complete. *)
Lemma saveTranscription_Throw roundId raw d e w t w1 :
  saveTranscription roundId raw d e w = (Throw t, w1) ->
  (exists n, clock w <= n < clock w + 5 /\ fault e n = Some t) /\
  last (trace w1) = Some (EvLog Error_ "Failed to save transcription files" []) /\
  rounds w1 = rounds w /\
  (forall q, q ≠ raw_path e roundId -> q ≠ deliberation_path e roundId ->
             files w1 !! q = files w !! q) /\
  (files w1 !! raw_path e roundId = files w !! raw_path e roundId \/
   (exists k, files w1 !! raw_path e roundId
              = Some (Bytes (take k (json_text e (RawJson raw))))) \/
   files w1 !! raw_path e roundId = Some (RawJson raw)) /\
  (files w1 !! deliberation_path e roundId = files w !! deliberation_path e roundId \/
   (files w1 !! raw_path e roundId = Some (RawJson raw) /\
    exists k, files w1 !! deliberation_path e roundId
              = Some (Bytes (take k (json_text e (OntologyJson d)))))).
Proof.
  intros Hrun. pose proof (raw_path_ne_deliberation_path e roundId) as Hne.
  unfold saveTranscription, ensureDirectories, fs_mkdir, fs_writeFile in Hrun.
  unfold bind, try_catch, log, log_with, ask, ret, throw, io in Hrun.
  cbn in Hrun.
  repeat (case_match; simplify_eq); cbn in *;
    (split; [eexists; split; [|eassumption]; lia|]);
    (split; [by rewrite last_snoc|]); (split; [done|]);
    (split; [intros q Hq1 Hq2; by lookup_paths|]);
    (split;
     [ first [ left; by lookup_paths
             | right; left; eexists; by lookup_paths
             | right; right; by lookup_paths ]
     | first [ left; by lookup_paths
             | right; split; [by lookup_paths | eexists; by lookup_paths] ] ]).
Qed.

(** [transcriptionExists] answers whether the ontology file is there; it
    never throws and changes nothing. *)
Lemma transcriptionExists_spec roundId e w :
  transcriptionExists roundId e w
  = (Ok (bool_decide (is_Some (files w !! deliberation_path e roundId))), w).
Proof.
  unfold transcriptionExists, bind, ask, try_catch, fs_access, ret. cbn.
  by destruct (files w !! deliberation_path e roundId) as [d|].
Qed.

(** After a successful [saveTranscription] the raw response and the ontology
    are in two different files, each holding what was saved; the paths
    returned are those of the two files; no other file and no round has
    changed. *)
Theorem saveTranscription_stores_both roundId raw d e w p w1 :
  saveTranscription roundId raw d e w = (Ok p, w1) ->
  p = (raw_path e roundId, deliberation_path e roundId) /\
  raw_path e roundId ≠ deliberation_path e roundId /\
  files w1 !! raw_path e roundId = Some (RawJson raw) /\
  files w1 !! deliberation_path e roundId = Some (OntologyJson d) /\
  (forall q, q ≠ raw_path e roundId -> q ≠ deliberation_path e roundId ->
             files w1 !! q = files w !! q) /\
  rounds w1 = rounds w.
Proof.
  intros Hrun. pose proof (raw_path_ne_deliberation_path e roundId) as Hne.
  pose proof (saveTranscription_Ok_paths _ _ _ _ _ _ _ Hrun) as Hp.
  apply saveTranscription_Ok in Hrun as (_ & Hf & Hr).
  split; [done|]. split; [done|]. rewrite Hf.
  split; [by rewrite lookup_insert_ne, lookup_insert_eq|].
  split; [by rewrite lookup_insert_eq|]. split; [|done].
  intros q Hq1 Hq2. by rewrite !lookup_insert_ne.
Qed.

Lemma saveTranscription_stores_both_witness :
  let run := saveTranscription "r1" sample_raw sample_ontology good_env
               (sample_world PROCESSING) in
  files (snd run) !! raw_path good_env "r1" = Some (RawJson sample_raw) /\
  files (snd run) !! deliberation_path good_env "r1" = Some (OntologyJson sample_ontology).
Proof.
  intros run.
  destruct (saveTranscription_stores_both "r1" sample_raw sample_ontology good_env
              (sample_world PROCESSING)
              (raw_path good_env "r1", deliberation_path good_env "r1") (snd run))
    as (_ & _ & Hraw & Hd & _).
  - vm_compute. reflexivity.
  - done.
Defined.

(** A [saveTranscription] that fails rethrows the fault it met, logs the
    failure as its last act, and changes no round and no file other than the
    two transcript files of the round.  It does not roll these back: each
    holds afterwards what it held before or what the failed write left of
    it, a prefix of the new text, in place of the old content; the raw file
    may also hold the complete new response, and the ontology file is touched
    only then.  In particular, when the directories and the raw response go
    through and the write of the ontology fails after the file was opened,
    the raw response is stored and the ontology file holds the part
    written: [transcriptionExists] then answers true for a file that is not
    the ontology. *)
Theorem failed_save_tears_only_transcripts :
  (forall roundId raw d e w t w1,
      saveTranscription roundId raw d e w = (Throw t, w1) ->
      (exists n, clock w <= n < clock w + 5 /\ fault e n = Some t) /\
      last (trace w1) = Some (EvLog Error_ "Failed to save transcription files" []) /\
      rounds w1 = rounds w /\
      (forall q, q ≠ raw_path e roundId -> q ≠ deliberation_path e roundId ->
                 files w1 !! q = files w !! q) /\
      (files w1 !! raw_path e roundId = files w !! raw_path e roundId \/
       (exists k, files w1 !! raw_path e roundId
                  = Some (Bytes (take k (json_text e (RawJson raw))))) \/
       files w1 !! raw_path e roundId = Some (RawJson raw)) /\
      (files w1 !! deliberation_path e roundId
       = files w !! deliberation_path e roundId \/
       (files w1 !! raw_path e roundId = Some (RawJson raw) /\
        exists k, files w1 !! deliberation_path e roundId
                  = Some (Bytes (take k (json_text e (OntologyJson d)))))))
  /\
  (forall roundId raw d e w t k,
      (forall i, i < 4 -> fault e (clock w + i) = None) ->
      fault e (clock w + 4) = Some t ->
      torn e (clock w + 4) = Some k ->
      exists w1,
        saveTranscription roundId raw d e w = (Throw t, w1) /\
        files w1 !! raw_path e roundId = Some (RawJson raw) /\
        files w1 !! deliberation_path e roundId
        = Some (Bytes (take k (json_text e (OntologyJson d)))) /\
        transcriptionExists roundId e w1 = (Ok true, w1)).
Proof.
  split.
  - intros roundId raw d e w t w1. apply saveTranscription_Throw.
  - intros roundId raw d e w t k Hnone Hfault Htorn.
    pose proof (raw_path_ne_deliberation_path e roundId) as Hne.
    pose proof (Hnone 0 ltac:(lia)) as H0. pose proof (Hnone 1 ltac:(lia)) as H1.
    pose proof (Hnone 2 ltac:(lia)) as H2. pose proof (Hnone 3 ltac:(lia)) as H3.
    replace (clock w + 0) with (clock w) in H0 by lia.
    replace (clock w + 1) with (S (clock w)) in H1 by lia.
    replace (clock w + 2) with (S (S (clock w))) in H2 by lia.
    replace (clock w + 3) with (S (S (S (clock w)))) in H3 by lia.
    replace (clock w + 4) with (S (S (S (S (clock w))))) in Hfault, Htorn by lia.
    eexists. split.
    + unfold saveTranscription, ensureDirectories, fs_mkdir, fs_writeFile.
      unfold bind, try_catch, log, log_with, ask, ret, throw, io. cbn.
      rewrite H0. cbn. rewrite H1. cbn. rewrite H2. cbn. rewrite H3. cbn.
      rewrite Hfault, Htorn. cbn. reflexivity.
    + split; [cbn; by lookup_paths|]. split; [cbn; by lookup_paths|].
      rewrite transcriptionExists_spec. do 2 f_equal.
      apply bool_decide_eq_true. cbn. lookup_paths. by eexists.
Qed.

Lemma failed_save_tears_only_transcripts_witness :
  let w := set_files (<[deliberation_path (torn_env 4 2) "r1"
                          := OntologyJson sample_ontology]> ∅)
             (sample_world PROCESSING) in
  exists w1,
    saveTranscription "r1" sample_raw sample_ontology (torn_env 4 2) w
    = (Throw (ErrorObj "ENOSPC: no space left on device" ""), w1) /\
    files w1 !! raw_path (torn_env 4 2) "r1" = Some (RawJson sample_raw) /\
    files w1 !! deliberation_path (torn_env 4 2) "r1"
    = Some (Bytes (take 2 (json_text (torn_env 4 2) (OntologyJson sample_ontology)))) /\
    transcriptionExists "r1" (torn_env 4 2) w1 = (Ok true, w1).
Proof.
  intros w.
  apply (proj2 failed_save_tears_only_transcripts "r1" sample_raw sample_ontology
           (torn_env 4 2) w (ErrorObj "ENOSPC: no space left on device" "") 2).
  - intros i Hi. do 4 (destruct i as [|i]; [reflexivity|]). lia.
  - reflexivity.
  - reflexivity.
Defined.

Lemma same_store_refl w : same_store w w.
Proof. by split. Qed.

Lemma same_store_trans w1 w2 w3 :
  same_store w1 w2 -> same_store w2 w3 -> same_store w1 w3.
Proof. intros [Hr1 Hf1] [Hr2 Hf2]. split; congruence. Qed.

Lemma runs_same_log e lvl msg fields :
  runs e same_store (fun _ => True) (log_with lvl msg fields).
Proof. by intros w r w' [= <- <-]. Qed.

Lemma runs_same_fs_readFile e path :
  runs e same_store (fun _ => True) (fs_readFile path).
Proof.
  intros w r w' H. unfold fs_readFile in H.
  apply io_inv in H as [(t & _ & _ & ->) | [_ H]]; [done|].
  by destruct (files _ !! path); injection H as <- <-.
Qed.

(** Every outcome of [loadDeliberationOntology]: it changes no file and no
    round, and when it returns, the ontology file was there, the read did not
    fail, and the value returned is what [JSON.parse] makes of the file's
    text. *)
Lemma loadDeliberationOntology_run JSON_parse roundId e w r w' :
  loadDeliberationOntology JSON_parse roundId e w = (r, w') ->
  files w' = files w /\ rounds w' = rounds w /\
  (forall data, r = Ok data ->
     fault e (clock w) = None /\
     exists d0, files w !! deliberation_path e roundId = Some d0 /\
                JSON_parse (file_bytes e d0) = Some data).
Proof.
  intros Hrun.
  assert (Hsame : runs e same_store (fun _ => True)
                    (loadDeliberationOntology JSON_parse roundId)).
  { unfold loadDeliberationOntology.
    eapply runs_bind; [apply same_store_trans | apply runs_same_log | intros _ _].
    apply runs_try_catch; [apply same_store_trans | |].
    - eapply runs_bind;
        [apply same_store_trans | apply runs_ask, same_store_refl | intros e' ->].
      cbv zeta.
      eapply runs_bind;
        [apply same_store_trans | apply runs_same_fs_readFile | intros content _].
      destruct (JSON_parse content).
      + eapply runs_bind;
          [apply same_store_trans | apply runs_same_log | intros _ _].
        by apply runs_ret; [apply same_store_refl|].
      + apply runs_throw_new_Error, same_store_refl.
    - intros t.
      eapply runs_bind; [apply same_store_trans | apply runs_same_log | intros _ _].
      apply runs_throw, same_store_refl. }
  destruct (Hsame _ _ _ Hrun) as [[Hr Hf] _].
  split; [done|]. split; [done|]. intros data ->.
  unfold loadDeliberationOntology in Hrun.
  apply bind_Ok in Hrun as (? & w0 & Hlog & Hrun). apply log_run in Hlog as [_ ->].
  apply try_catch_inv in Hrun as [(a & Hbody & [= <-]) | (t & w1 & _ & Hcatch)].
  - apply bind_Ok in Hbody as (e' & ? & Hask & Hbody). apply ask_run in Hask as [[= ->] ->].
    cbv zeta in Hbody.
    apply bind_Ok in Hbody as (content & w2 & Hread & Hbody).
    pose proof Hread as Hread'. unfold fs_readFile in Hread'.
    apply io_inv in Hread' as [(t & _ & [=] & _) | [Hfault _]].
    apply fs_readFile_Ok in Hread as (d0 & Hd0 & -> & ->).
    destruct (JSON_parse (file_bytes e d0)) as [data'|] eqn:Hparse; [|bad_branch Hbody].
    apply bind_Ok in Hbody as (? & w3 & Hlog & Hbody). apply log_run in Hlog as [_ ->].
    injection Hbody as <- _. eauto.
  - unfold bind, log_with, throw in Hcatch. discriminate Hcatch.
Qed.

Lemma loadDeliberationOntology_ok JSON_parse roundId e w d0 data :
  files w !! deliberation_path e roundId = Some d0 ->
  fault e (clock w) = None ->
  JSON_parse (file_bytes e d0) = Some data ->
  exists w2,
    loadDeliberationOntology JSON_parse roundId e w = (Ok data, w2) /\
    files w2 = files w /\ rounds w2 = rounds w.
Proof.
  intros Hd Hfault Hparse.
  unfold loadDeliberationOntology.
  erewrite bind_run by apply log_with_ok.
  eexists. split.
  - apply try_catch_passed.
    erewrite bind_run by reflexivity. cbv zeta.
    erewrite bind_run by (apply fs_readFile_ok; [exact Hfault | exact Hd]).
    rewrite Hparse.
    erewrite bind_run by apply log_with_ok. reflexivity.
  - done.
Qed.

(** Whatever its outcome, a run of [loadDeliberationOntology] changes no
    file and no round.  It returns a value exactly when the read does not
    fail, the ontology file of the round is there and [JSON.parse] reads that
    value in it; [transcriptionExists] then answers true.  In every other
    case it throws. *)
Theorem load_returns_what_the_file_holds JSON_parse roundId e w r w' :
  loadDeliberationOntology JSON_parse roundId e w = (r, w') ->
  files w' = files w /\ rounds w' = rounds w /\
  (forall data,
      r = Ok data <->
      fault e (clock w) = None /\
      exists d0, files w !! deliberation_path e roundId = Some d0 /\
                 JSON_parse (file_bytes e d0) = Some data) /\
  (forall data, r = Ok data -> transcriptionExists roundId e w = (Ok true, w)).
Proof.
  intros Hrun.
  pose proof (loadDeliberationOntology_run _ _ _ _ _ _ Hrun) as (Hf & Hr & Hok).
  split; [done|]. split; [done|]. split.
  - intros data. split; [apply Hok|].
    intros (Hfault & d0 & Hd0 & Hparse).
    destruct (loadDeliberationOntology_ok JSON_parse roundId e w d0 data
                Hd0 Hfault Hparse) as (w2 & Hload & _).
    rewrite Hload in Hrun. by injection Hrun as <- _.
  - intros data Hdata. destruct (Hok data Hdata) as (_ & d0 & Hd0 & _).
    by rewrite transcriptionExists_spec, Hd0.
Qed.

(** What [saveTranscription] has saved, [loadDeliberationOntology] returns:
    after a successful save, when the read does not fail and [JSON.parse]
    inverts the serialisation of the saved ontology, the load returns that
    ontology and [transcriptionExists] answers true. *)
Theorem saved_ontology_loads_back JSON_parse roundId raw d e w p w1 :
  saveTranscription roundId raw d e w = (Ok p, w1) ->
  fault e (clock w1) = None ->
  JSON_parse (json_text e (OntologyJson d)) = Some (OntologyJson d) ->
  transcriptionExists roundId e w1 = (Ok true, w1) /\
  exists w2,
    loadDeliberationOntology JSON_parse roundId e w1 = (Ok (OntologyJson d), w2) /\
    files w2 = files w1 /\ rounds w2 = rounds w1.
Proof.
  intros Hsave Hfault Hparse.
  apply saveTranscription_Ok in Hsave as (_ & Hf & _).
  assert (Hd : files w1 !! deliberation_path e roundId = Some (OntologyJson d)).
  { rewrite Hf. apply lookup_insert_eq. }
  split; [by rewrite transcriptionExists_spec, Hd|].
  by apply (loadDeliberationOntology_ok JSON_parse roundId e w1 (OntologyJson d)).
Qed.

Lemma load_returns_what_the_file_holds_witness :
  let w1 := snd (saveTranscription "r1" sample_raw sample_ontology good_env
                   (sample_world PROCESSING)) in
  files (snd (loadDeliberationOntology sample_parse "r1" good_env w1)) = files w1 /\
  files (snd (loadDeliberationOntology sample_parse "r9" good_env w1)) = files w1.
Proof.
  intros w1. split.
  - apply (load_returns_what_the_file_holds sample_parse "r1" good_env w1
             (fst (loadDeliberationOntology sample_parse "r1" good_env w1))).
    apply surjective_pairing.
  - apply (load_returns_what_the_file_holds sample_parse "r9" good_env w1
             (fst (loadDeliberationOntology sample_parse "r9" good_env w1))).
    apply surjective_pairing.
Defined.

Lemma saved_ontology_loads_back_witness :
  let w1 := snd (saveTranscription "r1" sample_raw sample_ontology good_env
                   (sample_world PROCESSING)) in
  exists w2,
    loadDeliberationOntology sample_parse "r1" good_env w1
    = (Ok (OntologyJson sample_ontology), w2) /\
    files w2 = files w1 /\ rounds w2 = rounds w1.
Proof.
  intros w1.
  apply (saved_ontology_loads_back sample_parse "r1" sample_raw sample_ontology
           good_env (sample_world PROCESSING)
           (raw_path good_env "r1", deliberation_path good_env "r1") w1).
  - vm_compute. reflexivity.
  - reflexivity.
  - reflexivity.
Defined.

(** ** src/lib/storage/files.ts: deleting a round's files *)

Lemma unlink_step filePath e w :
  exists removed w1,
    try_catch (fs_unlink filePath;; ret true) (fun _ => ret false) e w
    = (Ok removed, w1) /\
    rounds w1 = rounds w /\ trace w1 = trace w /\
    (files w1 = files w \/ files w1 = delete filePath (files w)) /\
    (removed = true -> files w1 = delete filePath (files w)) /\
    (fault e (clock w) = None -> files w1 !! filePath = None).
Proof.
  unfold try_catch, bind, fs_unlink, ret.
  destruct (fault e (clock w)) as [t|] eqn:Hfault.
  - eexists false, _. split; [reflexivity|]. cbn.
    split; [done|]. split; [done|]. split; [by left|]. split; done.
  - destruct (files w !! filePath) as [d|] eqn:Hfile.
    + eexists true, _. split; [reflexivity|]. cbn.
      split; [done|]. split; [done|]. split; [by right|]. split; [done|].
      intros _. apply lookup_delete_eq.
    + eexists false, _. split; [reflexivity|]. cbn.
      split; [done|]. split; [done|]. split; [by left|]. split; done.
Qed.

Lemma unlink_each_run (paths : list string) :
  forall deleted failed e w,
  exists deleted' failed' w',
    unlink_each paths deleted failed e w = (Ok (deleted', failed'), w') /\
    rounds w' = rounds w /\ trace w' = trace w /\
    length deleted' + length failed' = length deleted + length failed + length paths /\
    (forall p, p ∉ paths -> files w' !! p = files w !! p) /\
    (forall p, files w' !! p = files w !! p \/ files w' !! p = None) /\
    ((forall n, fault e n = None) -> forall p, p ∈ paths -> files w' !! p = None).
Proof.
  induction paths as [|filePath rest IH]; intros deleted failed e w.
  - exists deleted, failed, w. split; [reflexivity|].
    split; [done|]. split; [done|]. split; [cbn; lia|].
    split; [done|]. split; [by left|]. intros _ p Hp. by apply elem_of_nil in Hp.
  - destruct (unlink_step filePath e w)
      as (removed & w1 & Hstep & Hr1 & Ht1 & Hf1 & _ & Hgone).
    cbn [unlink_each]. erewrite bind_run by exact Hstep.
    set (deleted1 := if removed then (deleted ++ [basename filePath])%list else deleted).
    set (failed1 := if removed then failed else (failed ++ [basename filePath])%list).
    destruct (IH deleted1 failed1 e w1)
      as (deleted' & failed' & w' & Hrun & Hr & Ht & Hlen & Hout & Hshrink & Hall).
    exists deleted', failed', w'.
    split; [by destruct removed|].
    split; [congruence|]. split; [congruence|].
    split.
    { rewrite Hlen. unfold deleted1, failed1.
      destruct removed; rewrite ?length_app; cbn; lia. }
    assert (Hstep_shrink : forall p, files w1 !! p = files w !! p \/ files w1 !! p = None).
    { intros p. destruct Hf1 as [-> | ->]; [by left|].
      destruct (decide (filePath = p)) as [<-|Hne].
      - right. apply lookup_delete_eq.
      - left. by apply lookup_delete_ne. }
    split.
    { intros p Hp. apply not_elem_of_cons in Hp as [Hne Hp].
      rewrite (Hout p Hp). destruct Hf1 as [-> | ->]; [done|].
      by apply lookup_delete_ne. }
    split.
    { intros p. destruct (Hshrink p) as [-> | ->]; [apply Hstep_shrink | by right]. }
    intros Hfault p Hp.
    destruct (Hshrink p) as [Hsame | Hnone]; [|done].
    apply elem_of_cons in Hp as [-> | Hp]; [|by apply Hall].
    rewrite Hsame. by apply Hgone.
Qed.

Lemma deleteRoundFiles_run roundId e w :
  exists (deleted failed : list string) w',
    deleteRoundFiles roundId e w = (Ok tt, w') /\
    rounds w' = rounds w /\
    length deleted + length failed = 6 /\
    last (trace w')
    = Some (EvLog Info "Round files deletion completed"
              [ ("roundId", roundId);
                ("deletedCount", pretty (length deleted));
                ("failedCount", pretty (length failed));
                ("deletedFiles", join_with "," deleted) ]) /\
    (forall p, p ∉ filesToDelete e roundId -> files w' !! p = files w !! p) /\
    (forall p, files w' !! p = files w !! p \/ files w' !! p = None) /\
    ((forall n, fault e n = None) ->
     forall p, p ∈ filesToDelete e roundId -> files w' !! p = None).
Proof.
  unfold deleteRoundFiles.
  erewrite bind_run by apply log_with_ok.
  erewrite bind_run by reflexivity.
  destruct (unlink_each_run (filesToDelete e roundId) [] [] e
              (emit (EvLog Info "Deleting round files" [("roundId", roundId)]) w))
    as (deleted & failed & w1 & Hrun & Hr & Ht & Hlen & Hout & Hshrink & Hall).
  erewrite bind_run by exact Hrun.
  exists deleted, failed, (emit (EvLog Info "Round files deletion completed"
                                   [ ("roundId", roundId);
                                     ("deletedCount", pretty (length deleted));
                                     ("failedCount", pretty (length failed));
                                     ("deletedFiles", join_with "," deleted) ]) w1).
  split; [reflexivity|]. cbn [rounds files trace emit] in *.
  split; [done|]. split; [exact Hlen|]. split; [by rewrite last_snoc|]. done.
Qed.

(** [deleteRoundFiles] never throws, whatever fails underneath.  It only
    removes: every file holds afterwards what it held before or is gone, a
    file that is not one of the round's six (two transcripts, four audio
    extensions) is untouched, and no round changes.  Its last act is the
    completion log, whose two counts add up to six. *)
Theorem deleteRoundFiles_only_removes roundId e w :
  exists (deletedFiles failedFiles : list string) w',
    deleteRoundFiles roundId e w = (Ok tt, w') /\
    rounds w' = rounds w /\
    (forall p, files w' !! p = files w !! p \/ files w' !! p = None) /\
    (forall p, p ∉ filesToDelete e roundId -> files w' !! p = files w !! p) /\
    last (trace w')
    = Some (EvLog Info "Round files deletion completed"
              [ ("roundId", roundId);
                ("deletedCount", pretty (length deletedFiles));
                ("failedCount", pretty (length failedFiles));
                ("deletedFiles", join_with "," deletedFiles) ]) /\
    length deletedFiles + length failedFiles = 6.
Proof.
  destruct (deleteRoundFiles_run roundId e w)
    as (deleted & failed & w' & Hrun & Hr & Hlen & Hlast & Hout & Hshrink & _).
  exists deleted, failed, w'. done.
Qed.

(** When no storage operation fails, nothing of the round is left after
    [deleteRoundFiles]: [audioFileExists] answers null,
    [transcriptionExists] answers false, and the raw transcript is gone. *)
Theorem deleteRoundFiles_leaves_nothing roundId e w :
  (forall n, fault e n = None) ->
  exists w',
    deleteRoundFiles roundId e w = (Ok tt, w') /\
    audioFileExists roundId e w' = (Ok None, w') /\
    transcriptionExists roundId e w' = (Ok false, w') /\
    files w' !! raw_path e roundId = None.
Proof.
  intros Hfault.
  destruct (deleteRoundFiles_run roundId e w)
    as (deleted & failed & w' & Hrun & _ & _ & _ & _ & _ & Hall).
  specialize (Hall Hfault).
  exists w'. split; [done|]. split; [|split].
  - unfold audioFileExists. rewrite audioFileExists_from_spec. unfold first_present.
    destruct (list_find _ extensions) as [[i ext]|] eqn:Hfind; [|done].
    apply list_find_Some in Hfind as (Hi & [d Hd] & _).
    apply list_elem_of_lookup_2 in Hi.
    rewrite Hall in Hd; [discriminate|].
    unfold filesToDelete. apply elem_of_app. right. by apply list_elem_of_fmap_2.
  - rewrite transcriptionExists_spec, Hall; [done|].
    unfold filesToDelete. apply elem_of_cons. right. apply elem_of_cons. by left.
  - apply Hall. unfold filesToDelete. apply elem_of_cons. by left.
Qed.

Lemma deleteRoundFiles_leaves_nothing_witness :
  exists w',
    deleteRoundFiles "r1" good_env (sample_world COMPLETED) = (Ok tt, w') /\
    audioFileExists "r1" good_env w' = (Ok None, w') /\
    transcriptionExists "r1" good_env w' = (Ok false, w') /\
    files w' !! raw_path good_env "r1" = None.
Proof. apply (deleteRoundFiles_leaves_nothing "r1" good_env). reflexivity. Defined.

(** ** src/lib/storage/files.ts: the audio file *)

Lemma saveAudioFile_Throw roundId buffer ext e w t w1 :
  saveAudioFile roundId buffer ext e w = (Throw t, w1) ->
  (exists n, clock w <= n < clock w + 4 /\ fault e n = Some t) /\
  last (trace w1) = Some (EvLog Error_ "Failed to save audio file" []) /\
  rounds w1 = rounds w /\
  (forall q, q ≠ audio_file_path e roundId ext -> files w1 !! q = files w !! q) /\
  (files w1 !! audio_file_path e roundId ext = files w !! audio_file_path e roundId ext \/
   exists k, files w1 !! audio_file_path e roundId ext = Some (Bytes (take k buffer))).
Proof.
  intros Hrun.
  unfold saveAudioFile, ensureDirectories, fs_mkdir, fs_writeFile in Hrun.
  unfold bind, try_catch, log, log_with, ask, ret, throw, io in Hrun.
  cbn in Hrun.
  repeat (case_match; simplify_eq); cbn in *;
    (split; [eexists; split; [|eassumption]; lia|]);
    (split; [by rewrite last_snoc|]); (split; [done|]);
    (split; [intros q Hq; by lookup_paths|]);
    first [ left; by lookup_paths | right; eexists; by lookup_paths ].
Qed.

(** The outcomes of [saveAudioFile].  When it returns, the file of the round
    with the given extension holds exactly the buffer, the path returned is
    the public one, and no other file has changed.  When it throws, it
    rethrows the failure of one of its four storage operations after logging
    it, and no other file has changed; the file itself is not rolled back: it
    holds what it held before or a prefix of the buffer in place of it.  In
    particular, when the three directories go through and the write fails
    after the file was opened, the file holds the part written.  In every
    case the round store is untouched.  (The statement is about files;
    directories, which [ensureDirectories] may have created, are not
    modelled.) *)
Theorem saveAudioFile_outcomes :
  (forall roundId buffer ext e w r w1,
      saveAudioFile roundId buffer ext e w = (r, w1) ->
      rounds w1 = rounds w /\
      (forall q, q ≠ audio_file_path e roundId ext -> files w1 !! q = files w !! q) /\
      match r with
      | Ok p =>
          p = "/audio/" ++ roundId ++ "." ++ ext /\
          files w1 !! audio_file_path e roundId ext = Some (Bytes buffer)
      | Throw t =>
          (files w1 !! audio_file_path e roundId ext
           = files w !! audio_file_path e roundId ext \/
           exists k, files w1 !! audio_file_path e roundId ext
                     = Some (Bytes (take k buffer))) /\
          last (trace w1) = Some (EvLog Error_ "Failed to save audio file" []) /\
          exists n, clock w <= n < clock w + 4 /\ fault e n = Some t
      end)
  /\
  (forall roundId buffer ext e w t k,
      (forall i, i < 3 -> fault e (clock w + i) = None) ->
      fault e (clock w + 3) = Some t ->
      torn e (clock w + 3) = Some k ->
      exists w1,
        saveAudioFile roundId buffer ext e w = (Throw t, w1) /\
        files w1 !! audio_file_path e roundId ext = Some (Bytes (take k buffer))).
Proof.
  split.
  - intros roundId buffer ext e w r w1 Hrun. destruct r as [p|t].
    + apply saveAudioFile_Ok in Hrun as (-> & Hfiles & Hrounds).
      split; [done|]. rewrite Hfiles.
      split; [intros q Hq; by apply lookup_insert_ne|].
      split; [done | apply lookup_insert_eq].
    + apply saveAudioFile_Throw in Hrun as (Hfault & Hlast & Hrounds & Hframe & Hfile).
      done.
  - intros roundId buffer ext e w t k Hnone Hfault Htorn.
    pose proof (Hnone 0 ltac:(lia)) as H0. pose proof (Hnone 1 ltac:(lia)) as H1.
    pose proof (Hnone 2 ltac:(lia)) as H2.
    replace (clock w + 0) with (clock w) in H0 by lia.
    replace (clock w + 1) with (S (clock w)) in H1 by lia.
    replace (clock w + 2) with (S (S (clock w))) in H2 by lia.
    replace (clock w + 3) with (S (S (S (clock w)))) in Hfault, Htorn by lia.
    eexists. split.
    + unfold saveAudioFile, ensureDirectories, fs_mkdir, fs_writeFile.
      unfold bind, try_catch, log, log_with, ask, ret, throw, io. cbn.
      rewrite H0. cbn. rewrite H1. cbn. rewrite H2. cbn.
      rewrite Hfault, Htorn. cbn. reflexivity.
    + cbn. by lookup_paths.
Qed.

Lemma saveAudioFile_outcomes_witness :
  exists w1,
    saveAudioFile "r1" [Byte.x4f; Byte.x67; Byte.x67; Byte.x53] "webm" (torn_env 3 2)
      (sample_world CREATED)
    = (Throw (ErrorObj "ENOSPC: no space left on device" ""), w1) /\
    files w1 !! audio_file_path (torn_env 3 2) "r1" "webm"
    = Some (Bytes (take 2 [Byte.x4f; Byte.x67; Byte.x67; Byte.x53])).
Proof.
  apply (proj2 saveAudioFile_outcomes "r1" [Byte.x4f; Byte.x67; Byte.x67; Byte.x53]
           "webm" (torn_env 3 2) (sample_world CREATED)
           (ErrorObj "ENOSPC: no space left on device" "") 2).
  - intros i Hi. do 3 (destruct i as [|i]; [reflexivity|]). lia.
  - reflexivity.
  - reflexivity.
Defined.

Lemma extension_slash_free x : x ∈ extensions -> slash_free ("." ++ x) = true.
Proof.
  unfold extensions. intros Hx.
  repeat (apply elem_of_cons in Hx as [-> | Hx]; [reflexivity|]).
  by apply elem_of_nil in Hx.
Qed.

Lemma extensions_NoDup : NoDup extensions.
Proof.
  unfold extensions.
  repeat (apply NoDup_cons; split;
          [rewrite ?elem_of_cons, elem_of_nil; intros H; repeat destruct H as [H|H];
           done |]).
  apply NoDup_nil_2.
Qed.

(** The audio files of a round with different extensions are different
    files. *)
Lemma audio_file_path_inj e roundId x y :
  x ∈ extensions -> y ∈ extensions ->
  audio_file_path e roundId x = audio_file_path e roundId y -> x = y.
Proof.
  intros Hx Hy. unfold audio_file_path, path_join. cbn [join_with].
  rewrite <- !(string_app_assoc (AUDIO_DIR e) "/").
  rewrite <- !(string_app_assoc _ roundId).
  rewrite (squeeze_app_slash_free _ ("." ++ x)) by by apply extension_slash_free.
  rewrite (squeeze_app_slash_free _ ("." ++ y)) by by apply extension_slash_free.
  intros Heq. apply String.app_inj in Heq. by simplify_eq.
Qed.

(** ** The round-specific route: what the provider receives *)

Lemma POST_round_with_audio roundId e w r i ext d res w' :
  (forall n, fault e n = None) ->
  truthy (api_key e) = true ->
  rounds w !! roundId = Some r ->
  list_find (fun x => is_Some (files w !! audio_file_path e roundId x)) extensions
  = Some (i, ext) ->
  files w !! audio_file_path e roundId ext = Some d ->
  POST_round roundId e w = (res, w') ->
  let lang := js_or (r_language r) "en" in
  let audioPath := "/audio/" ++ roundId ++ "." ++ ext in
  exists fields rest,
    new_events w w'
    = ([ EvGetRound roundId;
         EvLog Info "Found audio file" [("audioPath", audioPath)];
         EvUpdateRound roundId (status_patch PROCESSING);
         EvReadFile (audio_file_path e roundId ext);
         EvLog Info "Starting Deepgram transcription" fields;
         EvTranscribe (file_bytes e d) (deepgram_options lang) ] ++ rest)%list /\
    Forall not_transcribe rest.
Proof.
  intros Hfault Hkey Hround Hfind Hfile Hrun lang audioPath.
  destruct (round_try_reaches_provider roundId e w r i ext d Hfault Hkey Hround
              Hfind Hfile) as (w3 & fields & Htry & _ & _ & Ht3).
  fold lang audioPath in Htry, Ht3.
  exists fields.
  unfold POST_round in Hrun.
  apply try_catch_inv in Hrun as [(a & Hm & ->) | (t & w1 & Hm & Hh)];
    rewrite Htry in Hm;
    destruct (obeys_quiet_round_finish _ _ _ _ _ _ _ _ Hm) as ((evs & Ht & Hevs) & _).
  - exists evs. split; [|done].
    apply new_events_app. rewrite Ht, Ht3. by rewrite <- app_assoc.
  - destruct (round_catch_spec roundId t e w1)
      as (w'' & lvl & msg & Hcatch & Htc & _).
    rewrite Hcatch in Hh. injection Hh as <- <-.
    eexists. split.
    + apply new_events_app. rewrite Htc, Ht, Ht3. rewrite <- !app_assoc. reflexivity.
    + apply Forall_app. split; [done|]. repeat (apply Forall_cons; split; [done|]).
      by apply Forall_nil.
Qed.

(** When storage does not fail, a key is configured and the round and an
    audio file for it exist, a run of the round-specific route calls the
    provider exactly once, whatever the provider answers and however the run
    ends: with the bytes of the round's audio file that comes first in the
    order webm, mp3, wav, ogg, and with the round's language, or "en" when
    the round has none. *)
Theorem trigger_sends_first_audio roundId e w r i ext d res w' :
  (forall n, fault e n = None) ->
  truthy (api_key e) = true ->
  rounds w !! roundId = Some r ->
  list_find (fun x => is_Some (files w !! audio_file_path e roundId x)) extensions
  = Some (i, ext) ->
  files w !! audio_file_path e roundId ext = Some d ->
  POST_round roundId e w = (res, w') ->
  EvTranscribe (file_bytes e d) (deepgram_options (js_or (r_language r) "en"))
    ∈ new_events w w' /\
  EvReadFile (audio_file_path e roundId ext) ∈ new_events w w' /\
  count_events is_transcribe (new_events w w') = 1 /\
  (forall buffer o,
      EvTranscribe buffer o ∈ new_events w w' ->
      buffer = file_bytes e d /\ language o = js_or (r_language r) "en").
Proof.
  intros Hfault Hkey Hround Hfind Hfile Hrun.
  destruct (POST_round_with_audio _ _ _ _ _ _ _ _ _ Hfault Hkey Hround Hfind Hfile Hrun)
    as (fields & rest & -> & Hrest).
  split; [|split; [|split]].
  - apply elem_of_app. left. apply list_elem_of_lookup. by exists 5.
  - apply elem_of_app. left. apply list_elem_of_lookup. by exists 3.
  - rewrite count_events_app, (count_events_none _ rest) by exact Hrest.
    reflexivity.
  - intros buffer o Hin. apply elem_of_app in Hin as [Hin | Hin].
    + repeat (apply elem_of_cons in Hin as [Heq | Hin]; [try discriminate Heq|]).
      * by injection Heq as -> ->.
      * by apply elem_of_nil in Hin.
    + rewrite Forall_forall in Hrest. by specialize (Hrest _ Hin).
Qed.

Lemma trigger_sends_first_audio_witness :
  count_events is_transcribe
    (new_events (sample_world CREATED)
       (snd (POST_round "r1" refusing_env (sample_world CREATED)))) = 1.
Proof.
  apply (trigger_sends_first_audio "r1" refusing_env (sample_world CREATED)
           (sample_round CREATED) 0 "webm" (Bytes sample_audio)
           (fst (POST_round "r1" refusing_env (sample_world CREATED)))).
  - reflexivity.
  - reflexivity.
  - reflexivity.
  - vm_compute. reflexivity.
  - reflexivity.
  - apply surjective_pairing.
Defined.

(** What [saveAudioFile] stored is what the provider receives.  After a
    successful save with one of the four extensions, when no file of the
    round with an earlier extension was there, storage does not fail and a
    key is configured, a run of the round-specific route for that round sends
    the provider exactly the saved buffer. *)
Theorem saved_audio_reaches_provider roundId buffer i ext e w p w1 r res w' :
  saveAudioFile roundId buffer ext e w = (Ok p, w1) ->
  extensions !! i = Some ext ->
  (forall j x, extensions !! j = Some x -> j < i ->
               files w !! audio_file_path e roundId x = None) ->
  (forall n, fault e n = None) ->
  truthy (api_key e) = true ->
  rounds w !! roundId = Some r ->
  POST_round roundId e w1 = (res, w') ->
  EvTranscribe buffer (deepgram_options (js_or (r_language r) "en"))
    ∈ new_events w1 w'.
Proof.
  intros Hsave Hi Hfirst Hfault Hkey Hround Hrun.
  apply saveAudioFile_Ok in Hsave as (_ & Hfiles & Hrounds).
  assert (Hfile : files w1 !! audio_file_path e roundId ext = Some (Bytes buffer)).
  { rewrite Hfiles. apply lookup_insert_eq. }
  assert (Hfind : list_find (fun x => is_Some (files w1 !! audio_file_path e roundId x))
                    extensions = Some (i, ext)).
  { apply list_find_Some. split; [done|]. split; [by eexists|].
    intros j x Hj Hlt [d' Hd'].
    rewrite Hfiles, lookup_insert_ne, (Hfirst j x Hj Hlt) in Hd'; [discriminate|].
    intros Heq. apply audio_file_path_inj in Heq;
      [| by eapply list_elem_of_lookup_2 | by eapply list_elem_of_lookup_2 ].
    subst x. pose proof (NoDup_lookup extensions i j ext) as Hnd.
    assert (i = j) by (apply Hnd; [apply extensions_NoDup | done | done]).
    lia. }
  rewrite <- Hrounds in Hround.
  destruct (POST_round_with_audio _ _ _ _ _ _ _ _ _ Hfault Hkey Hround Hfind Hfile Hrun)
    as (fields & rest & -> & _).
  apply elem_of_app. left. apply list_elem_of_lookup. by exists 5.
Qed.

Lemma saved_audio_reaches_provider_witness :
  let w1 := snd (saveAudioFile "r1" [Byte.x4f; Byte.x67] "mp3" good_env
                   {| rounds := {[ "r1" := sample_round CREATED ]}; files := ∅;
                      body_used := false; clock := 0; trace := [] |}) in
  EvTranscribe [Byte.x4f; Byte.x67] (deepgram_options "it")
    ∈ new_events w1 (snd (POST_round "r1" good_env w1)).
Proof.
  intros w1.
  apply (saved_audio_reaches_provider "r1" [Byte.x4f; Byte.x67] 1 "mp3" good_env
           {| rounds := {[ "r1" := sample_round CREATED ]}; files := ∅;
              body_used := false; clock := 0; trace := [] |}
           "/audio/r1.mp3" w1 (sample_round CREATED)
           (fst (POST_round "r1" good_env w1))).
  - vm_compute. reflexivity.
  - reflexivity.
  - intros j x _ _. apply lookup_empty.
  - reflexivity.
  - reflexivity.
  - reflexivity.
  - apply surjective_pairing.
Defined.

(** ** Both routes: answers other than 200 and 500 *)

(** An answer that is neither 200 nor 500 means that nothing has happened.
    The round-specific route then answers 404, because the round or its audio
    file is missing, having done no more than read the round and log a
    warning.  The generic route then answers 400, because the form has no
    audio file or, when it has one, no round id, having done no more than
    read the body and log a warning; the audio file is checked first.  In
    both routes no round and no file has changed, and the provider has not
    been called. *)
Theorem rejection_changes_nothing :
  (forall roundId e w resp w',
      POST_round roundId e w = (Ok resp, w') ->
      http_status resp ≠ 200 -> http_status resp ≠ 500 ->
      rounds w' = rounds w /\ files w' = files w /\
      ((rounds w !! roundId = None /\
        resp = json (ErrorBody "Round not found" None) 404 /\
        new_events w w' = [ EvGetRound roundId; EvLog Warn "Round not found" [] ])
       \/
       (is_Some (rounds w !! roundId) /\
        (forall x, x ∈ extensions -> files w !! audio_file_path e roundId x = None) /\
        resp = json (ErrorBody "Audio file not found. Recording may not have completed yet."
                       None) 404 /\
        new_events w w' = [ EvGetRound roundId;
                            EvLog Warn "Audio file not found for round" [] ])))
  /\
  (forall request e w resp w',
      POST_generic request e w = (Ok resp, w') ->
      http_status resp ≠ 200 -> http_status resp ≠ 500 ->
      rounds w' = rounds w /\ files w' = files w /\
      exists f,
        req_form request = Some f /\
        ((fd_audio f = None /\
          resp = json (ErrorBody "No audio file provided" None) 400 /\
          new_events w w' = [ EvLog Warn "No audio file provided in request" [] ])
         \/
         (is_Some (fd_audio f) /\ truthy (fd_roundId f) = false /\
          resp = json (ErrorBody "Round ID is required" None) 400 /\
          new_events w w' = [ EvLog Warn "No round ID provided in request" [] ]))).
Proof.
  split.
  - intros roundId e w resp w' H H200 H500. unfold POST_round in H.
    apply try_catch_inv in H as [(resp' & H & [= <-])|(t & w1 & _ & H)].
    + unfold round_try in H.
      apply bind_Ok in H as (round & w1 & H1 & H).
      apply getRound_run in H1 as [-> [(t & _ & [=])|[_ [= ->]]]].
      destruct (rounds w !! roundId) as [round|] eqn:Hround.
      * unfold round_found in H.
        apply bind_Ok in H as (audioPath & w2 & H2 & H).
        unfold audioFileExists in H2. rewrite audioFileExists_from_spec in H2.
        injection H2 as <- <-. cbn [files tick emit] in H.
        destruct (first_present e (files w) roundId extensions) as [audioPath|] eqn:Hp.
        -- apply bind_Ok in H as (? & w3 & H3 & H). apply log_run in H3 as [_ ->].
           apply round_orchestrate_Ok in H as (? & ? & ? & d & ? & _ & _ & _ & -> & _).
           by destruct H200.
        -- unfold bind, log, log_with, ret in H. cbn in H. injection H as <- <-.
           split; [done|]. split; [done|]. right.
           split; [by eexists|]. split; [|split; [done|]].
           ++ intros x Hx. unfold first_present in Hp.
              destruct (list_find _ extensions) as [[i ext']|] eqn:Hfind; [discriminate|].
              apply list_find_None in Hfind. rewrite Forall_forall in Hfind.
              specialize (Hfind x Hx).
              destruct (files w !! audio_file_path e roundId x) eqn:Hl; [|done].
              exfalso. apply Hfind. eauto.
           ++ apply new_events_app. cbn. by rewrite <- !app_assoc.
      * unfold bind, log, log_with, ret in H. cbn in H. injection H as <- <-.
        split; [done|]. split; [done|]. left. split; [done|]. split; [done|].
        apply new_events_app. cbn. by rewrite <- !app_assoc.
    + destruct (round_catch_spec roundId t e w1) as (w2 & lvl & msg & Hc & _).
      rewrite Hc in H. injection H as <- <-.
      destruct H500. apply error_response_status.
  - intros request e w resp w' H H200 H500. unfold POST_generic in H.
    apply try_catch_inv in H as [(resp' & H & [= <-])|(t & w1 & Htry & H)].
    + unfold generic_try in H.
      apply bind_Ok in H as (f & w1 & H1 & H).
      apply request_formData_spec in H1 as (Ht & Hr & Hf & _ & _ & Hform).
      destruct (Hform f eq_refl) as [Hreq _].
      unfold generic_with_form in H. cbv zeta in H.
      destruct (fd_audio f) as [audioFile|] eqn:Haudio.
      * destruct (truthy (fd_roundId f)) eqn:Hid; cbn [negb] in H.
        -- apply generic_orchestrate_Ok in H as (? & ? & d & ? & _ & _ & _ & -> & _).
           by destruct H200.
        -- unfold bind, log, log_with, ret in H. cbn in H. injection H as <- <-.
           split; [done|]. split; [done|]. exists f. split; [done|]. right.
           split; [by eexists|]. split; [done|]. split; [done|].
           apply new_events_app. cbn. by rewrite Ht.
      * unfold bind, log, log_with, ret in H. cbn in H. injection H as <- <-.
        split; [done|]. split; [done|]. exists f. split; [done|]. left.
        split; [done|]. split; [done|].
        apply new_events_app. cbn. by rewrite Ht.
    + apply generic_try_reads_body in Htry.
      destruct (generic_catch_body_read request t e w1 Htry) as (w2 & Hc & _).
      rewrite Hc in H. injection H as <- <-.
      destruct H500. apply error_response_status.
Qed.

Lemma rejection_changes_nothing_witness :
  rounds (snd (POST_round "r9" good_env (sample_world CREATED)))
  = rounds (sample_world CREATED) /\
  rounds (snd (POST_generic (mkRequest (Some (mkForm None None None))) good_env
                 (sample_world CREATED)))
  = rounds (sample_world CREATED).
Proof.
  split.
  - apply (proj1 rejection_changes_nothing "r9" good_env (sample_world CREATED)
             (json (ErrorBody "Round not found" None) 404));
      [vm_compute; reflexivity | vm_compute; discriminate | vm_compute; discriminate].
  - apply (proj2 rejection_changes_nothing (mkRequest (Some (mkForm None None None)))
             good_env (sample_world CREATED)
             (json (ErrorBody "No audio file provided" None) 400));
      [vm_compute; reflexivity | vm_compute; discriminate | vm_compute; discriminate].
Defined.

(** ** From a 200 answer to the round page *)

Lemma transcription_name_truthy roundId :
  truthy (Some (roundId ++ "_deliberation.json")) = true.
Proof. by destruct roundId. Qed.

(** What the round page finds once a run has stored the COMPLETED patch [p]
    over the round [r0] and the ontology [d] in the round's file. *)
Lemma completed_round_displayable JSON_parse roundId e w' p r0 d :
  p_status p = Some COMPLETED ->
  p_transcription_file p = Some (roundId ++ "_deliberation.json") ->
  rounds w' !! roundId = Some (apply_patch p (apply_patch (status_patch PROCESSING) r0)) ->
  files w' !! deliberation_path e roundId = Some (OntologyJson d) ->
  exists r',
    rounds w' !! roundId = Some r' /\
    r_status r' = COMPLETED /\
    r_transcription_file r' = Some (roundId ++ "_deliberation.json") /\
    r_audio_file r' = keep (p_audio_file p) (r_audio_file r0) /\
    fetches_transcription r' = true /\
    status_panels (r_status r') true = [TranscriptionDisplay] /\
    transcriptionExists roundId e w' = (Ok true, w') /\
    (fault e (clock w') = None ->
     JSON_parse (json_text e (OntologyJson d)) = Some (OntologyJson d) ->
     exists w2,
       loadDeliberationOntology JSON_parse roundId e w' = (Ok (OntologyJson d), w2)).
Proof.
  intros Hstatus Hname Hround Hfile.
  eexists. split; [exact Hround|].
  split; [cbn; by rewrite Hstatus|].
  split; [cbn; by rewrite Hname|].
  split; [done|].
  split.
  { unfold fetches_transcription. cbn. rewrite Hstatus, Hname. cbn.
    apply transcription_name_truthy. }
  split; [cbn; by rewrite Hstatus|].
  split; [by rewrite transcriptionExists_spec, Hfile|].
  intros Hfault Hparse.
  destruct (loadDeliberationOntology_ok JSON_parse roundId e w' (OntologyJson d)
              (OntologyJson d) Hfile Hfault Hparse) as (w2 & Hload & _).
  eauto.
Qed.

(** A 200 answer of either route leaves the round ready for its page.  The
    stored round is COMPLETED and names the transcription file
    [{roundId}_deliberation.json], so the page goes on to fetch the
    transcription and, holding it, shows the transcription display and no
    notice; the ontology file exists and holds the ontology of the response,
    and [loadDeliberationOntology] returns it when the read does not fail
    and [JSON.parse] inverts its serialisation.  The round-specific route
    stores the path of the audio file it transcribed as the round's audio
    reference; the generic route leaves that reference as it was. *)
Theorem answered_200_is_displayable (JSON_parse : Buffer -> option FileData) :
  (forall roundId e w resp w',
      POST_round roundId e w = (Ok resp, w') ->
      http_status resp = 200 ->
      exists d r0 r' audioPath,
        resp = success_response roundId d /\
        rounds w !! roundId = Some r0 /\
        audioFileExists roundId e w = (Ok (Some audioPath), w) /\
        rounds w' !! roundId = Some r' /\
        r_status r' = COMPLETED /\
        r_transcription_file r' = Some (roundId ++ "_deliberation.json") /\
        r_audio_file r' = Some audioPath /\
        fetches_transcription r' = true /\
        status_panels (r_status r') true = [TranscriptionDisplay] /\
        transcriptionExists roundId e w' = (Ok true, w') /\
        (fault e (clock w') = None ->
         JSON_parse (json_text e (OntologyJson d)) = Some (OntologyJson d) ->
         exists w2,
           loadDeliberationOntology JSON_parse roundId e w' = (Ok (OntologyJson d), w2)))
  /\
  (forall request e w resp w',
      POST_generic request e w = (Ok resp, w') ->
      http_status resp = 200 ->
      let roundId := form_roundId request in
      exists d r0 r',
        resp = success_response roundId d /\
        rounds w !! roundId = Some r0 /\
        rounds w' !! roundId = Some r' /\
        r_status r' = COMPLETED /\
        r_transcription_file r' = Some (roundId ++ "_deliberation.json") /\
        r_audio_file r' = r_audio_file r0 /\
        fetches_transcription r' = true /\
        status_panels (r_status r') true = [TranscriptionDisplay] /\
        transcriptionExists roundId e w' = (Ok true, w') /\
        (fault e (clock w') = None ->
         JSON_parse (json_text e (OntologyJson d)) = Some (OntologyJson d) ->
         exists w2,
           loadDeliberationOntology JSON_parse roundId e w' = (Ok (OntologyJson d), w2))).
Proof.
  split.
  - intros roundId e w resp w' H Hstatus.
    apply POST_round_200 in H
      as (round & audioPath & w0 & Hround & Hpresent & _ & Hr0 & _ & H); [|done].
    apply round_orchestrate_Ok in H
      as (r0 & buffer & raw & d & fields & Hr & _ & _ & -> & Hstored & Hfile & _).
    rewrite Hr0, Hround in Hr. injection Hr as <-.
    destruct (completed_round_displayable JSON_parse roundId e w'
                (completed_patch_round roundId audioPath d) round d
                eq_refl eq_refl Hstored Hfile)
      as (r' & Hr' & Hs & Hn & Ha & Hfetch & Hpanel & Hexists & Hload).
    exists d, round, r', audioPath.
    split; [done|]. split; [done|].
    split; [unfold audioFileExists; by rewrite audioFileExists_from_spec, Hpresent|].
    done.
  - intros request e w resp w' H Hstatus roundId.
    apply POST_generic_200 in H
      as (f & audioFile & w0 & _ & _ & _ & Hr0 & _ & H); [|done].
    apply generic_orchestrate_Ok in H
      as (r0 & raw & d & fields & Hr & _ & _ & -> & Hstored & Hfile & _).
    rewrite Hr0 in Hr. fold roundId in Hr, Hstored, Hfile.
    destruct (completed_round_displayable JSON_parse roundId e w'
                (completed_patch_generic roundId d) r0 d
                eq_refl eq_refl Hstored Hfile)
      as (r' & Hr' & Hs & Hn & Ha & Hfetch & Hpanel & Hexists & Hload).
    exists d, r0, r'. done.
Qed.

Lemma answered_200_is_displayable_witness :
  exists r',
    rounds (snd (POST_round "r1" good_env (sample_world CREATED))) !! "r1" = Some r' /\
    fetches_transcription r' = true.
Proof.
  destruct (proj1 (answered_200_is_displayable sample_parse) "r1" good_env
              (sample_world CREATED) (success_response "r1" sample_ontology)
              (snd (POST_round "r1" good_env (sample_world CREATED))))
    as (d & r0 & r' & audioPath & _ & _ & _ & Hr' & _ & _ & _ & Hfetch & _).
  - vm_compute. reflexivity.
  - reflexivity.
  - exists r'. split; [exact Hr' | exact Hfetch].
Defined.

(** ** The generic route: the round after a failed run *)

Lemma bind_Throw {A B} (m : IO A) (k : A -> IO B) e w t w' :
  bind m k e w = (Throw t, w') ->
  m e w = (Throw t, w') \/
  exists a w1, m e w = (Ok a, w1) /\ k a e w1 = (Throw t, w').
Proof.
  unfold bind. destruct (m e w) as [[a|t'] w1]; intros H;
    [right; eauto | injection H as -> ->; by left].
Qed.

Lemma updateRound_Throw roundId p e w t w' :
  updateRound roundId p e w = (Throw t, w') ->
  rounds w' = rounds w /\ (is_Some (fault e (clock w)) \/ rounds w !! roundId = None).
Proof.
  unfold updateRound. intros H.
  apply io_inv in H as [(t' & Hf & _ & ->) | [_ H]].
  - split; [done|]. left. by eexists.
  - cbn in H. destruct (rounds w !! roundId) as [r|] eqn:Hr; [discriminate|].
    injection H as _ <-. split; [done | by right].
Qed.

Ltac thrown_at_once H :=
  unfold bind, log, log_with, throw_new_Error, new_Error, throw, ret in H;
  cbn in H; injection H as _ <-; done.

Ltac after_log H :=
  let H1 := fresh "Hlog" in
  apply bind_Throw in H as [H | (? & ? & H1 & H)];
  [apply log_run in H as [[=] _] | apply log_run in H1 as [_ ->]].

Lemma generic_finish_Throw roundId filename reply e w t w' :
  generic_finish roundId filename reply e w = (Throw t, w') ->
  rounds w' = rounds w.
Proof.
  intros H. unfold generic_finish, log in H.
  destruct reply as [res err]. cbn [error result] in H.
  destruct err as [err|]; [thrown_at_once H|].
  destruct res as [raw|]; [|thrown_at_once H].
  after_log H. after_log H. after_log H.
  destruct (raw_results raw) as [rs|]; [|thrown_at_once H].
  apply bind_Throw in H as [H | (d & w3 & H3 & H)].
  - unfold createDeliberationOntology in H.
    destruct (build raw filename None); [discriminate|]. thrown_at_once H.
  - unfold createDeliberationOntology in H3.
    destruct (build raw filename None) as [d'|]; [|discriminate].
    injection H3 as <- <-.
    apply bind_Throw in H as [H | (? & w4 & H4 & H)].
    + apply saveTranscription_Throw in H as (_ & _ & Hr & _). by rewrite Hr.
    + apply saveTranscription_Ok in H4 as (_ & _ & Hr4).
      after_log H.
      apply bind_Throw in H as [H | (? & w6 & _ & H)]; [|discriminate H].
      apply updateRound_Throw in H as [Hr _]. rewrite Hr. cbn. by rewrite Hr4.
Qed.

Lemma generic_orchestrate_Throw roundId audioFile filename e w t w' :
  generic_orchestrate roundId audioFile filename e w = (Throw t, w') ->
  (rounds w' = rounds w /\
   (is_Some (fault e (clock w)) \/ rounds w !! roundId = None))
  \/
  (exists r, rounds w !! roundId = Some r /\
             rounds w' = <[roundId := apply_patch (status_patch PROCESSING) r]> (rounds w)).
Proof.
  intros H. unfold generic_orchestrate in H. cbv zeta in H.
  apply bind_Throw in H as [H | (? & w1 & H1 & H)].
  - left. by apply updateRound_Throw in H.
  - right. apply updateRound_Ok in H1 as (r & Hr & _ & _ & ->).
    exists r. split; [done|].
    apply bind_Throw in H as [H | (e' & ? & H2 & H)];
      [apply ask_run in H as [[=] _] | apply ask_run in H2 as [[= ->] ->]].
    destruct (negb (truthy (api_key e))); [thrown_at_once H|].
    after_log H.
    apply bind_Throw in H as [H | (reply & w5 & H5 & H)].
    + unfold transcribeFile in H.
      apply io_inv in H as [(t' & _ & _ & ->) | [_ H]]; [done | discriminate H].
    + apply transcribeFile_Ok in H5 as [-> ->].
      apply generic_finish_Throw in H. by rewrite H.
Qed.

(** A failed run of the generic route leaves the round stranded.  When the
    route answers 500, the round store is either as it was, which is the
    case only when the body could not be read as a form or the PROCESSING
    write itself failed, or it differs by that write alone: the round is in
    PROCESSING, never in ERROR on account of the failure, and its page goes
    on showing the processing notice and fetches no transcription. *)
Theorem generic_failure_strands_round request e w resp w' :
  POST_generic request e w = (Ok resp, w') ->
  http_status resp = 500 ->
  let roundId := form_roundId request in
  (rounds w' = rounds w /\
   (body_used w = true \/ req_form request = None \/
    is_Some (fault e (clock w)) \/ rounds w !! roundId = None))
  \/
  (exists r r',
      rounds w !! roundId = Some r /\
      r' = apply_patch (status_patch PROCESSING) r /\
      rounds w' = <[roundId := r']> (rounds w) /\
      status_of w' roundId = Some PROCESSING /\
      fetches_transcription r' = false /\
      forall transcription,
        status_panels (r_status r') transcription = [ProcessingNotice]).
Proof.
  intros H Hstatus roundId. unfold POST_generic in H.
  apply try_catch_inv in H as [(resp' & H & [= <-])|(t & w1 & Htry & H)].
  { destruct (obeys_generic_try request _ _ _ _ H) as (_ & _ & Hplain).
    apply plain_response_status in Hstatus; [done | by apply Hplain]. }
  pose proof (generic_try_reads_body _ _ _ _ _ Htry) as Hused.
  destruct (generic_catch_body_read request t e w1 Hused) as (w2 & Hc & _ & Hr2 & _).
  rewrite Hc in H. injection H as _ <-.
  unfold generic_try in Htry.
  apply bind_Throw in Htry as [Hform | (f & w0 & Hform & Hrest)].
  - left. unfold request_formData in Hform.
    destruct (body_used w) eqn:Hb.
    + split; [|by left].
      unfold throw_new_Error, new_Error, throw in Hform. injection Hform as _ <-.
      by rewrite Hr2.
    + unfold parse_form in Hform.
      destruct (req_form request) as [f|] eqn:Hreq; [discriminate Hform|].
      split; [|by right; left].
      unfold throw_new_Error, new_Error, throw in Hform. injection Hform as _ <-.
      by rewrite Hr2.
  - apply request_formData_spec in Hform as (_ & Hr0 & _ & Hc0 & _ & Hf).
    destruct (Hf f eq_refl) as [Hreq _].
    unfold generic_with_form in Hrest. cbv zeta in Hrest.
    destruct (fd_audio f) as [audioFile|]; [|discriminate Hrest].
    destruct (negb (truthy (fd_roundId f))); [discriminate Hrest|].
    assert (Hid : default "" (fd_roundId f) = roundId).
    { unfold roundId, form_roundId. by rewrite Hreq. }
    rewrite Hid in Hrest.
    apply generic_orchestrate_Throw in Hrest
      as [(Hsame & Hwhy) | (r & Hr & Hnew)].
    + left. rewrite Hr2, Hsame, Hr0. split; [done|].
      rewrite Hc0, Hr0 in Hwhy. destruct Hwhy; auto.
    + right. rewrite Hr0 in Hr, Hnew.
      exists r, (apply_patch (status_patch PROCESSING) r).
      split; [done|]. split; [done|]. split; [by rewrite Hr2|].
      split; [unfold status_of; by rewrite Hr2, Hnew, lookup_insert_eq|].
      split; [done|]. by intros [].
Qed.

Lemma generic_failure_strands_round_witness :
  status_of (snd (POST_generic sample_request refusing_env (sample_world RECORDING))) "r1"
  = Some PROCESSING.
Proof.
  destruct (generic_failure_strands_round sample_request refusing_env
              (sample_world RECORDING)
              (error_response
                 (ErrorObj "Deepgram API error: Unauthorized"
                    "Error: Deepgram API error: Unauthorized at POST (route.ts)"))
              (snd (POST_generic sample_request refusing_env (sample_world RECORDING))))
    as [(_ & [Hb | [Hb | [[t Hb] | Hb]]]) | (r & r' & _ & _ & _ & Hs & _)];
    [vm_compute; reflexivity | reflexivity | discriminate Hb | discriminate Hb
    | discriminate Hb | discriminate Hb | exact Hs].
Defined.

(** ** The audio recorder component: the displayed duration and the blob *)

Lemma split_seconds (a : N) :
  (a = 3600 * (a / 3600) + 60 * ((a mod 3600) / 60) + a mod 60)%N.
Proof.
  assert (H : (a mod 60 = (a mod 3600) mod 60)%N).
  { change 3600%N with (60 * 60)%N. rewrite (N.Div0.mod_mul_r a 60 60).
    rewrite (N.mul_comm 60), N.Div0.mod_add. by rewrite N.Div0.mod_mod. }
  rewrite H.
  rewrite <- N.add_assoc, <- (N.div_mod' (a mod 3600) 60).
  apply N.div_mod'.
Qed.

Lemma pad_length_below_100 (n : N) :
  (n < 100)%N -> String.length (padStart 2 "0" (pretty n)) = 2.
Proof.
  intros Hn.
  assert (Hall : forallb (fun k => Nat.eqb (String.length (padStart 2 "0" (pretty (N.of_nat k)))) 2)
                   (seq 0 100) = true) by (vm_compute; reflexivity).
  rewrite forallb_forall in Hall.
  specialize (Hall (N.to_nat n)). rewrite N2Nat.id in Hall.
  apply Nat.eqb_eq, Hall, in_seq. lia.
Qed.

Lemma pad_inj_below_100 (m n : N) :
  (m < 100)%N -> (n < 100)%N ->
  padStart 2 "0" (pretty m) = padStart 2 "0" (pretty n) -> m = n.
Proof.
  intros Hm Hn Heq.
  assert (Hall : forallb (fun i => forallb (fun j =>
                    implb (String.eqb (padStart 2 "0" (pretty (N.of_nat i)))
                                      (padStart 2 "0" (pretty (N.of_nat j))))
                          (Nat.eqb i j)) (seq 0 100)) (seq 0 100) = true)
    by (vm_compute; reflexivity).
  rewrite forallb_forall in Hall.
  specialize (Hall (N.to_nat m)). rewrite forallb_forall in Hall.
  specialize (Hall ltac:(apply in_seq; lia) (N.to_nat n) ltac:(apply in_seq; lia)).
  rewrite !N2Nat.id in Hall. rewrite Heq, String.eqb_refl in Hall. cbn in Hall.
  apply Nat.eqb_eq in Hall. lia.
Qed.

Lemma string_app_inj_length (a b x y : string) :
  String.length a = String.length b -> a ++ x = b ++ y -> a = b /\ x = y.
Proof.
  revert b. induction a as [|c a IH]; intros [|d b] Hlen Heq; try discriminate.
  - done.
  - rewrite !append_cons in Heq. injection Heq as -> Heq. injection Hlen as Hlen.
    by destruct (IH b Hlen Heq) as [-> ->].
Qed.

Lemma string_length_app (a b : string) :
  String.length (a ++ b) = String.length a + String.length b.
Proof. induction a as [|c a IH]; [done|]. rewrite append_cons. cbn. by rewrite IH. Qed.

Lemma fields_below (a : N) :
  (a < 360000)%N ->
  (a / 3600 < 100)%N /\ ((a mod 3600) / 60 < 100)%N /\ (a mod 60 < 100)%N.
Proof.
  intros Ha. split; [|split].
  - apply N.Div0.div_lt_upper_bound. lia.
  - apply N.Div0.div_lt_upper_bound.
    pose proof (N.mod_upper_bound a 3600). lia.
  - pose proof (N.mod_upper_bound a 60). lia.
Qed.

Lemma formatDuration_cases (seconds : N) :
  formatDuration seconds
  = if (seconds <? 3600)%N
    then padStart 2 "0" (pretty ((seconds mod 3600) / 60)%N)
         ++ ":" ++ padStart 2 "0" (pretty (seconds mod 60)%N)
    else padStart 2 "0" (pretty (seconds / 3600)%N)
         ++ ":" ++ padStart 2 "0" (pretty ((seconds mod 3600) / 60)%N)
         ++ ":" ++ padStart 2 "0" (pretty (seconds mod 60)%N).
Proof.
  unfold formatDuration. cbv zeta.
  destruct (N.ltb_spec seconds 3600) as [Hlt|Hge].
  - by rewrite N.div_small.
  - assert (Hpos : (0 <? seconds / 3600)%N = true)
      by (apply N.ltb_lt, N.div_str_pos; lia).
    by rewrite Hpos.
Qed.

(** Below a hundred hours [formatDuration] has a fixed layout: five
    characters, [mm:ss], below one hour, and eight, [hh:mm:ss], from one hour
    on. *)
Theorem formatDuration_shape (seconds : N) :
  (seconds < 360000)%N ->
  String.length (formatDuration seconds) = if (seconds <? 3600)%N then 5 else 8.
Proof.
  intros Hs. destruct (fields_below seconds Hs) as (Hh & Hm & Hsec).
  rewrite formatDuration_cases.
  destruct (seconds <? 3600)%N;
    rewrite !string_length_app, !pad_length_below_100 by done; reflexivity.
Qed.

Lemma formatDuration_shape_witness :
  String.length (formatDuration 3599) = 5 /\ String.length (formatDuration 3600) = 8.
Proof.
  split; [apply (formatDuration_shape 3599) | apply (formatDuration_shape 3600)];
    reflexivity.
Defined.

(** Below a hundred hours two different durations are never displayed
    alike. *)
Theorem formatDuration_inj (a b : N) :
  (a < 360000)%N -> (b < 360000)%N ->
  formatDuration a = formatDuration b -> a = b.
Proof.
  intros Ha Hb Heq.
  destruct (fields_below a Ha) as (Hha & Hma & Hsa).
  destruct (fields_below b Hb) as (Hhb & Hmb & Hsb).
  rewrite (split_seconds a), (split_seconds b).
  rewrite !formatDuration_cases in Heq.
  destruct (N.ltb_spec a 3600) as [Halt|Hage];
    destruct (N.ltb_spec b 3600) as [Hblt|Hbge].
  - rewrite (N.div_small a 3600), (N.div_small b 3600) by done.
    apply string_app_inj_length in Heq as [Hm Heq];
      [|by rewrite !pad_length_below_100].
    rewrite ?append_cons, ?append_nil in Heq. injection Heq as Hs.
    apply pad_inj_below_100 in Hm; [|done|done].
    apply pad_inj_below_100 in Hs; [|done|done].
    by rewrite Hm, Hs.
  - apply (f_equal String.length) in Heq.
    rewrite !string_length_app, !pad_length_below_100 in Heq by done.
    discriminate Heq.
  - apply (f_equal String.length) in Heq.
    rewrite !string_length_app, !pad_length_below_100 in Heq by done.
    discriminate Heq.
  - apply string_app_inj_length in Heq as [Hh Heq];
      [|by rewrite !pad_length_below_100].
    rewrite ?append_cons, ?append_nil in Heq. injection Heq as Heq.
    apply string_app_inj_length in Heq as [Hm Heq];
      [|by rewrite !pad_length_below_100].
    rewrite ?append_cons, ?append_nil in Heq. injection Heq as Hs.
    apply pad_inj_below_100 in Hh; [|done|done].
    apply pad_inj_below_100 in Hm; [|done|done].
    apply pad_inj_below_100 in Hs; [|done|done].
    by rewrite Hh, Hm, Hs.
Qed.

Lemma formatDuration_inj_witness : (60 + 15 = 75)%N.
Proof. apply (formatDuration_inj (60 + 15) 75); reflexivity. Defined.

Lemma recorded_chunks_from (events : list Buffer) :
  forall chunks,
    Forall (fun c => c <> []) chunks ->
    concat (foldl (fun chunks data => ondataavailable data chunks) chunks events)
    = (concat chunks ++ concat events)%list /\
    Forall (fun c => c <> [])
      (foldl (fun chunks data => ondataavailable data chunks) chunks events).
Proof.
  induction events as [|data events IH]; intros chunks Hchunks; cbn [foldl concat].
  - by rewrite app_nil_r.
  - destruct data as [|b data].
    + change (ondataavailable [] chunks) with chunks. by apply IH.
    + change (ondataavailable (b :: data) chunks) with (chunks ++ [b :: data])%list.
      destruct (IH (chunks ++ [b :: data])%list) as [Hcat Hall].
      { apply Forall_app. split; [done|]. by apply Forall_cons. }
      split; [|done].
      rewrite Hcat, concat_app. cbn [concat]. by rewrite app_nil_r, <- app_assoc.
Qed.

(** The blob handed over when the recorder stops holds all the data the
    recorder delivered since the start, in the order of delivery: dropping
    the empty chunks loses nothing, and no chunk that is kept is empty. *)
Theorem blob_holds_all_data (events : list Buffer) :
  Blob (recorded_chunks events) = concat events /\
  Forall (fun c => c <> []) (recorded_chunks events).
Proof.
  destruct (recorded_chunks_from events [] (Forall_nil_2 _)) as [Hcat Hall].
  split; [exact Hcat | exact Hall].
Qed.

(** ** src/app/rounds/[roundId]/page.tsx: what the page shows *)

(** The page shows at most one of its status blocks.  It shows none exactly
    for a round that is being recorded; it shows the transcription exactly
    for a COMPLETED round whose transcription it holds, and the notice that
    the transcription file was not found exactly for a COMPLETED round
    whose transcription it does not hold. *)
Theorem page_shows_one_block (status : RoundStatus) (transcription : bool) :
  length (status_panels status transcription) <= 1 /\
  (status_panels status transcription = [] <-> status = RECORDING) /\
  (TranscriptionDisplay ∈ status_panels status transcription
   <-> status = COMPLETED /\ transcription = true) /\
  (TranscriptionMissing ∈ status_panels status transcription
   <-> status = COMPLETED /\ transcription = false).
Proof.
  destruct status, transcription;
    match goal with
    | |- context [status_panels ?s ?t] =>
        let shown := eval vm_compute in (status_panels s t) in
        change (status_panels s t) with shown
    end;
    (split; [cbn; lia|]);
    (split; [split; intros H; (discriminate H || reflexivity)|]);
    rewrite ?elem_of_cons, ?elem_of_nil; intuition discriminate.
Qed.

(** The status badge tells the five statuses apart by its label, and uses
    the destructive variant for ERROR and for no other status. *)
Theorem status_badge_tells_statuses_apart :
  (forall s1 s2, getStatusLabel s1 = getStatusLabel s2 -> s1 = s2) /\
  (forall s, getStatusVariant s = "destructive" <-> s = ERROR).
Proof.
  split.
  - intros [] [] H; (reflexivity || discriminate H).
  - intros []; split; intros H; (reflexivity || discriminate H).
Qed.

Lemma status_badge_tells_statuses_apart_witness :
  getStatusVariant ERROR = "destructive".
Proof. apply (proj2 status_badge_tells_statuses_apart ERROR). reflexivity. Defined.

(** ** The round-specific route: the round after a failed run *)

(** A failed run of the round-specific route marks the round.  When the
    route answers 500, either the ERROR write succeeded, the stored round is
    in ERROR and its page shows the error notice and fetches no
    transcription; or the ERROR write itself failed, and the last thing the
    run did was to log that. *)
Theorem round_failure_marks_error roundId e w resp w' :
  POST_round roundId e w = (Ok resp, w') ->
  http_status resp = 500 ->
  (exists r',
      rounds w' !! roundId = Some r' /\
      r_status r' = ERROR /\
      fetches_transcription r' = false /\
      (forall transcription,
          status_panels (r_status r') transcription = [ErrorNotice]) /\
      last (trace w') = Some (EvLog Info "Updated round status to ERROR" []))
  \/
  last (trace w') = Some (EvLog Warn "Failed to update round status" []).
Proof.
  intros H Hstatus. unfold POST_round in H.
  apply try_catch_inv in H as [(resp' & H & [= <-])|(t & w1 & _ & H)].
  { destruct (round_try_events (fun _ => True) _ _ _ _ _ I (fun _ _ _ => I)
                (fun _ _ _ _ => I) H) as (_ & Hplain).
    apply plain_response_status in Hstatus; [done | by apply Hplain]. }
  destruct (round_catch_spec roundId t e w1)
    as (w2 & lvl & msg & Hc & Ht & _ & _ & Hcase).
  rewrite Hc in H. injection H as _ <-.
  destruct Hcase as [(_ & (r1 & _ & Hr2) & -> & ->) | (_ & _ & -> & ->)].
  - left. exists (apply_patch (status_patch ERROR) r1).
    split; [by rewrite Hr2, lookup_insert_eq|].
    split; [done|]. split; [done|]. split; [by intros []|].
    rewrite Ht.
    change ([ EvLog Error_ "Transcription error occurred" [];
              EvUpdateRound roundId (status_patch ERROR);
              EvLog Info "Updated round status to ERROR" [] ])
      with ([ EvLog Error_ "Transcription error occurred" [];
              EvUpdateRound roundId (status_patch ERROR) ]
            ++ [ EvLog Info "Updated round status to ERROR" [] ])%list.
    by rewrite app_assoc, last_snoc.
  - right. rewrite Ht.
    change ([ EvLog Error_ "Transcription error occurred" [];
              EvUpdateRound roundId (status_patch ERROR);
              EvLog Warn "Failed to update round status" [] ])
      with ([ EvLog Error_ "Transcription error occurred" [];
              EvUpdateRound roundId (status_patch ERROR) ]
            ++ [ EvLog Warn "Failed to update round status" [] ])%list.
    by rewrite app_assoc, last_snoc.
Qed.

Lemma round_failure_marks_error_witness :
  status_of (snd (POST_round "r1" refusing_env (sample_world RECORDING))) "r1"
  = Some ERROR.
Proof.
  destruct (round_failure_marks_error "r1" refusing_env (sample_world RECORDING)
              (error_response
                 (ErrorObj "Deepgram API error: Unauthorized"
                    "Error: Deepgram API error: Unauthorized at POST (route.ts)"))
              (snd (POST_round "r1" refusing_env (sample_world RECORDING))))
    as [(r' & Hr' & Hs & _) | Hlast];
    [vm_compute; reflexivity | reflexivity | | vm_compute in Hlast; discriminate Hlast].
  unfold status_of. by rewrite Hr', <- Hs.
Defined.

(** ** src/lib/storage/files.ts: [transcriptionExists] *)

(** [transcriptionExists] never throws and changes nothing, and it answers
    true exactly when the ontology file of the round is there; the raw
    transcript plays no part. *)
Theorem transcriptionExists_total roundId e w :
  exists found,
    transcriptionExists roundId e w = (Ok found, w) /\
    (found = true <-> is_Some (files w !! deliberation_path e roundId)).
Proof.
  eexists. split; [apply transcriptionExists_spec|].
  apply bool_decide_eq_true.
Qed.

(** ** The language sent to the provider, and that it is sent *)

Lemma request_formData_ok request f e w :
  body_used w = false ->
  req_form request = Some f ->
  request_formData request e w = (Ok f, set_body_used true w).
Proof.
  intros Hb Hf. unfold request_formData, parse_form. by rewrite Hb, Hf.
Qed.

(** With a readable form that has an audio file and a round id, a stored
    round, a configured key and no fault, the [try] block of the generic
    route gets as far as the provider's answer: the status has been written
    to PROCESSING and the uploaded bytes have been sent with language "en". *)
Lemma generic_try_reaches_provider request f audioFile r e w :
  (forall n, fault e n = None) ->
  truthy (api_key e) = true ->
  body_used w = false ->
  req_form request = Some f ->
  fd_audio f = Some audioFile ->
  truthy (fd_roundId f) = true ->
  rounds w !! form_roundId request = Some r ->
  let roundId := form_roundId request in
  let filename := js_or (fd_filename f) (js_or (Some (f_name audioFile)) "audio") in
  exists w3 fields,
    generic_try request e w
    = generic_finish roundId filename
        (provider e (f_content audioFile) (deepgram_options "en")) e w3 /\
    trace w3 = (trace w
                ++ [ EvUpdateRound roundId (status_patch PROCESSING);
                     EvLog Info "Starting Deepgram transcription" fields;
                     EvTranscribe (f_content audioFile) (deepgram_options "en") ])%list.
Proof.
  intros Hfault Hkey Hbody Hform Haudio Hid Hround roundId filename.
  assert (Hrid : default "" (fd_roundId f) = roundId).
  { unfold roundId, form_roundId. by rewrite Hform. }
  unfold generic_try.
  erewrite bind_run by (by apply request_formData_ok).
  unfold generic_with_form. cbv zeta. rewrite Haudio, Hid. cbn [negb fmap option_fmap option_map].
  rewrite Hrid. fold filename. unfold generic_orchestrate.
  erewrite bind_run by (apply updateRound_ok; [apply Hfault | exact Hround]).
  erewrite bind_run by reflexivity.
  rewrite Hkey. cbn [negb]. cbv zeta.
  erewrite bind_run by apply log_with_ok.
  erewrite bind_run by (apply transcribeFile_ok, Hfault).
  eexists _, _. split; [reflexivity|].
  cbn. rewrite <- !app_assoc. done.
Qed.

Lemma POST_generic_with_file request f audioFile r e w res w' :
  (forall n, fault e n = None) ->
  truthy (api_key e) = true ->
  body_used w = false ->
  req_form request = Some f ->
  fd_audio f = Some audioFile ->
  truthy (fd_roundId f) = true ->
  rounds w !! form_roundId request = Some r ->
  POST_generic request e w = (res, w') ->
  exists fields rest,
    new_events w w'
    = ([ EvUpdateRound (form_roundId request) (status_patch PROCESSING);
         EvLog Info "Starting Deepgram transcription" fields;
         EvTranscribe (f_content audioFile) (deepgram_options "en") ] ++ rest)%list /\
    Forall not_transcribe rest.
Proof.
  intros Hfault Hkey Hbody Hform Haudio Hid Hround Hrun.
  destruct (generic_try_reaches_provider request f audioFile r e w
              Hfault Hkey Hbody Hform Haudio Hid Hround) as (w3 & fields & Htry & Ht3).
  exists fields.
  unfold POST_generic in Hrun.
  apply try_catch_inv in Hrun as [(a & Hm & ->) | (t & w1 & Hm & Hh)].
  - rewrite Htry in Hm.
    destruct (obeys_quiet_generic_finish _ _ _ _ _ _ _ Hm) as ((evs & Ht & Hevs) & _).
    exists evs. split; [|done].
    apply new_events_app. rewrite Ht, Ht3. by rewrite <- app_assoc.
  - pose proof (generic_try_reads_body _ _ _ _ _ Hm) as Hused.
    rewrite Htry in Hm.
    destruct (obeys_quiet_generic_finish _ _ _ _ _ _ _ Hm) as ((evs & Ht & Hevs) & _).
    destruct (generic_catch_body_read request t e w1 Hused) as (w'' & Hcatch & Htc & _).
    rewrite Hcatch in Hh. injection Hh as <- <-.
    eexists. split.
    + apply new_events_app. rewrite Htc, Ht, Ht3. rewrite <- !app_assoc. reflexivity.
    + apply Forall_app. split; [done|]. repeat (apply Forall_cons; split; [done|]).
      by apply Forall_nil.
Qed.

(** C10.  Every provider call of the generic route carries the language
    "en" and the fixed feature set (model nova-2, diarization, punctuation,
    paragraphs, utterances and smart formatting on), whatever the request and
    whatever the stored round.  Every provider call of the round-specific
    route is made for a stored round and carries that round's language, or
    "en" when the round has no language (none stored, or the empty string),
    with the same feature set.  And the calls are made: when storage does
    not fail and a key is configured, the generic route, given a form with
    an audio file and the id of a stored round, sends the uploaded bytes with
    language "en", and the round-specific route, for a stored round with an
    audio file, sends a call with the round's language or "en". *)
Theorem C10_language_sent_to_provider :
  (forall request e w r w' buffer o,
      POST_generic request e w = (r, w') ->
      EvTranscribe buffer o ∈ new_events w w' ->
      language o = "en" /\
      model o = "nova-2" /\ diarize o = true /\ punctuate o = true /\
      paragraphs o = true /\ opt_utterances o = true /\ smart_format o = true)
  /\
  (forall roundId e w r w' buffer o,
      POST_round roundId e w = (r, w') ->
      EvTranscribe buffer o ∈ new_events w w' ->
      exists round,
        rounds w !! roundId = Some round /\
        language o = js_or (r_language round) "en" /\
        model o = "nova-2" /\ diarize o = true /\ punctuate o = true /\
        paragraphs o = true /\ opt_utterances o = true /\ smart_format o = true)
  /\
  (forall request f audioFile round e w r w',
      (forall n, fault e n = None) ->
      truthy (api_key e) = true ->
      body_used w = false ->
      req_form request = Some f ->
      fd_audio f = Some audioFile ->
      truthy (fd_roundId f) = true ->
      rounds w !! form_roundId request = Some round ->
      POST_generic request e w = (r, w') ->
      exists o,
        EvTranscribe (f_content audioFile) o ∈ new_events w w' /\
        language o = "en")
  /\
  (forall roundId round e w r w',
      (forall n, fault e n = None) ->
      truthy (api_key e) = true ->
      rounds w !! roundId = Some round ->
      (exists ext, ext ∈ extensions /\
                   is_Some (files w !! audio_file_path e roundId ext)) ->
      POST_round roundId e w = (r, w') ->
      exists buffer o,
        EvTranscribe buffer o ∈ new_events w w' /\
        language o = js_or (r_language round) "en")
  /\
  (forall l, l ≠ "" -> js_or (Some l) "en" = l)
  /\ js_or None "en" = "en"
  /\ js_or (Some "") "en" = "en".
Proof.
  split; [|split; [|split; [|split; [|split; [|split]]]]]; try done.
  - intros request e w r w' buffer o Hrun Hin.
    destruct (POST_generic_shape request e w) as (resp & w1 & evs & Hrun' & Hall & Hshape).
    rewrite Hrun' in Hrun. injection Hrun as <- <-.
    rewrite Forall_forall in Hall.
    assert (Ho : o = deepgram_options "en"); [|by rewrite Ho].
    destruct Hshape as [[_ Ht] | (t & _ & Ht)];
      rewrite (new_events_app _ _ _ Ht) in Hin.
    + by apply (allowed_transcribe (form_roundId request) "en" buffer), Hall.
    + apply elem_of_app in Hin as [Hin | Hin].
      * by apply (allowed_transcribe (form_roundId request) "en" buffer), Hall.
      * unfold generic_catch_events in Hin.
        repeat (apply elem_of_cons in Hin as [[=] | Hin]). by apply elem_of_nil in Hin.
  - intros roundId e w r w' buffer o Hrun Hin.
    destruct (POST_round_shape
                (fun ev => forall b o', ev = EvTranscribe b o' ->
                   exists round, rounds w !! roundId = Some round /\
                                 o' = deepgram_options (js_or (r_language round) "en"))
                roundId e w)
      as (resp & w1 & evs & Hrun' & Hall & Hshape); [done | done | |].
    { intros round Hround ev Hallowed b o' ->. eauto. }
    rewrite Hrun' in Hrun. injection Hrun as <- <-.
    rewrite Forall_forall in Hall.
    assert (Ho : exists round, rounds w !! roundId = Some round /\
                               o = deepgram_options (js_or (r_language round) "en")).
    { destruct Hshape as [[_ Ht] | (t & lvl & msg & _ & Ht & _)];
        rewrite (new_events_app _ _ _ Ht) in Hin.
      - by apply (Hall _ Hin buffer o).
      - apply elem_of_app in Hin as [Hin | Hin].
        + by apply (Hall _ Hin buffer o).
        + unfold round_catch_events in Hin.
          repeat (apply elem_of_cons in Hin as [[=] | Hin]). by apply elem_of_nil in Hin. }
    destruct Ho as (round & Hround & ->). by exists round.
  - intros request f audioFile round e w r w' Hfault Hkey Hbody Hform Haudio Hid
      Hround Hrun.
    destruct (POST_generic_with_file _ _ _ _ _ _ _ _ Hfault Hkey Hbody Hform Haudio
                Hid Hround Hrun) as (fields & rest & Hnew & _).
    exists (deepgram_options "en"). split; [|done].
    rewrite Hnew. apply elem_of_app. left. apply list_elem_of_lookup. by exists 2.
  - intros roundId round e w r w' Hfault Hkey Hround (ext0 & Hin & Hsome) Hrun.
    destruct (present_audio_found e w roundId ext0 Hin Hsome)
      as (i & ext & d & Hfind & Hfile).
    destruct (POST_round_with_audio _ _ _ _ _ _ _ _ _ Hfault Hkey Hround Hfind Hfile Hrun)
      as (fields & rest & Hnew & _).
    exists (file_bytes e d), (deepgram_options (js_or (r_language round) "en")).
    split; [|done].
    rewrite Hnew. apply elem_of_app. left. apply list_elem_of_lookup. by exists 5.
  - intros l Hl. by apply js_or_set.
Qed.

Lemma C10_language_sent_to_provider_witness :
  (exists o,
      EvTranscribe sample_audio o
        ∈ new_events (sample_world RECORDING)
            (snd (POST_generic sample_request good_env (sample_world RECORDING))) /\
      language o = "en")
  /\
  (exists buffer o,
      EvTranscribe buffer o
        ∈ new_events (sample_world RECORDING)
            (snd (POST_round "r1" good_env (sample_world RECORDING))) /\
      language o = "it").
Proof.
  split.
  - apply (proj1 (proj2 (proj2 C10_language_sent_to_provider))
             sample_request
             {| fd_audio := Some sample_file; fd_roundId := Some "r1";
                fd_filename := None |}
             sample_file (sample_round RECORDING) good_env (sample_world RECORDING)
             (fst (POST_generic sample_request good_env (sample_world RECORDING))));
      [reflexivity | reflexivity | reflexivity | reflexivity | reflexivity
      | reflexivity | reflexivity | apply surjective_pairing].
  - apply (proj1 (proj2 (proj2 (proj2 C10_language_sent_to_provider)))
             "r1" (sample_round RECORDING) good_env (sample_world RECORDING)
             (fst (POST_round "r1" good_env (sample_world RECORDING))));
      [reflexivity | reflexivity | reflexivity | | apply surjective_pairing].
    exists "webm". split; [by apply elem_of_cons; left | by eexists].
Defined.

(** ** The round-specific route: a trigger on a round that is being processed *)

Lemma round_finish_Throw roundId lang audioPath reply e w t w' :
  round_finish roundId lang audioPath reply e w = (Throw t, w') ->
  rounds w' = rounds w.
Proof.
  intros H. unfold round_finish, log in H.
  destruct reply as [res err]. cbn [error result] in H.
  destruct err as [err|]; [thrown_at_once H|].
  destruct res as [raw|]; [|thrown_at_once H].
  after_log H. after_log H.
  destruct (raw_results raw) as [rs|]; [|thrown_at_once H].
  cbv zeta in H.
  apply bind_Throw in H as [H | (d & w3 & H3 & H)].
  - unfold createDeliberationOntology in H.
    destruct (build raw (basename audioPath) (Some lang)); [discriminate|].
    thrown_at_once H.
  - unfold createDeliberationOntology in H3.
    destruct (build raw (basename audioPath) (Some lang)) as [d'|]; [|discriminate].
    injection H3 as <- <-.
    apply bind_Throw in H as [H | (? & w4 & H4 & H)].
    + apply saveTranscription_Throw in H as (_ & _ & Hr & _). by rewrite Hr.
    + apply saveTranscription_Ok in H4 as (_ & _ & Hr4).
      after_log H.
      apply bind_Throw in H as [H | (? & w6 & _ & H)]; [|discriminate H].
      apply updateRound_Throw in H as [Hr _]. rewrite Hr. cbn. by rewrite Hr4.
Qed.

Lemma round_orchestrate_Throw roundId round audioPath e w t w' :
  round_orchestrate roundId round audioPath e w = (Throw t, w') ->
  rounds w' = rounds w \/
  exists r, rounds w !! roundId = Some r /\
            rounds w' = <[roundId := apply_patch (status_patch PROCESSING) r]> (rounds w).
Proof.
  intros H. unfold round_orchestrate in H. cbv zeta in H.
  apply bind_Throw in H as [H | (? & w1 & H1 & H)].
  - left. by apply updateRound_Throw in H as [Hr _].
  - right. apply updateRound_Ok in H1 as (r & Hr & _ & _ & ->).
    exists r. split; [done|].
    apply bind_Throw in H as [H | (e' & ? & H2 & H)];
      [apply ask_run in H as [[=] _] | apply ask_run in H2 as [[= ->] ->]].
    apply bind_Throw in H as [H | (buffer & w3 & H3 & H)].
    + unfold fs_readFile in H.
      apply io_inv in H as [(t' & _ & _ & ->) | [_ H]]; [done|].
      cbn in H. destruct (files w !! _); [discriminate H|]. by injection H as _ <-.
    + apply fs_readFile_Ok in H3 as (d0 & _ & _ & ->).
      after_log H.
      destruct (negb (truthy (api_key e))); [thrown_at_once H|].
      apply bind_Throw in H as [H | (reply & w5 & H5 & H)].
      * unfold transcribeFile in H.
        apply io_inv in H as [(t' & _ & _ & ->) | [_ H]]; [done | discriminate H].
      * apply transcribeFile_Ok in H5 as [-> ->].
        apply round_finish_Throw in H. by rewrite H.
Qed.

Lemma round_try_Throw roundId e w t w1 :
  round_try roundId e w = (Throw t, w1) ->
  rounds w1 = rounds w \/
  exists r, rounds w !! roundId = Some r /\
            rounds w1 = <[roundId := apply_patch (status_patch PROCESSING) r]> (rounds w).
Proof.
  intros H. unfold round_try in H.
  apply bind_Throw in H as [H | (round & w0 & H0 & H)].
  - left. by apply getRound_run in H as [-> _].
  - apply getRound_run in H0 as [-> [(t' & _ & [=])|[_ [= ->]]]].
    destruct (rounds w !! roundId) as [round|] eqn:Hround; [|discriminate H].
    unfold round_found in H.
    apply bind_Throw in H as [H | (audioPath & w2 & H2 & H)].
    + unfold audioFileExists in H. rewrite audioFileExists_from_spec in H. discriminate H.
    + unfold audioFileExists in H2. rewrite audioFileExists_from_spec in H2.
      injection H2 as <- <-. cbn [files tick emit] in H.
      destruct (first_present e (files w) roundId extensions) as [audioPath|];
        [|discriminate H].
      after_log H.
      apply round_orchestrate_Throw in H as [Hsame | (r & Hr & Hnew)].
      * by left.
      * right. cbn in Hr, Hnew. exists r. split; [congruence | done].
Qed.

(** What the [try] block of the round-specific route leaves when it returns:
    a 200 with the round COMPLETED, or a 404 with the round store as it
    was. *)
Lemma round_try_Ok_state roundId e w resp w1 :
  round_try roundId e w = (Ok resp, w1) ->
  (http_status resp = 200 /\ status_of w1 roundId = Some COMPLETED) \/
  (http_status resp = 404 /\ rounds w1 = rounds w).
Proof.
  intros H. unfold round_try in H.
  apply bind_Ok in H as (round & w0 & H0 & H).
  apply getRound_run in H0 as [-> [(t & _ & [=])|[_ [= ->]]]].
  destruct (rounds w !! roundId) as [round|] eqn:Hround.
  - unfold round_found in H.
    apply bind_Ok in H as (audioPath & w2 & H2 & H).
    unfold audioFileExists in H2. rewrite audioFileExists_from_spec in H2.
    injection H2 as <- <-. cbn [files tick emit] in H.
    destruct (first_present e (files w) roundId extensions) as [audioPath|].
    + apply bind_Ok in H as (? & w3 & H3 & H). apply log_run in H3 as [_ ->].
      apply round_orchestrate_Ok in H
        as (r0 & buffer & raw & d & fields & _ & _ & _ & -> & Hstored & _).
      left. split; [done|]. unfold status_of. by rewrite Hstored.
    + unfold bind, log, log_with, ret in H. cbn in H. injection H as <- <-.
      by right.
  - unfold bind, log, log_with, ret in H. cbn in H. injection H as <- <-.
    by right.
Qed.

(** C1 (amended).  A trigger on a round whose status is PROCESSING is not
    rejected on account of that status: the handler never reads it, so its
    response and the sequence of its effects are exactly those it produces
    for the same round stored with any other status [s]; in particular it
    writes PROCESSING again and calls the provider whenever it would do so
    for a round that is not being processed.  The run always ends in a
    response, and the round is then COMPLETED when the answer is 200, still
    PROCESSING when the answer is 404, and ERROR when the answer is 500,
    unless the ERROR write itself failed: the round is then still
    PROCESSING, and the last thing the handler did was to log that
    failure. *)
Theorem C1_trigger_ignores_status
    (e : Env) (w : World) (roundId : string) (r : Round) (s : RoundStatus) :
  rounds w !! roundId = Some r ->
  r_status r = PROCESSING ->
  agree (POST_round roundId e w)
        (POST_round roundId e (set_rounds (<[roundId := with_status s r]> (rounds w)) w))
  /\
  exists resp w',
    POST_round roundId e w = (Ok resp, w') /\
    ((http_status resp = 200 /\ status_of w' roundId = Some COMPLETED) \/
     (http_status resp = 404 /\ status_of w' roundId = Some PROCESSING /\
      rounds w' = rounds w) \/
     (http_status resp = 500 /\
      ((status_of w' roundId = Some ERROR /\
        last (trace w') = Some (EvLog Info "Updated round status to ERROR" []))
       \/
       (status_of w' roundId = Some PROCESSING /\
        last (trace w') = Some (EvLog Warn "Failed to update round status" []))))).
Proof.
  intros Hround Hstatus. split; [by apply POST_round_status_blind|].
  unfold POST_round.
  destruct (round_try roundId e w) as [[resp|t] w1] eqn:Htry.
  - exists resp, w1. split; [by apply try_catch_passed|].
    apply round_try_Ok_state in Htry as [[H200 Hdone] | [H404 Hsame]].
    + by left.
    + right. left. split; [done|]. split; [|done].
      unfold status_of. by rewrite Hsame, Hround, <- Hstatus.
  - destruct (round_catch_spec roundId t e w1)
      as (w2 & lvl & msg & Hc & Ht & _ & _ & Hcase).
    exists (error_response t), w2.
    split; [by erewrite try_catch_caught by exact Htry|].
    right. right. split; [apply error_response_status|].
    assert (Hlast : last (trace w2) = Some (EvLog lvl msg [])).
    { rewrite Ht.
      change ([ EvLog Error_ "Transcription error occurred" [];
                EvUpdateRound roundId (status_patch ERROR);
                EvLog lvl msg [] ])
        with ([ EvLog Error_ "Transcription error occurred" [];
                EvUpdateRound roundId (status_patch ERROR) ]
              ++ [ EvLog lvl msg [] ])%list.
      by rewrite app_assoc, last_snoc. }
    destruct Hcase as [(_ & (r1 & _ & Hr2) & -> & ->) | (_ & Hr2 & -> & ->)].
    + left. split; [|done]. unfold status_of. by rewrite Hr2, lookup_insert_eq.
    + right. split; [|done]. unfold status_of. rewrite Hr2.
      apply round_try_Throw in Htry as [-> | (r' & Hr' & ->)].
      * by rewrite Hround, <- Hstatus.
      * by rewrite lookup_insert_eq.
Qed.

Lemma C1_trigger_ignores_status_witness :
  agree (POST_round "r1" good_env (sample_world PROCESSING))
        (POST_round "r1" good_env
           (set_rounds (<["r1" := with_status RECORDING (sample_round PROCESSING)]>
                          (rounds (sample_world PROCESSING)))
              (sample_world PROCESSING)))
  /\
  exists resp w',
    POST_round "r1" refusing_env_store_down (sample_world PROCESSING) = (Ok resp, w') /\
    http_status resp = 500 /\
    status_of w' "r1" = Some PROCESSING.
Proof.
  split.
  - apply (C1_trigger_ignores_status good_env (sample_world PROCESSING) "r1"
             (sample_round PROCESSING) RECORDING); [vm_compute; reflexivity | reflexivity].
  - destruct (C1_trigger_ignores_status refusing_env_store_down
                (sample_world PROCESSING) "r1" (sample_round PROCESSING) RECORDING)
      as [_ (resp & w' & Hrun & Hcases)]; [vm_compute; reflexivity | reflexivity |].
    exists resp, w'. split; [exact Hrun|].
    assert (Hresp : http_status resp = 500).
    { vm_compute in Hrun. by injection Hrun as <- _. }
    split; [exact Hresp|].
    destruct Hcases as [[H200 _] | [[H404 _] | [_ [[HE HI] | [HP _]]]]].
    + rewrite Hresp in H200. discriminate H200.
    + rewrite Hresp in H404. discriminate H404.
    + vm_compute in Hrun. injection Hrun as _ <-. vm_compute in HI. discriminate HI.
    + exact HP.
Defined.

(** C1, as the claim states it, fails: the round is PROCESSING, the trigger
    is answered 200, the provider is called, and the status has changed to
    COMPLETED. *)
Lemma C1_counterexample :
  let run := POST_round "r1" good_env (sample_world PROCESSING) in
  status_of (sample_world PROCESSING) "r1" = Some PROCESSING /\
  http_status (response_of run) = 200 /\
  count_events is_transcribe (trace (snd run)) = 1 /\
  status_of (snd run) "r1" = Some COMPLETED.
Proof. vm_compute. auto. Qed.

